(** * Tag-cache hooks of ida-minsc (misc/hooks.py)

    A shallow embedding of the event handlers that keep the reference-count
    cache ("tagcache") in step with the comments of the database: the
    two-phase changing/changed correlators, the function-tail handlers, the
    initial cache build and the relocation of the cache, together with the
    properties of them that are stated in the specification. *)

From stdpp Require Import gmap strings list fin_maps sorting.
From Stdlib Require Import ZArith Lia.

Open Scope Z_scope.

(** ** Logging, exceptions *)

Inductive level := DEBUG | INFO | WARNING | ERROR | CRITICAL | FATAL.

Inductive exn :=
  | StopIteration
  | TypeError
  | AddressNotFoundError
  | FunctionNotFoundError
  | OutOfBoundsError
  | KeyError
  | ValueError
  | AttributeError
  | NameError
  | HostError.

#[global] Instance level_eq_dec : EqDecision level.
Proof. solve_decision. Defined.

#[global] Instance exn_eq_dec : EqDecision exn.
Proof. solve_decision. Defined.

(** ** The reference-count tables *)

Section tally.
Context {K : Type} `{Countable K}.

  (** A missing entry counts as zero. *)
Definition count (m : gmap K nat) (k : K) : nat := default 0%nat (m !! k).

  (** Modelled from the spec: the increment of internal.comment (not under
      src/): "increment count for key; if this is the key's first occurrence
      the key becomes tracked". *)
Definition tally_inc (k : K) (m : gmap K nat) : gmap K nat :=
    <[k := S (count m k)]> m.

  (** Modelled from the spec: the decrement of internal.comment (not under
      src/): "decrement; clamp at zero and continue. Reaching zero untracks
      the key". *)
Definition tally_dec (k : K) (m : gmap K nat) : gmap K nat :=
    match count m k with
    | S (S n) => <[k := S n]> m
    | _ => delete k m
    end.

Lemma count_inc k k' m :
    count (tally_inc k m) k' = if decide (k = k') then S (count m k) else count m k'.
Proof.
    unfold tally_inc, count at 1. rewrite lookup_insert.
    destruct (decide (k = k')); reflexivity.
Qed.

Lemma count_dec k k' m :
    count (tally_dec k m) k' = if decide (k = k') then pred (count m k) else count m k'.
Proof.
    unfold tally_dec. destruct (count m k) as [|[|n]] eqn:E; unfold count at 1.
    - rewrite lookup_delete. destruct (decide (k = k')); reflexivity.
    - rewrite lookup_delete. destruct (decide (k = k')); reflexivity.
    - rewrite lookup_insert. destruct (decide (k = k')); reflexivity.
Qed.

  (** Tables that never hold a zero are determined by their counts. *)
Definition tracked (m : gmap K nat) : Prop := ∀ k, m !! k ≠ Some 0%nat.

Lemma tracked_ext m1 m2 :
    tracked m1 → tracked m2 → (∀ k, count m1 k = count m2 k) → m1 = m2.
Proof.
    intros T1 T2 E. apply map_eq. intros k.
    specialize (E k). specialize (T1 k). specialize (T2 k). unfold count in E.
    destruct (m1 !! k) as [[|a]|], (m2 !! k) as [[|b]|]; simpl in E;
      congruence.
Qed.

Lemma tracked_inc k m : tracked m → tracked (tally_inc k m).
Proof.
    intros T k'. unfold tally_inc. rewrite lookup_insert.
    destruct (decide (k = k')); [discriminate | apply T].
Qed.

Lemma tracked_dec k m : tracked m → tracked (tally_dec k m).
Proof.
    intros T k'. unfold tally_dec.
    destruct (count m k) as [|[|n]]; rewrite ?lookup_delete, ?lookup_insert;
      destruct (decide (k = k')); try discriminate; apply T.
Qed.

Lemma tracked_empty : tracked (∅ : gmap K nat).
Proof. intros k. rewrite lookup_empty. discriminate. Qed.
End tally.

(** ** The ledger of internal.comment

    The cache lives in a netnode: a hash from tag name to count and an
    altval from address to count for the globals, and one supval blob per
    function for its contents.  A blob holds the table of tag names and the
    table of addresses ([tagging.__address__]), which can be missing. *)

Record blob := Blob {
  b_tags : gmap string nat;
  b_address : option (gmap Z nat)
}.

Record Ledger := MkLedger {
  netnode_hash : gmap string nat;
  netnode_alt : gmap Z nat;
  netnode_sup : gmap Z blob
}.

Definition empty_blob : blob := Blob ∅ None.
Definition empty_ledger : Ledger := MkLedger ∅ ∅ ∅.

Definition blob_addresses (b : blob) : gmap Z nat := default ∅ (b_address b).

Definition contents_read (L : Ledger) (fn : Z) : blob :=
  default empty_blob (netnode_sup L !! fn).

(** The counts that the specification talks about. *)
Definition globals_count (L : Ledger) (key : string) : nat := count (netnode_hash L) key.
Definition globals_refs (L : Ledger) (ea : Z) : nat := count (netnode_alt L) ea.
Definition contents_count (L : Ledger) (fn : Z) (key : string) : nat :=
  count (b_tags (contents_read L fn)) key.
Definition contents_refs (L : Ledger) (fn : Z) (ea : Z) : nat :=
  count (blob_addresses (contents_read L fn)) ea.

Inductive namespace := Globals | Contents (owner : Z).

Inductive op :=
  | Inc (ns : namespace) (ea : Z) (key : string)
  | Dec (ns : namespace) (ea : Z) (key : string)
  | SetAddress (ns : namespace) (ea : Z) (refs : nat).

#[global] Instance namespace_eq_dec : EqDecision namespace.
Proof. solve_decision. Defined.

#[global] Instance op_eq_dec : EqDecision op.
Proof. solve_decision. Defined.

(** Modelled from the spec: [internal.comment.globals.inc] and [dec] (not
    under src/), on the tag table and on the address table that
    [globals.iterate] and [globals.address] enumerate. *)
Definition globals_inc (ea : Z) (key : string) (L : Ledger) : Ledger :=
  MkLedger (tally_inc key (netnode_hash L)) (tally_inc ea (netnode_alt L)) (netnode_sup L).

Definition globals_dec (ea : Z) (key : string) (L : Ledger) : Ledger :=
  MkLedger (tally_dec key (netnode_hash L)) (tally_dec ea (netnode_alt L)) (netnode_sup L).

(** Modelled from the spec: [internal.comment.contents.inc] and [dec] (not
    under src/), on the blob of the owning function. *)
Definition contents_inc (fn ea : Z) (key : string) (L : Ledger) : Ledger :=
  let b := contents_read L fn in
  MkLedger (netnode_hash L) (netnode_alt L)
    (<[fn := Blob (tally_inc key (b_tags b)) (Some (tally_inc ea (blob_addresses b)))]>
       (netnode_sup L)).

Definition contents_dec (fn ea : Z) (key : string) (L : Ledger) : Ledger :=
  let b := contents_read L fn in
  MkLedger (netnode_hash L) (netnode_alt L)
    (<[fn := Blob (tally_dec key (b_tags b)) (Some (tally_dec ea (blob_addresses b)))]>
       (netnode_sup L)).

(** Modelled from the spec: [set_address] of internal.comment (not under
    src/), which the old handlers call with a count of zero to "start out
    empty": the entry of the address is set to the count, and dropped when
    the count is zero. *)
Definition tally_set {K} `{Countable K} (k : K) (n : nat) (m : gmap K nat) : gmap K nat :=
  match n with
  | O => delete k m
  | S _ => <[k := n]> m
  end.

Definition globals_set_address (ea : Z) (n : nat) (L : Ledger) : Ledger :=
  MkLedger (netnode_hash L) (tally_set ea n (netnode_alt L)) (netnode_sup L).

Definition contents_set_address (fn ea : Z) (n : nat) (L : Ledger) : Ledger :=
  let b := contents_read L fn in
  MkLedger (netnode_hash L) (netnode_alt L)
    (<[fn := Blob (b_tags b) (Some (tally_set ea n (blob_addresses b)))]> (netnode_sup L)).

Definition apply_op (o : op) (L : Ledger) : Ledger :=
  match o with
  | SetAddress Globals ea n => globals_set_address ea n L
  | SetAddress (Contents fn) ea n => contents_set_address fn ea n L
  | Inc Globals ea key => globals_inc ea key L
  | Dec Globals ea key => globals_dec ea key L
  | Inc (Contents fn) ea key => contents_inc fn ea key L
  | Dec (Contents fn) ea key => contents_dec fn ea key L
  end.

(** A decrement underflows when the tag or the address is not counted. *)
Definition underflows (o : op) (L : Ledger) : bool :=
  match o with
  | Inc _ _ _ => false
  | SetAddress _ _ _ => false
  | Dec Globals ea key =>
      bool_decide (globals_count L key = 0%nat) || bool_decide (globals_refs L ea = 0%nat)
  | Dec (Contents fn) ea key =>
      bool_decide (contents_count L fn key = 0%nat) || bool_decide (contents_refs L fn ea = 0%nat)
  end.

Definition apply_ops (os : list op) (L : Ledger) : Ledger :=
  fold_left (λ acc o, apply_op o acc) os L.

(** ** The host and the codec

    What the handlers read from the disassembler and from the modules of
    the plugin that are not part of the hooks. *)

Class Idaapi := {
  get_func : Z → option Z;
  seg_is_xtrn : Z → bool;
  flags_is_data : Z → bool;
  is_identifier : Z → bool;
  address_within : Z → bool;
  version_lt_7_0 : bool;
  set_cmt_raises : Z → bool → bool;
  database_type : Z → option (string * string);
  database_type_data : Z → string * string;
  database_functions : list Z;
  function_chunks : Z → list (Z * Z);
  address_prev : Z → Z;
  address_iterate : Z → Z → list Z;
  bounds_iterate : Z * Z → list Z;
  database_tag : Z → gmap string string;
  import_names : list Z;
  chunk_owners : Z → list Z;
  get_fchunk : Z → option (bool * Z);
  netnode_fails : Z → bool
}.

Class Codec := {
  decode : string → gmap string string;
  encode : gmap string string → string;
  check : string → bool
}.

(** ** The database state, the correlation states and the world *)

Inductive state := init | loaded | ready.

#[global] Instance state_eq_dec : EqDecision state.
Proof. solve_decision. Defined.

Inductive klass := address | globals | typeinfo.

#[global] Instance klass_eq_dec : EqDecision klass.
Proof. solve_decision. Defined.

#[global] Instance klass_countable : Countable klass.
Proof.
  refine (inj_countable'
    (λ c, match c with address => 0%nat | globals => 1%nat | typeinfo => 2%nat end)
    (λ n, match n with O => address | S O => globals | _ => typeinfo end) _).
  intros []; reflexivity.
Defined.

(** The generator of [updater], suspended at one of its two yields. *)
Inductive updater :=
  | U_first
  | U_address (ea : Z) (rpt : bool) (new : string) (old : option string)
              (o n : gmap string string)
  | U_globals (ea : Z) (fn : option Z) (rpt : bool) (new : string) (old : option string)
              (o n : gmap string string)
  | U_typeinfo (ea : Z) (original expected : string * string)
  | U_closed.

(** The generator of [consumer], either feeding the updater, or discarding
    what it is sent until it is closed. *)
Inductive consumer :=
  | C_feed (h : updater)
  | C_drain
  | C_closed.

Record coroutine := Coroutine {
  co_cls : klass;
  co_ea : Z;
  co_state : consumer
}.

(** What is sent to a coroutine. *)
Inductive payload :=
  | P_comment (ea : Z) (rpt : bool) (new : option string)
  | P_changing_ti (ea : Z) (original new : string * string)
  | P_ti_changed (ea : Z) (new : string * string).

Inductive event :=
  | Log (l : level) (msg : string)
  | Call (o : op)
  | SetCmt (ea : Z) (text : string) (rpt : bool) (off : gset string)
  | SetFuncCmt (fn : option Z) (text : string) (rpt : bool) (off : gset string).

Record World := MkWorld {
  State : option state;
  ledger : Ledger;
  comments : gmap (Z * bool) string;
  func_comments : gmap (Z * bool) string;
  disabled : gset string;
  heap : list coroutine;
  states : gmap (klass * Z) nat;
  trace : list event
}.

Definition set_State (s : option state) (w : World) : World :=
  MkWorld s (ledger w) (comments w) (func_comments w) (disabled w) (heap w) (states w) (trace w).
Definition set_ledger (L : Ledger) (w : World) : World :=
  MkWorld (State w) L (comments w) (func_comments w) (disabled w) (heap w) (states w) (trace w).
Definition set_comments (c : gmap (Z * bool) string) (w : World) : World :=
  MkWorld (State w) (ledger w) c (func_comments w) (disabled w) (heap w) (states w) (trace w).
Definition set_func_comments (c : gmap (Z * bool) string) (w : World) : World :=
  MkWorld (State w) (ledger w) (comments w) c (disabled w) (heap w) (states w) (trace w).
Definition set_disabled (d : gset string) (w : World) : World :=
  MkWorld (State w) (ledger w) (comments w) (func_comments w) d (heap w) (states w) (trace w).
Definition set_heap (h : list coroutine) (w : World) : World :=
  MkWorld (State w) (ledger w) (comments w) (func_comments w) (disabled w) h (states w) (trace w).
Definition set_states (s : gmap (klass * Z) nat) (w : World) : World :=
  MkWorld (State w) (ledger w) (comments w) (func_comments w) (disabled w) (heap w) s (trace w).
Definition emit (e : event) (w : World) : World :=
  MkWorld (State w) (ledger w) (comments w) (func_comments w) (disabled w) (heap w) (states w)
          (trace w ++ [e]).

(** ** Computations that can raise *)

Inductive Result (A : Type) :=
  | Return (a : A) (w : World)
  | Raise (e : exn) (w : World).
Arguments Return {A} a w.
Arguments Raise {A} e w.

Definition M (A : Type) : Type := World → Result A.

Definition ret {A} (a : A) : M A := λ w, Return a w.
Definition bind {A B} (c : M A) (k : A → M B) : M B :=
  λ w, match c w with
       | Return a w' => k a w'
       | Raise e w' => Raise e w'
       end.
Definition raise {A} (e : exn) : M A := λ w, Raise e w.

Declare Scope hook_scope.
Delimit Scope hook_scope with hook.
Notation "x <- c ;;; k" := (bind c (λ x, k))
  (at level 100, c at next level, right associativity) : hook_scope.
Notation "c ;;; k" := (bind c (λ _, k))
  (at level 100, right associativity) : hook_scope.
Open Scope hook_scope.

(** [try: body finally: fin] *)
Definition try_finally {A} (body : M A) (fin : M unit) : M A :=
  λ w, match body w with
       | Return a w' =>
           match fin w' with
           | Return _ w'' => Return a w''
           | Raise e w'' => Raise e w''
           end
       | Raise e w' =>
           match fin w' with
           | Return _ w'' => Raise e w''
           | Raise e' w'' => Raise e' w''
           end
       end.

(** [try: body except which: handler] *)
Definition try_except {A} (body : M A) (which : exn) (handler : M A) : M A :=
  λ w, match body w with
       | Return a w' => Return a w'
       | Raise e w' => if decide (e = which) then handler w' else Raise e w'
       end.

Fixpoint for_each {A} (l : list A) (body : A → M unit) : M unit :=
  match l with
  | [] => ret tt
  | x :: l' => body x ;;; for_each l' body
  end.

Definition when (b : bool) (c : M unit) : M unit := if b then c else ret tt.

Definition world_of {A} (r : Result A) : World :=
  match r with Return _ w => w | Raise _ w => w end.

(** ** Primitive actions *)

Definition log (l : level) (msg : string) : M unit := λ w, Return tt (emit (Log l msg) w).

(** A call into the ledger; an underflowing decrement is clamped and logged. *)
Definition call (o : op) : M unit :=
  λ w, let w1 := emit (Call o) w in
       let w2 := if underflows o (ledger w) then emit (Log ERROR "reference count underflow") w1
                 else w1 in
       Return tt (set_ledger (apply_op o (ledger w)) w2).

Definition hook_disable (name : string) : M unit :=
  λ w, Return tt (set_disabled ({[name]} ∪ disabled w) w).
Definition hook_enable (name : string) : M unit :=
  λ w, Return tt (set_disabled (disabled w ∖ {[name]}) w).

Section primitives.
Context {host : Idaapi}.

Definition get_cmt (ea : Z) (rpt : bool) : M (option string) :=
    λ w, Return (comments w !! (ea, rpt)) w.

Definition set_cmt (ea : Z) (text : string) (rpt : bool) : M unit :=
    λ w, let w1 := emit (SetCmt ea text rpt (disabled w)) w in
         if set_cmt_raises ea rpt then Raise HostError w1
         else Return tt (set_comments (<[(ea, rpt) := text]> (comments w)) w1).

Definition get_func_cmt (fn : option Z) (rpt : bool) : M (option string) :=
    λ w, Return (match fn with
                 | Some f => func_comments w !! (f, rpt)
                 | None => None
                 end) w.

Definition set_func_cmt (fn : option Z) (text : string) (rpt : bool) : M unit :=
    λ w, let w1 := emit (SetFuncCmt fn text rpt (disabled w)) w in
         match fn with
         | Some f =>
             if set_cmt_raises f rpt then Raise HostError w1
             else Return tt (set_func_comments (<[(f, rpt) := text]> (func_comments w)) w1)
         | None => Return tt w1
         end.

  (** [interface.range.start] of a function that may be [None]. *)
Definition range_start (fn : option Z) : M Z :=
    match fn with
    | Some f => ret f
    | None => raise AttributeError
    end.
End primitives.

(** ** class changingchanged: the two-phase engine *)

Definition is_ready : M bool :=
  λ w, Return (bool_decide (State w = Some ready)) w.

Definition heap_get (id : nat) : M coroutine :=
  λ w, match heap w !! id with
       | Some c => Return c w
       | None => Raise KeyError w
       end.

Definition heap_set (id : nat) (c : consumer) : M unit :=
  λ w, match heap w !! id with
       | Some co => Return tt (set_heap (<[id := Coroutine (co_cls co) (co_ea co) c]> (heap w)) w)
       | None => Raise KeyError w
       end.

Definition heap_alloc (c : coroutine) : M nat :=
  λ w, Return (length (heap w)) (set_heap (heap w ++ [c]) w).

(** [states.pop(ea)] inside the consumer, which raises when the key is gone. *)
Definition states_pop (cls : klass) (ea : Z) : M nat :=
  λ w, match states w !! (cls, ea) with
       | Some id => Return id (set_states (delete (cls, ea) (states w)) w)
       | None => Raise KeyError w
       end.

Definition states_setdefault (cls : klass) (ea : Z) (id : nat) : M nat :=
  λ w, match states w !! (cls, ea) with
       | Some id' => Return id' w
       | None => Return id (set_states (<[(cls, ea) := id]> (states w)) w)
       end.

(** [handler.close()]: only at its second yield does an updater catch the
    GeneratorExit, to log that it was terminated; it then returns. *)
Definition updater_close (h : updater) : M unit :=
  match h with
  | U_address _ _ _ _ _ _ | U_globals _ _ _ _ _ _ _ | U_typeinfo _ _ _ =>
      log DEBUG "Terminating state due to explicit request from owner"
  | U_first | U_closed => ret tt
  end.

(** [coroutine.close()] on a consumer. *)
Definition consumer_close (id : nat) : M unit :=
  co <- heap_get id ;;;
  match co_state co with
  | C_feed h =>
      (* GeneratorExit at the yield of the first loop: finally: handler.close() *)
      updater_close h ;;;
      heap_set id C_closed
  | C_drain =>
      (* except GeneratorExit: states.pop(ea) *)
      heap_set id C_closed ;;;
      _ <- states_pop (co_cls co) (co_ea co) ;;;
      ret tt
  | C_closed => ret tt
  end.

Definition new (cls : klass) (ea : Z) : M nat :=
  (λ w, match states w !! (cls, ea) with
        | Some res =>
            (log INFO "Forcefully closing the state for address by request" ;;;
             consumer_close res) (set_states (delete (cls, ea) (states w)) w)
        | None => Return tt w
        end) ;;;
  coroutine <- heap_alloc (Coroutine cls ea (C_feed U_first)) ;;;
  states_setdefault cls ea coroutine.

Definition resume (cls : klass) (ea : Z) : M nat :=
  λ w, match states w !! (cls, ea) with
       | Some id => Return id w
       | None => Raise AddressNotFoundError w
       end.

(** ** The three updaters *)

Section correlators.
Context {host : Idaapi} {codec : Codec}.

(** [internal.comment.decode] of a comment that may be missing. *)
Definition decode_opt (text : option string) : gmap string string :=
  decode (default "" text).

Definition get_func_extern (ea : Z) : option Z * bool :=
  let f := get_func ea in
  (f, match f with Some _ => seg_is_xtrn ea | None => flags_is_data ea end).

(** The namespace that [address] counts an address in: the contents of its
    function, unless there is none or it is runtime-linked. *)
Definition namespace_at (ea : Z) : namespace :=
  match get_func_extern ea with
  | (Some f, false) => Contents f
  | _ => Globals
  end.

Definition symmetric_difference (a b : gset string) : gset string := (a ∖ b) ∪ (b ∖ a).

Definition missing (key : string) (content : gmap string string) : bool :=
  bool_decide (content !! key = None).

Definition address_update_refs (ea : Z) (old new : gmap string string) : M unit :=
  let ns := namespace_at ea in
  let oldkeys := dom old in
  let newkeys := dom new in
  log DEBUG "update_refs: Updating old keys to new keys" ;;;
  for_each (elements (symmetric_difference oldkeys newkeys)) (λ key,
    when (missing key new)
      (log DEBUG "update_refs: Decreasing reference count" ;;; call (Dec ns ea key)) ;;;
    when (missing key old)
      (log DEBUG "update_refs: Increasing reference count" ;;; call (Inc ns ea key))).

Definition address_create_refs (ea : Z) (content : gmap string string) : M unit :=
  let ns := namespace_at ea in
  log DEBUG "create_refs: Creating keys" ;;;
  for_each (elements (dom content)) (λ key,
    log DEBUG "create_refs: Increasing reference count" ;;; call (Inc ns ea key)).

Definition address_delete_refs (ea : Z) (content : gmap string string) : M unit :=
  let ns := namespace_at ea in
  log DEBUG "delete_refs: Deleting keys" ;;;
  for_each (elements (dom content)) (λ key,
    log DEBUG "delete_refs: Decreasing reference count" ;;; call (Dec ns ea key)).

(** What a [send] to an updater comes back with: it either yields again, or
    returns, which its caller sees as a StopIteration. *)
Inductive sent := Yielded (h : updater) | Returned.

Definition address_updater (h : updater) (p : payload) : M sent :=
  match h, p with
  | U_first, P_comment ea rpt (Some new) =>
      old <- get_cmt ea rpt ;;;
      let o := decode_opt old in
      let n := decode new in
      address_update_refs ea o n ;;;
      ret (Yielded (U_address ea rpt new old o n))
  | U_address ea rpt new old o n, P_comment newea nrpt none =>
      if bool_decide ((newea, nrpt, none) = (ea, rpt, None)) then
        ncmt <- get_cmt ea rpt ;;;
        when (bool_decide (default "" ncmt ≠ new))
          (log WARNING "Comment from event is different from database") ;;;
        (if check new then set_cmt ea new rpt
         else if bool_decide (new ≠ "") then set_cmt ea new rpt
         else address_delete_refs ea n) ;;;
        ret Returned
      else
        log FATAL "Comment events are out of sync, updating tags from previous comment" ;;;
        address_delete_refs ea o ;;;
        set_cmt ea "" rpt ;;;
        log WARNING "Deleted comment at address" ;;;
        new' <- get_cmt newea nrpt ;;;
        let n' := decode_opt new' in
        address_create_refs newea n' ;;;
        ret Returned
  | U_closed, _ => ret Returned
  | _, _ => raise TypeError
  end.

Definition globals_update_refs (fn : option Z) (old new : gmap string string) : M unit :=
  let oldkeys := dom old in
  let newkeys := dom new in
  log DEBUG "update_refs: Updating old keys to new keys" ;;;
  for_each (elements (symmetric_difference oldkeys newkeys)) (λ key,
    when (missing key new)
      (f <- range_start fn ;;;
       log DEBUG "update_refs: Decreasing reference count" ;;; call (Dec Globals f key)) ;;;
    when (missing key old)
      (f <- range_start fn ;;;
       log DEBUG "update_refs: Increasing reference count" ;;; call (Inc Globals f key))).

Definition globals_create_refs (fn : option Z) (content : gmap string string) : M unit :=
  log DEBUG "create_refs: Creating keys" ;;;
  for_each (elements (dom content)) (λ key,
    f <- range_start fn ;;;
    log DEBUG "create_refs: Increasing reference count" ;;; call (Inc Globals f key)).

Definition globals_delete_refs (fn : option Z) (content : gmap string string) : M unit :=
  log DEBUG "delete_refs: Deleting keys" ;;;
  for_each (elements (dom content)) (λ key,
    f <- range_start fn ;;;
    log DEBUG "delete_refs: Decreasing reference count" ;;; call (Dec Globals f key)).

Definition globals_updater (h : updater) (p : payload) : M sent :=
  match h, p with
  | U_first, P_comment ea rpt (Some new) =>
      let fn := get_func ea in
      old <- get_func_cmt fn rpt ;;;
      let o := decode_opt old in
      let n := decode new in
      globals_update_refs fn o n ;;;
      ret (Yielded (U_globals ea fn rpt new old o n))
  | U_globals ea fn rpt new old o n, P_comment newea nrpt none =>
      if bool_decide ((newea, nrpt, none) = (ea, rpt, None)) then
        ncmt <- get_func_cmt fn rpt ;;;
        when (bool_decide (default "" ncmt ≠ new))
          (log WARNING "Comment from event is different from database") ;;;
        (if check new then set_func_cmt fn new rpt
         else if bool_decide (new ≠ "") then set_func_cmt fn new rpt
         else globals_delete_refs fn n) ;;;
        ret Returned
      else
        log FATAL "Comment events are out of sync, updating tags from previous comment" ;;;
        globals_delete_refs fn o ;;;
        set_func_cmt fn "" rpt ;;;
        log WARNING "Deleted comment for function" ;;;
        let newfn := get_func newea in
        new' <- get_func_cmt newfn nrpt ;;;
        let n' := decode_opt new' in
        globals_create_refs newfn n' ;;;
        ret Returned
  | U_closed, _ => ret Returned
  | _, _ => raise TypeError
  end.

(** [any] of a pair of byte strings. *)
Definition any2 (t : string * string) : bool :=
  bool_decide (fst t ≠ "") || bool_decide (snd t ≠ "").

Definition typeinfo_updater (h : updater) (p : payload) : M sent :=
  match h, p with
  | U_first, P_changing_ti ea original expected =>
      when (any2 original) (call (Dec Globals ea "__typeinfo__")) ;;;
      ret (Yielded (U_typeinfo ea original expected))
  | U_typeinfo ea original expected, P_ti_changed new_ea tidata =>
      r <- (if bool_decide ((ea, expected) ≠ (new_ea, tidata)) then
              log WARNING "The ti_changed event has a different address and type information" ;;;
              ret (new_ea, tidata)
            else if bool_decide (ea ≠ new_ea) then
              log WARNING "The changing_ti event has a different address" ;;;
              ret (ea, tidata)
            else if bool_decide (expected ≠ tidata) then
              log WARNING "The changing_ti event has different type information" ;;;
              ret (new_ea, database_type_data ea)
            else ret (new_ea, tidata)) ;;;
      let '(new_ea, tidata) := r in
      (if any2 tidata then
         call (Inc Globals new_ea "__typeinfo__") ;;;
         log DEBUG "Updated the type information at address"
       else
         log DEBUG "Removed the type information from address") ;;;
      ret Returned
  | U_closed, _ => ret Returned
  | _, _ => raise TypeError
  end.

Definition updater_send (cls : klass) : updater → payload → M sent :=
  match cls with
  | address => address_updater
  | globals => globals_updater
  | typeinfo => typeinfo_updater
  end.

(** [coroutine.send(value)] on a consumer: the value is passed on to the
    updater; when the updater returns, the consumer closes it and starts
    discarding; when it raises, the consumer closes it and dies with it. *)
Definition consumer_send (id : nat) (p : payload) : M unit :=
  co <- heap_get id ;;;
  match co_state co with
  | C_feed h =>
      λ w, match updater_send (co_cls co) h p w with
           | Return (Yielded h') w' => heap_set id (C_feed h') w'
           | Return Returned w' => heap_set id C_drain w'
           | Raise e w' => (heap_set id C_closed ;;; raise e) w'
           end
  | C_drain => ret tt
  | C_closed => raise StopIteration
  end.

(** ** class address: comments at an address *)

Definition disable_hooks (names : list string) : M unit := for_each names hook_disable.
Definition enable_hooks (names : list string) : M unit := for_each names hook_enable.

Definition address_hooks : list string := ["changing_cmt"; "cmt_changed"].

Definition address_changing (ea : Z) (repeatable_cmt : bool) (newcmt : string) : M unit :=
  rdy <- is_ready ;;;
  if negb rdy then log DEBUG "Ignoring comment.changing event (database not ready)"
  else if is_identifier ea then log DEBUG "Ignoring comment.changing event (not an address)"
  else
    log DEBUG "Received comment.changing event" ;;;
    event <- new address ea ;;;
    oldcmt <- get_cmt ea repeatable_cmt ;;;
    disable_hooks address_hooks ;;;
    try_finally
      (try_except (consumer_send event (P_comment ea repeatable_cmt (Some newcmt)))
         StopIteration
         (log FATAL "Abandoning comment due to unexpected termination of event handler"))
      (enable_hooks address_hooks).

Definition address_changed (ea : Z) (repeatable_cmt : bool) : M unit :=
  rdy <- is_ready ;;;
  if negb rdy then log DEBUG "Ignoring comment.changed event (database not ready)"
  else if is_identifier ea then log DEBUG "Ignoring comment.changed event (not an address)"
  else
    log DEBUG "Received comment.changed event" ;;;
    event <- resume address ea ;;;
    newcmt <- get_cmt ea repeatable_cmt ;;;
    disable_hooks address_hooks ;;;
    try_finally
      (try_except (consumer_send event (P_comment ea repeatable_cmt None))
         StopIteration
         (log FATAL "Abandoning update of comment due to unexpected termination of event handler"))
      (enable_hooks address_hooks) ;;;
    consumer_close event.

Definition address_old_changed (ea : Z) (repeatable_cmt : bool) : M unit :=
  rdy <- is_ready ;;;
  if negb rdy then log DEBUG "Ignoring comment.changed event (database not ready)"
  else if is_identifier ea then log DEBUG "Ignoring comment.changed event (not an address)"
  else
    log DEBUG "Received comment.changed event" ;;;
    cmt <- get_cmt ea repeatable_cmt ;;;
    call (SetAddress (namespace_at ea) ea 0) ;;;
    let res := decode_opt cmt in
    if bool_decide (res = ∅) then ret tt
    else
      address_create_refs ea res ;;;
      hook_disable "cmt_changed" ;;;
      try_finally
        (set_cmt ea (encode res) repeatable_cmt)
        (hook_enable "cmt_changed").

(** ** class globals: comments of a function *)

Definition globals_hooks : list string :=
  if version_lt_7_0 then ["changing_area_cmt"; "area_cmt_changed"]
  else ["changing_range_cmt"; "range_cmt_changed"].

(** Both handlers are given the range [a] of the comment; [start] is
    [interface.range.start(a)]. *)
Definition globals_changing (start : Z) (cmt : string) (repeatable : bool) : M unit :=
  rdy <- is_ready ;;;
  if negb rdy then log DEBUG "Ignoring comment.changing event (database not ready)"
  else if is_identifier start then log DEBUG "Ignoring comment.changing event (not an address)"
  else
    log DEBUG "Received comment.changing event" ;;;
    let fn := get_func start in
    if bool_decide (fn = None) && bool_decide (cmt = "") then ret tt
    else
      event <- new globals start ;;;
      oldcmt <- get_func_cmt fn repeatable ;;;
      disable_hooks globals_hooks ;;;
      try_finally
        (try_except
           (f <- range_start fn ;;;
            consumer_send event (P_comment f repeatable (Some cmt)))
           StopIteration
           (* the handler formats its message with a name that is not bound *)
           (raise NameError))
        (enable_hooks globals_hooks).

Definition globals_changed (start : Z) (cmt : string) (repeatable : bool) : M unit :=
  rdy <- is_ready ;;;
  if negb rdy then log DEBUG "Ignoring comment.changed event (database not ready)"
  else if is_identifier start then log DEBUG "Ignoring comment.changed event (not an address)"
  else
    log DEBUG "Received comment.changed event" ;;;
    let fn := get_func start in
    if bool_decide (fn = None) && bool_decide (cmt = "") then ret tt
    else
      event <- resume globals start ;;;
      newcmt <- get_func_cmt fn repeatable ;;;
      disable_hooks globals_hooks ;;;
      try_finally
        (try_except
           (f <- range_start fn ;;;
            consumer_send event (P_comment f repeatable None))
           StopIteration
           (raise NameError))
        (enable_hooks globals_hooks) ;;;
      consumer_close event.

Definition globals_old_changed (start : Z) (cmt : string) (repeatable : bool) : M unit :=
  rdy <- is_ready ;;;
  if negb rdy then log DEBUG "Ignoring comment.changed event (database not ready)"
  else if is_identifier start then log DEBUG "Ignoring comment.changed event (not an address)"
  else
    log DEBUG "Received comment.changed event" ;;;
    let ea := start in
    let fn := get_func ea in
    if bool_decide (fn = None) then ret tt
    else
      call (SetAddress Globals ea 0) ;;;
      let res := decode cmt in
      if bool_decide (res = ∅) then ret tt
      else
        globals_create_refs fn res ;;;
        hook_disable "area_cmt_changed" ;;;
        try_finally
          (set_func_cmt fn (encode res) repeatable)
          (hook_enable "area_cmt_changed").

(** ** class typeinfo: type information at an address *)

Definition typeinfo_hooks : list string := ["changing_ti"; "ti_changed"].

(** [interface.address.within], which raises for an address that is not
    within the boundaries of the database. *)
Definition within (ea : Z) : M Z :=
  if address_within ea then ret ea else raise OutOfBoundsError.

Definition typeinfo_changing (ea : Z) (new_type new_fname : option string) : M unit :=
  rdy <- is_ready ;;;
  if negb rdy then log DEBUG "Ignoring typeinfo.changing event (database not ready)"
  else if is_identifier ea then log DEBUG "Ignoring typeinfo.changing event (not an address)"
  else
    λ w, match within ea w with
         | Raise OutOfBoundsError w' =>
             log DEBUG "Ignoring typeinfo.changing event (not a valid address)" w'
         | Raise e w' => Raise e w'
         | Return ea w' =>
             (log DEBUG "Received typeinfo.changing" ;;;
              let '(old_type, old_fname) := default ("", "") (database_type ea) in
              event <- new typeinfo ea ;;;
              let original := (old_type, old_fname) in
              let new := (default "" new_type, default "" new_fname) in
              disable_hooks typeinfo_hooks ;;;
              try_finally
                (try_except (consumer_send event (P_changing_ti ea original new))
                   StopIteration
                   (log FATAL "Abandoning type information due to unexpected termination of event handler"))
                (enable_hooks typeinfo_hooks)) w'
         end.

Definition typeinfo_changed (ea : Z) (type fnames : option string) : M unit :=
  rdy <- is_ready ;;;
  if negb rdy then log DEBUG "Ignoring typeinfo.changed event (database not ready)"
  else if is_identifier ea then log DEBUG "Ignoring typeinfo.changed event (not an address)"
  else
    λ w, match within ea w with
         | Raise OutOfBoundsError w' =>
             log DEBUG "Ignoring typeinfo.changed event (not a valid address)" w'
         | Raise e w' => Raise e w'
         | Return ea w' =>
             (log DEBUG "Received typeinfo.changed event" ;;;
              event <- resume typeinfo ea ;;;
              let new := (default "" type, default "" fnames) in
              disable_hooks typeinfo_hooks ;;;
              try_finally
                (try_except (consumer_send event (P_ti_changed ea new))
                   StopIteration
                   (log FATAL "Abandoning update of type information due to unexpected termination of event handler"))
                (enable_hooks typeinfo_hooks) ;;;
              consumer_close event) w'
         end.

End correlators.

(** ** The state of the database *)

Section database.
Context {host : Idaapi}.

Definition get_State : M (option state) := λ w, Return (State w) w.
Definition put_State (s : state) : M unit := λ w, Return tt (set_State (Some s) w).
Definition get_ledger : M Ledger := λ w, Return (ledger w) w.

Definition on_init : M unit :=
  s <- get_State ;;;
  match s with
  | None => put_State init
  | Some _ => log DEBUG "on_init: Received unexpected state transition"
  end.

Definition on_newfile : M unit :=
  s <- get_State ;;;
  match s with
  | Some init => put_State loaded
  | _ => log DEBUG "on_newfile: Received unexpected state transition"
  end.

Definition on_oldfile : M unit :=
  s <- get_State ;;;
  match s with
  | Some init => put_State ready
  | _ => log DEBUG "on_oldfile: Received unexpected state transition"
  end.

(** The keys of [database.tag(ea)], in the order they are visited. *)
Definition tag_keys (ea : Z) : list string := elements (dom (database_tag ea)).

(** [__process_functions]: the addresses of the globals are collected once,
    those of the contents of a function before its chunks are walked. *)
Definition process_functions : M unit :=
  L0 <- get_ledger ;;;
  let globals := dom (netnode_alt L0) in
  let imports := import_names in
  for_each database_functions (λ fn,
    if bool_decide (fn ∈ imports) then ret tt
    else
      L <- get_ledger ;;;
      let contents := dom (blob_addresses (contents_read L fn)) in
      for_each (function_chunks fn) (λ '(l, r),
        for_each (address_iterate l (address_prev r)) (λ ea,
          for_each (tag_keys ea) (λ k,
            when (bool_decide (ea ∈ globals)) (call (Dec Globals ea k)) ;;;
            when (bool_decide (ea ∉ contents)) (call (Inc (Contents fn) ea k)))))) ;;;
  log INFO "Successfully built tag-cache".

Definition on_ready : M unit :=
  s <- get_State ;;;
  match s with
  | Some loaded => put_State ready ;;; process_functions
  | Some ready => log DEBUG "on_ready: Database is already ready"
  | _ => log DEBUG "on_ready: Received unexpected transition"
  end.

(** ** Function tails *)

Definition func_tail_appended (pfn : Z) (bounds : Z * Z) : M unit :=
  let referrers := chunk_owners (fst bounds) in
  if bool_decide (1 < length referrers)%nat then
    when (bool_decide (pfn ∉ referrers))
      (log WARNING "func_tail_appended: function was not found in the owners of chunk") ;;;
    for_each (bounds_iterate bounds) (λ ea,
      for_each (tag_keys ea) (λ k,
        call (Inc (Contents pfn) ea k) ;;;
        log DEBUG "func_tail_appended: Adding reference for tag"))
  else
    when (bool_decide (pfn ∉ referrers))
      (log WARNING "func_tail_appended: Demoting globals but function was not found in the owners of chunk") ;;;
    for_each (bounds_iterate bounds) (λ ea,
      for_each (tag_keys ea) (λ k,
        call (Dec Globals ea k) ;;;
        call (Inc (Contents pfn) ea k) ;;;
        log DEBUG "func_tail_appended: Exchanging reference count")).

Definition removing_func_tail (pfn : Z) (bounds : Z * Z) : M unit :=
  let referrers := chunk_owners (fst bounds) in
  if bool_decide (1 < length referrers)%nat then
    when (bool_decide (pfn ∉ referrers))
      (log WARNING "removing_func_tail: function was not found in the owners of chunk") ;;;
    for_each (bounds_iterate bounds) (λ ea,
      for_each (tag_keys ea) (λ k,
        call (Dec (Contents pfn) ea k) ;;;
        log DEBUG "removing_func_tail: Decreasing reference for tag"))
  else
    when (bool_decide (pfn ∉ referrers))
      (log WARNING "removing_func_tail: Promoting contents but function was not found in the owners of chunk") ;;;
    for_each (bounds_iterate bounds) (λ ea,
      for_each (tag_keys ea) (λ k,
        call (Dec (Contents pfn) ea k) ;;;
        call (Inc Globals ea k) ;;;
        log DEBUG "removing_func_tail: Exchanging reference count")).

End database.

(** * Reasoning about the handlers *)

(** ** Scripts: what a loop over tags does, as a list of steps *)

Inductive step :=
  | Say (l : level) (msg : string)
  | Do (o : op).

Definition run_step (s : step) : M unit :=
  match s with
  | Say l msg => log l msg
  | Do o => call o
  end.

Definition run_script (script : list step) : M unit := for_each script run_step.

Definition ops_of (script : list step) : list op :=
  flat_map (λ s, match s with Do o => [o] | Say _ _ => [] end) script.

Definition calls (tr : list event) : list op :=
  flat_map (λ e, match e with Call o => [o] | _ => [] end) tr.

Definition is_write (e : event) : bool :=
  match e with
  | SetCmt _ _ _ _ | SetFuncCmt _ _ _ _ => true
  | _ => false
  end.

(** Two worlds that differ in the ledger and in the trace only. *)
Definition same_frame (w w' : World) : Prop :=
  State w' = State w ∧ comments w' = comments w ∧ func_comments w' = func_comments w ∧
  disabled w' = disabled w ∧ heap w' = heap w ∧ states w' = states w.

Lemma same_frame_refl w : same_frame w w.
Proof. repeat split. Qed.

Lemma same_frame_trans w1 w2 w3 : same_frame w1 w2 → same_frame w2 w3 → same_frame w1 w3.
Proof.
  intros (a1 & a2 & a3 & a4 & a5 & a6) (b1 & b2 & b3 & b4 & b5 & b6).
  repeat split; congruence.
Qed.

Lemma calls_app t1 t2 : calls (t1 ++ t2) = calls t1 ++ calls t2.
Proof. unfold calls. apply flat_map_app. Qed.

Lemma ops_of_app s1 s2 : ops_of (s1 ++ s2) = ops_of s1 ++ ops_of s2.
Proof. unfold ops_of. apply flat_map_app. Qed.

Lemma apply_ops_app o1 o2 L : apply_ops (o1 ++ o2) L = apply_ops o2 (apply_ops o1 L).
Proof. unfold apply_ops. apply fold_left_app. Qed.

Lemma run_script_nil w : run_script [] w = Return tt w.
Proof. reflexivity. Qed.

Lemma run_script_cons s script w :
  run_script (s :: script) w = run_script script (world_of (run_step s w)).
Proof. destruct s; reflexivity. Qed.

(** A script always runs to its end; it touches the ledger and the trace. *)
Definition played (script : list step) (w : World) : World := world_of (run_script script w).

Lemma run_script_returns script w : run_script script w = Return tt (played script w).
Proof.
  unfold played. revert w. induction script as [|s script IH]; intros w; [reflexivity|].
  rewrite run_script_cons. apply IH.
Qed.

Lemma played_app s1 s2 w : played (s1 ++ s2) w = played s2 (played s1 w).
Proof.
  unfold played. revert w. induction s1 as [|s s1 IH]; intros w; [reflexivity|].
  simpl app. rewrite !run_script_cons. apply IH.
Qed.

Lemma run_script_app s1 s2 w :
  run_script (s1 ++ s2) w = (run_script s1 ;;; run_script s2) w.
Proof.
  unfold bind. rewrite (run_script_returns s1 w), !run_script_returns.
  f_equal. apply played_app.
Qed.

Definition quiet (added : list event) : Prop := Forall (λ e, is_write e = false) added.

Lemma run_step_spec s w :
  same_frame w (world_of (run_step s w)) ∧
  ledger (world_of (run_step s w)) = apply_ops (ops_of [s]) (ledger w) ∧
  ∃ added, trace (world_of (run_step s w)) = trace w ++ added ∧
           calls added = ops_of [s] ∧ quiet added.
Proof.
  destruct s as [l msg|o]; simpl.
  - split; [repeat split|]. split; [reflexivity|].
    exists [Log l msg]. repeat split. repeat constructor.
  - split; [destruct (underflows o (ledger w)); repeat split|].
    split; [destruct (underflows o (ledger w)); reflexivity|].
    destruct (underflows o (ledger w)); simpl.
    + exists [Call o; Log ERROR "reference count underflow"].
      rewrite <- app_assoc. repeat split. repeat constructor.
    + exists [Call o]. repeat split. repeat constructor.
Qed.

Lemma played_spec script w :
  same_frame w (played script w) ∧
  ledger (played script w) = apply_ops (ops_of script) (ledger w) ∧
  ∃ added, trace (played script w) = trace w ++ added ∧
           calls added = ops_of script ∧ quiet added.
Proof.
  revert w. induction script as [|s script IH]; intros w.
  - split; [apply same_frame_refl|]. split; [reflexivity|].
    exists []. rewrite app_nil_r. repeat split. constructor.
  - unfold played. rewrite run_script_cons. fold (played script (world_of (run_step s w))).
    destruct (run_step_spec s w) as (F1 & E1 & a1 & T1 & C1 & Q1).
    destruct (IH (world_of (run_step s w))) as (F2 & E2 & a2 & T2 & C2 & Q2).
    split; [eapply same_frame_trans; eassumption|].
    split.
    + rewrite E2, E1. change (s :: script) with ([s] ++ script).
      rewrite ops_of_app, apply_ops_app. reflexivity.
    + exists (a1 ++ a2). rewrite T2, T1, app_assoc. split; [reflexivity|].
      split; [|apply Forall_app; split; assumption].
      rewrite calls_app, C1, C2. change (s :: script) with ([s] ++ script).
      rewrite ops_of_app. reflexivity.
Qed.

(** A loop whose body plays a script plays the scripts one after the other. *)
Lemma for_each_script {A} (l : list A) (body : A → M unit) (f : A → list step) :
  (∀ x w, body x w = run_script (f x) w) →
  ∀ w, for_each l body w = run_script (flat_map f l) w.
Proof.
  intros Hbody. induction l as [|x l IH]; intros w; [reflexivity|].
  simpl flat_map. rewrite run_script_app. simpl for_each. unfold bind.
  rewrite Hbody. destruct (run_script (f x) w); [apply IH | reflexivity].
Qed.

Lemma bind_script {A} (s1 : list step) (c : M unit) (k : M A) w :
  (∀ w, c w = run_script s1 w) → (c ;;; k) w = k (played s1 w).
Proof. intros E. unfold bind. rewrite E, run_script_returns. reflexivity. Qed.

(** ** The correlation states

    A world is well formed when every registered state is a coroutine of
    that class and address that has not started discarding, and every
    coroutine that is not closed is the one registered for its address. *)

Definition registered (w : World) : Prop :=
  ∀ k i, states w !! k = Some i →
    ∃ c, heap w !! i = Some c ∧ (co_cls c, co_ea c) = k ∧ co_state c ≠ C_drain.

Definition one_pending (w : World) : Prop :=
  ∀ i c, heap w !! i = Some c → co_state c ≠ C_closed →
    states w !! (co_cls c, co_ea c) = Some i.

Definition wf (w : World) : Prop := registered w ∧ one_pending w.

(** What an action leaves alone when it only logs and moves coroutines. *)
Definition same_data (w w' : World) : Prop :=
  State w' = State w ∧ ledger w' = ledger w ∧ comments w' = comments w ∧
  func_comments w' = func_comments w ∧ disabled w' = disabled w ∧
  ∃ added, trace w' = trace w ++ added ∧ calls added = [] ∧ quiet added.

Lemma wf_unique w i j ci cj :
  one_pending w →
  heap w !! i = Some ci → heap w !! j = Some cj →
  co_state ci ≠ C_closed → co_state cj ≠ C_closed →
  (co_cls ci, co_ea ci) = (co_cls cj, co_ea cj) → i = j.
Proof.
  intros O Hi Hj Li Lj E.
  pose proof (O i ci Hi Li) as Si. pose proof (O j cj Hj Lj) as Sj.
  rewrite E in Si. congruence.
Qed.

Lemma updater_close_spec h w :
  ∃ added, updater_close h w = Return tt (MkWorld (State w) (ledger w) (comments w)
             (func_comments w) (disabled w) (heap w) (states w) (trace w ++ added)) ∧
           calls added = [] ∧ quiet added.
Proof.
  destruct h; simpl;
    first [ exists []; rewrite app_nil_r; destruct w; repeat split; constructor
          | eexists [_]; repeat split; repeat constructor ].
Qed.

Lemma new_spec cls ea w :
  wf w →
  ∃ w', new cls ea w = Return (length (heap w)) w' ∧
        same_data w w' ∧
        states w' = <[(cls, ea) := length (heap w)]> (states w) ∧
        heap w' = match states w !! (cls, ea) with
                  | Some stale => <[stale := Coroutine cls ea C_closed]> (heap w)
                  | None => heap w
                  end ++ [Coroutine cls ea (C_feed U_first)].
Proof.
  intros [R O]. unfold new, bind.
  destruct (states w !! (cls, ea)) as [stale|] eqn:S.
  - destruct (R _ _ S) as (c & Hc & Hk & Hd). injection Hk as Hcls Hea.
    unfold log at 1. unfold consumer_close, bind, heap_get. simpl.
    rewrite Hc. destruct c as [ccls cea cst]. simpl in *. subst ccls cea.
    destruct cst as [h| |]; [|congruence|].
    + destruct (updater_close_spec h
        (emit (Log INFO "Forcefully closing the state for address by request")
          (set_states (delete (cls, ea) (states w)) w))) as (added & E & C & Q).
      rewrite E. unfold heap_set. simpl. rewrite Hc. simpl.
      unfold heap_alloc, states_setdefault. simpl.
      rewrite lookup_delete_eq. eexists. split.
      { rewrite length_insert. reflexivity. }
      split.
      { repeat split; simpl.
        eexists (_ :: added). rewrite <- app_assoc. split; [reflexivity|].
        split; [exact C | constructor; [reflexivity | exact Q]]. }
      simpl. split; [|reflexivity].
      rewrite insert_delete_eq. reflexivity.
    + unfold ret, heap_alloc, states_setdefault. simpl.
      rewrite lookup_delete_eq. eexists. split; [reflexivity|].
      split.
      { repeat split; simpl. eexists [_]. repeat split. repeat constructor. }
      simpl. rewrite insert_delete_eq. split; [reflexivity|].
      f_equal. symmetry. apply list_insert_id. exact Hc.
  - unfold heap_alloc, states_setdefault. simpl. rewrite S.
    eexists. split; [reflexivity|]. split.
    { repeat split; simpl. exists []. rewrite app_nil_r. repeat split. constructor. }
    split; reflexivity.
Qed.

(** Registering a coroutine for an address, the stale one being closed. *)
Lemma wf_install cls ea st w w' :
  wf w → st ≠ C_drain →
  states w' = <[(cls, ea) := length (heap w)]> (states w) →
  heap w' = match states w !! (cls, ea) with
            | Some stale => <[stale := Coroutine cls ea C_closed]> (heap w)
            | None => heap w
            end ++ [Coroutine cls ea st] →
  wf w'.
Proof.
  intros [R O] Hst S1 H1.
  set (base := match states w !! (cls, ea) with
               | Some stale => <[stale := Coroutine cls ea C_closed]> (heap w)
               | None => heap w
               end) in *.
  assert (Lb : length base = length (heap w)).
  { unfold base. destruct (states w !! (cls, ea)); [apply length_insert | reflexivity]. }
  assert (Hfresh : heap w' !! length (heap w) = Some (Coroutine cls ea st)).
  { rewrite H1, lookup_app_r by lia. rewrite Lb, Nat.sub_diag. reflexivity. }
  assert (Hold : ∀ i c, heap w !! i = Some c → (co_cls c, co_ea c) ≠ (cls, ea) →
                        heap w' !! i = Some c).
  { intros i c Hi Hk. rewrite H1, lookup_app_l by (rewrite Lb; eapply lookup_lt_Some; eassumption).
    unfold base. destruct (states w !! (cls, ea)) as [stale|] eqn:S; [|exact Hi].
    rewrite list_lookup_insert_ne; [exact Hi|].
    intros ->. destruct (R _ _ S) as (c' & Hc' & Hk' & _). congruence. }
  split.
  - intros k i Hs. rewrite S1 in Hs.
    destruct (decide (k = (cls, ea))) as [->|Hne].
    + rewrite lookup_insert_eq in Hs. injection Hs as <-.
      eexists. split; [exact Hfresh|]. split; [reflexivity | exact Hst].
    + rewrite lookup_insert_ne in Hs by congruence.
      destruct (R _ _ Hs) as (c & Hc & Hk & Hd).
      exists c. split; [|split; assumption]. apply Hold; [exact Hc | congruence].
  - intros i c Hi Hl. rewrite S1.
    destruct (decide (i < length (heap w))%nat) as [Hlt|Hge].
    + rewrite H1, lookup_app_l in Hi by lia.
      assert (Hi' : heap w !! i = Some c ∧ (co_cls c, co_ea c) ≠ (cls, ea)).
      { unfold base in Hi. destruct (states w !! (cls, ea)) as [stale|] eqn:S.
        - destruct (decide (i = stale)) as [->|Hne].
          + rewrite list_lookup_insert_eq in Hi by lia. injection Hi as <-.
            simpl in Hl. congruence.
          + rewrite list_lookup_insert_ne in Hi by congruence.
            split; [exact Hi|]. intros Hk. pose proof (O _ _ Hi Hl) as Hs.
            rewrite Hk in Hs. congruence.
        - split; [exact Hi|]. intros Hk. pose proof (O _ _ Hi Hl) as Hs.
          rewrite Hk in Hs. congruence. }
      destruct Hi' as [Hi' Hk]. rewrite lookup_insert_ne by congruence.
      apply O; assumption.
    + assert (i = length (heap w)) as ->.
      { apply lookup_lt_Some in Hi. rewrite H1, length_app, Lb in Hi. simpl in Hi. lia. }
      rewrite Hfresh in Hi. injection Hi as <-. simpl. apply lookup_insert_eq.
Qed.

Lemma wf_new cls ea w w' id :
  wf w → new cls ea w = Return id w' → wf w'.
Proof.
  intros W E. destruct (new_spec cls ea w W) as (w1 & E1 & _ & S1 & H1).
  rewrite E in E1. injection E1 as -> ->.
  eapply wf_install; [exact W | | exact S1 | exact H1]. discriminate.
Qed.

(** ** The reference updates of class address *)

Section address_refs.
Context {host : Idaapi} {codec : Codec}.

Definition update_refs_script (ns : namespace) (ea : Z) (old new : gmap string string)
  : list step :=
  Say DEBUG "update_refs: Updating old keys to new keys" ::
  flat_map (λ key,
      (if missing key new
       then [Say DEBUG "update_refs: Decreasing reference count"; Do (Dec ns ea key)]
       else []) ++
      (if missing key old
       then [Say DEBUG "update_refs: Increasing reference count"; Do (Inc ns ea key)]
       else []))
    (elements (symmetric_difference (dom old) (dom new))).

Definition create_refs_script (ns : namespace) (ea : Z) (content : gmap string string)
  : list step :=
  Say DEBUG "create_refs: Creating keys" ::
  flat_map (λ key, [Say DEBUG "create_refs: Increasing reference count"; Do (Inc ns ea key)])
    (elements (dom content)).

Definition delete_refs_script (ns : namespace) (ea : Z) (content : gmap string string)
  : list step :=
  Say DEBUG "delete_refs: Deleting keys" ::
  flat_map (λ key, [Say DEBUG "delete_refs: Decreasing reference count"; Do (Dec ns ea key)])
    (elements (dom content)).

Lemma address_update_refs_script ea old new w :
  address_update_refs ea old new w =
  run_script (update_refs_script (namespace_at ea) ea old new) w.
Proof.
  unfold address_update_refs, update_refs_script.
  rewrite run_script_cons. simpl run_step. unfold bind at 1, log at 1. simpl world_of.
  apply for_each_script. intros key w'.
  rewrite run_script_app. unfold bind, when.
  destruct (missing key new), (missing key old); reflexivity.
Qed.

Lemma address_create_refs_script ea content w :
  address_create_refs ea content w =
  run_script (create_refs_script (namespace_at ea) ea content) w.
Proof.
  unfold address_create_refs, create_refs_script.
  rewrite run_script_cons. simpl run_step. unfold bind at 1, log at 1. simpl world_of.
  apply for_each_script. intros key w'. reflexivity.
Qed.

Lemma address_delete_refs_script ea content w :
  address_delete_refs ea content w =
  run_script (delete_refs_script (namespace_at ea) ea content) w.
Proof.
  unfold address_delete_refs, delete_refs_script.
  rewrite run_script_cons. simpl run_step. unfold bind at 1, log at 1. simpl world_of.
  apply for_each_script. intros key w'. reflexivity.
Qed.

Lemma missing_spec key (content : gmap string string) :
  missing key content = true ↔ key ∉ dom content.
Proof.
  unfold missing. rewrite bool_decide_eq_true, not_elem_of_dom. reflexivity.
Qed.

Lemma elem_of_symmetric_difference key (a b : gset string) :
  key ∈ symmetric_difference a b ↔ (key ∈ a ∧ key ∉ b) ∨ (key ∈ b ∧ key ∉ a).
Proof. unfold symmetric_difference. set_solver. Qed.

(** The calls of [_update_refs]: a decrement for each key that only the old
    comment has, an increment for each key that only the new one has, and
    nothing else. *)
Lemma update_refs_calls ns ea old new o :
  o ∈ ops_of (update_refs_script ns ea old new) ↔
  ∃ key, (o = Dec ns ea key ∧ key ∈ dom old ∧ key ∉ dom new) ∨
         (o = Inc ns ea key ∧ key ∈ dom new ∧ key ∉ dom old).
Proof.
  unfold update_refs_script, ops_of. simpl flat_map.
  rewrite list_elem_of_In, in_flat_map. split.
  - intros (s & Hs & Ho). apply in_flat_map in Hs as (key & Hkey & Hs).
    apply list_elem_of_In, elem_of_elements, elem_of_symmetric_difference in Hkey.
    exists key. apply in_app_or in Hs as [Hs|Hs].
    + destruct (missing key new) eqn:M; [|destruct Hs].
      apply missing_spec in M.
      destruct Hs as [<-|[<-|[]]]; simpl in Ho; [destruct Ho|].
      destruct Ho as [<-|[]]. left. split; [reflexivity|]. tauto.
    + destruct (missing key old) eqn:M; [|destruct Hs].
      apply missing_spec in M.
      destruct Hs as [<-|[<-|[]]]; simpl in Ho; [destruct Ho|].
      destruct Ho as [<-|[]]. right. split; [reflexivity|]. tauto.
  - intros (key & [(-> & Ho & Hn)|(-> & Hn & Ho)]).
    + exists (Do (Dec ns ea key)). split; [|left; reflexivity].
      apply in_flat_map. exists key. split.
      * apply list_elem_of_In, elem_of_elements, elem_of_symmetric_difference. tauto.
      * apply in_or_app. left. apply missing_spec in Hn. rewrite Hn. right. left. reflexivity.
    + exists (Do (Inc ns ea key)). split; [|left; reflexivity].
      apply in_flat_map. exists key. split.
      * apply list_elem_of_In, elem_of_elements, elem_of_symmetric_difference. tauto.
      * apply in_or_app. right. apply missing_spec in Ho. rewrite Ho. right. left. reflexivity.
Qed.

Lemma create_refs_calls ns ea content :
  ops_of (create_refs_script ns ea content) = Inc ns ea <$> elements (dom content).
Proof.
  unfold create_refs_script, ops_of. simpl flat_map.
  induction (elements (dom content)) as [|key l IH]; [reflexivity|].
  simpl. f_equal. exact IH.
Qed.

Lemma delete_refs_calls ns ea content :
  ops_of (delete_refs_script ns ea content) = Dec ns ea <$> elements (dom content).
Proof.
  unfold delete_refs_script, ops_of. simpl flat_map.
  induction (elements (dom content)) as [|key l IH]; [reflexivity|].
  simpl. f_equal. exact IH.
Qed.

End address_refs.

(** ** Projections of a played script *)

Lemma played_State s w : State (played s w) = State w.
Proof. apply (played_spec s w). Qed.
Lemma played_comments s w : comments (played s w) = comments w.
Proof. apply (played_spec s w). Qed.
Lemma played_func_comments s w : func_comments (played s w) = func_comments w.
Proof. apply (played_spec s w). Qed.
Lemma played_disabled s w : disabled (played s w) = disabled w.
Proof. apply (played_spec s w). Qed.
Lemma played_heap s w : heap (played s w) = heap w.
Proof. apply (played_spec s w). Qed.
Lemma played_states s w : states (played s w) = states w.
Proof. apply (played_spec s w). Qed.
Lemma played_ledger s w : ledger (played s w) = apply_ops (ops_of s) (ledger w).
Proof. apply (played_spec s w). Qed.
Lemma played_trace s w :
  ∃ added, trace (played s w) = trace w ++ added ∧ calls added = ops_of s ∧ quiet added.
Proof. apply (played_spec s w). Qed.

Section address_changing_facts.
Context {host : Idaapi} {codec : Codec}.

(** The first send to a fresh coroutine of class address: the updater reads
    the old comment, updates the references and waits at its second yield. *)
Lemma consumer_send_changing id ea0 ea rpt new w :
  heap w !! id = Some (Coroutine address ea0 (C_feed U_first)) →
  let old := comments w !! (ea, rpt) in
  let o := decode_opt old in
  let n := decode new in
  consumer_send id (P_comment ea rpt (Some new)) w =
  Return tt (set_heap (<[id := Coroutine address ea0 (C_feed (U_address ea rpt new old o n))]>
                         (heap w))
               (played (update_refs_script (namespace_at ea) ea o n) w)).
Proof.
  intros Hid old o n. unfold consumer_send, bind, heap_get. rewrite Hid. simpl.
  unfold bind, get_cmt. rewrite address_update_refs_script, run_script_returns.
  unfold ret, heap_set. rewrite played_heap, Hid. reflexivity.
Qed.

Definition hooks_off (names : list string) (d : gset string) : gset string :=
  fold_left (λ acc name, {[name]} ∪ acc) names d.
Definition hooks_on (names : list string) (d : gset string) : gset string :=
  fold_left (λ acc name, acc ∖ {[name]}) names d.

Lemma disable_hooks_spec names w :
  disable_hooks names w = Return tt (set_disabled (hooks_off names (disabled w)) w).
Proof.
  unfold disable_hooks, hooks_off. revert w.
  induction names as [|name names IH]; intros w; [destruct w; reflexivity|].
  simpl. unfold bind, hook_disable. rewrite IH. reflexivity.
Qed.

Lemma enable_hooks_spec names w :
  enable_hooks names w = Return tt (set_disabled (hooks_on names (disabled w)) w).
Proof.
  unfold enable_hooks, hooks_on. revert w.
  induction names as [|name names IH]; intros w; [destruct w; reflexivity|].
  simpl. unfold bind, hook_enable. rewrite IH. reflexivity.
Qed.

Lemma elem_of_hooks_off names d x : x ∈ hooks_off names d ↔ x ∈ names ∨ x ∈ d.
Proof.
  unfold hooks_off. revert d. induction names as [|n names IH]; intros d; simpl.
  - rewrite elem_of_nil. tauto.
  - rewrite IH, elem_of_union, elem_of_singleton, elem_of_cons. tauto.
Qed.

Lemma elem_of_hooks_on names d x : x ∈ hooks_on names d ↔ (x ∉ names) ∧ x ∈ d.
Proof.
  unfold hooks_on. revert d. induction names as [|n names IH]; intros d; simpl.
  - rewrite elem_of_nil. tauto.
  - rewrite IH, elem_of_difference, elem_of_singleton, elem_of_cons. tauto.
Qed.

Lemma hooks_on_off names d :
  (∀ x, x ∈ names → x ∉ d) → hooks_on names (hooks_off names d) = d.
Proof.
  intros Hd. apply set_eq. intros x.
  rewrite elem_of_hooks_on, elem_of_hooks_off. split; [tauto|].
  intros Hx. split; [|tauto]. intros Hn. exact (Hd x Hn Hx).
Qed.

End address_changing_facts.

(** ** Tidy computations

    A computation is tidy for a property of events when it leaves the set
    of disabled hooks as it found it, and every event it adds to the trace
    has the property, for the set of hooks that are disabled. *)

Definition extends (P : gset string → event → Prop) (d : gset string) (w w' : World) : Prop :=
  ∃ added, trace w' = trace w ++ added ∧ Forall (P d) added.

Definition tidy (P : gset string → event → Prop) {A} (c : M A) : Prop :=
  ∀ w, disabled (world_of (c w)) = disabled w ∧ extends P (disabled w) w (world_of (c w)).

Definition handle {A B} (c : M A) (k : A → M B) (h : exn → M B) : M B :=
  λ w, match c w with Return a w' => k a w' | Raise e w' => h e w' end.

Section tidy.
Context {host : Idaapi} {codec : Codec}.
Variable P : gset string → event → Prop.
Hypothesis P_quiet : ∀ d e, is_write e = false → P d e.

Lemma extends_refl d w : extends P d w w.
Proof. exists []. rewrite app_nil_r. split; [reflexivity | constructor]. Qed.

Lemma extends_trans d w1 w2 w3 : extends P d w1 w2 → extends P d w2 w3 → extends P d w1 w3.
Proof.
  intros (a1 & T1 & F1) (a2 & T2 & F2). exists (a1 ++ a2).
  rewrite T2, T1, app_assoc. split; [reflexivity | apply Forall_app; split; assumption].
Qed.

Lemma tidy_ext {A} (c c' : M A) : (∀ w, c w = c' w) → tidy P c' → tidy P c.
Proof. intros E S w. rewrite E. apply S. Qed.

Lemma tidy_pure {A} (c : M A) :
  (∀ w, disabled (world_of (c w)) = disabled w ∧ trace (world_of (c w)) = trace w) → tidy P c.
Proof.
  intros Hc w. destruct (Hc w) as [D T]. split; [exact D|].
  exists []. rewrite app_nil_r. split; [exact T | constructor].
Qed.

Lemma tidy_ret {A} (a : A) : tidy P (ret a).
Proof. apply tidy_pure. intros w. split; reflexivity. Qed.

Lemma tidy_raise {A} e : tidy P (@raise A e).
Proof. apply tidy_pure. intros w. split; reflexivity. Qed.

Lemma tidy_handle {A B} (c : M A) (k : A → M B) (h : exn → M B) :
  tidy P c → (∀ a, tidy P (k a)) → (∀ e, tidy P (h e)) → tidy P (handle c k h).
Proof.
  intros Hc Hk Hh w. unfold handle. destruct (Hc w) as [D1 X1].
  destruct (c w) as [a w'|e w']; simpl in D1, X1.
  - destruct (Hk a w') as [D2 X2]. rewrite D1 in D2, X2.
    split; [exact D2 | eapply extends_trans; eassumption].
  - destruct (Hh e w') as [D2 X2]. rewrite D1 in D2, X2.
    split; [exact D2 | eapply extends_trans; eassumption].
Qed.

Lemma tidy_bind {A B} (c : M A) (k : A → M B) :
  tidy P c → (∀ a, tidy P (k a)) → tidy P (bind c k).
Proof.
  intros Hc Hk. apply (tidy_ext _ (handle c k raise)); [reflexivity|].
  apply tidy_handle; [exact Hc | exact Hk | intros e; apply tidy_raise].
Qed.

Lemma tidy_try_except {A} (c : M A) which (h : M A) :
  tidy P c → tidy P h → tidy P (try_except c which h).
Proof.
  intros Hc Hh.
  apply (tidy_ext _ (handle c ret (λ e, if decide (e = which) then h else raise e))).
  { intros w. unfold try_except, handle.
    destruct (c w) as [a w'|e w']; [reflexivity|]. destruct (decide (e = which)); reflexivity. }
  apply tidy_handle; [exact Hc | |].
  - intros a. apply tidy_ret.
  - intros e. destruct (decide (e = which)); [exact Hh | apply tidy_raise].
Qed.

Lemma tidy_try_finally {A} (c : M A) (fin : M unit) :
  tidy P c → tidy P fin → tidy P (try_finally c fin).
Proof.
  intros Hc Hf w. unfold try_finally. destruct (Hc w) as [D1 X1].
  destruct (c w) as [a w'|e w']; simpl in D1, X1;
    destruct (Hf w') as [D2 X2]; rewrite D1 in D2, X2;
    destruct (fin w') as [u w''|e' w'']; simpl in *;
    (split; [exact D2 | eapply extends_trans; eassumption]).
Qed.

Lemma tidy_when b (c : M unit) : tidy P c → tidy P (when b c).
Proof. intros Hc. destruct b; [exact Hc | apply tidy_ret]. Qed.

Lemma tidy_for_each {A} (l : list A) (body : A → M unit) :
  (∀ x, tidy P (body x)) → tidy P (for_each l body).
Proof.
  intros Hb. induction l as [|x l IH]; simpl; [apply tidy_ret|].
  apply tidy_bind; [apply Hb | intros _; exact IH].
Qed.

Lemma tidy_script s : tidy P (run_script s).
Proof.
  intros w. rewrite run_script_returns. simpl. split; [apply played_disabled|].
  destruct (played_trace s w) as (added & T & _ & Q). exists added. split; [exact T|].
  eapply Forall_impl; [exact Q|]. intros e He. apply P_quiet. exact He.
Qed.

Lemma tidy_log l msg : tidy P (log l msg).
Proof. apply (tidy_ext _ (run_script [Say l msg])); [reflexivity | apply tidy_script]. Qed.

Lemma tidy_call o : tidy P (call o).
Proof. apply (tidy_ext _ (run_script [Do o])); [reflexivity | apply tidy_script]. Qed.

Lemma tidy_get_cmt ea rpt : tidy P (get_cmt ea rpt).
Proof. apply tidy_pure. intros w. split; reflexivity. Qed.

Lemma tidy_get_func_cmt fn rpt : tidy P (get_func_cmt fn rpt).
Proof. apply tidy_pure. intros w. split; reflexivity. Qed.

Lemma tidy_range_start fn : tidy P (range_start fn).
Proof. destruct fn; [apply tidy_ret | apply tidy_raise]. Qed.

Lemma tidy_is_ready : tidy P is_ready.
Proof. apply tidy_pure. intros w. split; reflexivity. Qed.

Lemma tidy_heap_get id : tidy P (heap_get id).
Proof. apply tidy_pure. intros w. unfold heap_get. destruct (heap w !! id); split; reflexivity. Qed.

Lemma tidy_heap_set id c : tidy P (heap_set id c).
Proof. apply tidy_pure. intros w. unfold heap_set. destruct (heap w !! id); split; reflexivity. Qed.

Lemma tidy_heap_alloc c : tidy P (heap_alloc c).
Proof. apply tidy_pure. intros w. split; reflexivity. Qed.

Lemma tidy_states_pop cls ea : tidy P (states_pop cls ea).
Proof.
  apply tidy_pure. intros w. unfold states_pop.
  destruct (states w !! (cls, ea)); split; reflexivity.
Qed.

Lemma tidy_states_setdefault cls ea id : tidy P (states_setdefault cls ea id).
Proof.
  apply tidy_pure. intros w. unfold states_setdefault.
  destruct (states w !! (cls, ea)); split; reflexivity.
Qed.

Lemma tidy_resume cls ea : tidy P (resume cls ea).
Proof.
  apply tidy_pure. intros w. unfold resume.
  destruct (states w !! (cls, ea)); split; reflexivity.
Qed.

Lemma tidy_updater_close h : tidy P (updater_close h).
Proof. destruct h; simpl; first [apply tidy_log | apply tidy_ret]. Qed.

Lemma tidy_consumer_close id : tidy P (consumer_close id).
Proof.
  unfold consumer_close. apply tidy_bind; [apply tidy_heap_get|]. intros co.
  destruct (co_state co).
  - apply tidy_bind; [apply tidy_updater_close | intros _; apply tidy_heap_set].
  - apply tidy_bind; [apply tidy_heap_set|]. intros _.
    apply tidy_bind; [apply tidy_states_pop | intros _; apply tidy_ret].
  - apply tidy_ret.
Qed.

Lemma tidy_new cls ea : tidy P (new cls ea).
Proof.
  unfold new. apply tidy_bind.
  - intros w. destruct (states w !! (cls, ea)) as [res|].
    + exact (tidy_bind (log INFO "Forcefully closing the state for address by request")
               (λ _, consumer_close res) (tidy_log _ _)
               (λ _, tidy_consumer_close res)
               (set_states (delete (cls, ea) (states w)) w)).
    + simpl. split; [reflexivity | apply extends_refl].
  - intros _. apply tidy_bind; [apply tidy_heap_alloc|].
    intros id. apply tidy_states_setdefault.
Qed.

End tidy.

(** Steady: every comment is written with the hooks that are disabled when
    the computation starts.  Silent: no comment is written. *)

Definition writes_under (d : gset string) (e : event) : Prop :=
  match e with
  | SetCmt _ _ _ off | SetFuncCmt _ _ _ off => off = d
  | _ => True
  end.

Definition no_write (d : gset string) (e : event) : Prop := is_write e = false.

Abbreviation steady := (tidy writes_under).
Abbreviation silent := (tidy no_write).

Lemma writes_under_quiet d e : is_write e = false → writes_under d e.
Proof. destruct e; try discriminate; intros _; exact I. Qed.

Lemma no_write_quiet d e : is_write e = false → no_write d e.
Proof. intros E. exact E. Qed.

Section steady_updaters.
Context {host : Idaapi} {codec : Codec}.

Lemma steady_set_cmt ea text rpt : steady (set_cmt ea text rpt).
Proof.
  intros w. unfold set_cmt. destruct (set_cmt_raises ea rpt); simpl;
    (split; [reflexivity|]; exists [SetCmt ea text rpt (disabled w)];
     split; [reflexivity | repeat constructor]).
Qed.

Lemma steady_set_func_cmt fn text rpt : steady (set_func_cmt fn text rpt).
Proof.
  intros w. unfold set_func_cmt. destruct fn as [f|]; [destruct (set_cmt_raises f rpt)|]; simpl;
    (split; [reflexivity|]; eexists [_]; split; [reflexivity | repeat constructor]).
Qed.

Ltac steady_step :=
  first
    [ apply tidy_ret | apply tidy_raise
    | apply (tidy_log _ writes_under_quiet) | apply (tidy_call _ writes_under_quiet)
    | apply tidy_get_cmt | apply steady_set_cmt | apply tidy_get_func_cmt
    | apply steady_set_func_cmt | apply tidy_range_start
    | apply tidy_when | apply tidy_for_each; intros ?
    | apply tidy_bind; [|intros ?]
    | match goal with
      | |- tidy _ (if ?b then _ else _) => destruct b
      | |- tidy _ (let '(_, _) := ?p in _) => destruct p
      end ].

Lemma steady_address_updater h p : steady (address_updater h p).
Proof.
  destruct h, p as [ea' rpt' [new'|]| |]; simpl; repeat steady_step.
  all: unfold address_update_refs, address_create_refs, address_delete_refs;
    repeat steady_step.
Qed.

Lemma steady_globals_updater h p : steady (globals_updater h p).
Proof.
  destruct h, p as [ea' rpt' [new'|]| |]; simpl; repeat steady_step.
  all: unfold globals_update_refs, globals_create_refs, globals_delete_refs;
    repeat steady_step.
Qed.

Lemma steady_typeinfo_updater h p : steady (typeinfo_updater h p).
Proof.
  destruct h, p as [ea' rpt' [new'|]| |]; simpl; repeat steady_step.
Qed.

Lemma steady_consumer_send id p : steady (consumer_send id p).
Proof.
  unfold consumer_send. apply tidy_bind; [apply tidy_heap_get|]. intros co.
  destruct (co_state co) as [h| |]; [|apply tidy_ret | apply tidy_raise].
  apply (tidy_ext _ _ (handle (updater_send (co_cls co) h p)
           (λ s, match s with Yielded h' => heap_set id (C_feed h') | Returned => heap_set id C_drain end)
           (λ e, heap_set id C_closed ;;; raise e))).
  { intros w. unfold handle. destruct (updater_send (co_cls co) h p w) as [[h'|] w'|e w']; reflexivity. }
  apply tidy_handle.
  - destruct (co_cls co); simpl;
      [apply steady_address_updater | apply steady_globals_updater | apply steady_typeinfo_updater].
  - intros [h'|]; apply tidy_heap_set.
  - intros e. apply tidy_bind; [apply tidy_heap_set | intros _; apply tidy_raise].
Qed.

End steady_updaters.

(** ** The bracket around the writes of a handler *)

(** A write is guarded when it is made with all the named hooks disabled. *)
Definition guarded (names : list string) (d : gset string) (e : event) : Prop :=
  match e with
  | SetCmt _ _ _ off | SetFuncCmt _ _ _ off => ∀ x, x ∈ names → x ∈ off
  | _ => True
  end.

(** The outcome [r] of a handler started in [w]: the hooks are as they were
    on entry and the writes that were added to the trace are guarded. *)
Definition bracketed (names : list string) (w : World) (r : Result unit) : Prop :=
  disabled (world_of r) = disabled w ∧ extends (guarded names) (disabled w) w (world_of r).

Lemma guarded_quiet names d e : is_write e = false → guarded names d e.
Proof. destruct e; try discriminate; intros _; exact I. Qed.

Lemma extends_impl (P Q : gset string → event → Prop) d d' w w' :
  (∀ e, P d e → Q d' e) → extends P d w w' → extends Q d' w w'.
Proof.
  intros PQ (added & T & F). exists added. split; [exact T|].
  eapply Forall_impl; [exact F | exact PQ].
Qed.

Lemma bracket_spec names (dis en body : M unit) w :
  (∀ w, dis w = Return tt (set_disabled (hooks_off names (disabled w)) w)) →
  (∀ w, en w = Return tt (set_disabled (hooks_on names (disabled w)) w)) →
  steady body →
  (∀ x, x ∈ names → x ∉ disabled w) →
  bracketed names w ((dis ;;; try_finally body en) w).
Proof.
  intros Hdis Hen Hbody Hfree. unfold bind, try_finally. rewrite Hdis.
  set (w1 := set_disabled (hooks_off names (disabled w)) w).
  destruct (Hbody w1) as [D X]. simpl disabled in D, X.
  assert (G : extends (guarded names) (disabled w) w (world_of (body w1))).
  { destruct X as (added & T & F). exists added. split; [exact T|].
    eapply Forall_impl; [exact F|]. intros e He. destruct e; try exact I; simpl in *;
      subst off; intros x Hx; apply elem_of_hooks_off; left; exact Hx. }
  destruct (body w1) as [a w2|e w2]; simpl in D, G; rewrite Hen; simpl;
    (split; [rewrite D; apply hooks_on_off; exact Hfree | exact G]).
Qed.

Lemma bracketed_bind_silent {A} names (c : M A) (k : A → M unit) w :
  silent c →
  (∀ a w', disabled w' = disabled w → bracketed names w' (k a w')) →
  bracketed names w (bind c k w).
Proof.
  intros Hc Hk. unfold bind. destruct (Hc w) as [D X].
  apply (extends_impl _ (guarded names) _ (disabled w)) in X;
    [|intros e He; apply guarded_quiet; exact He].
  destruct (c w) as [a w'|e w']; simpl in D, X.
  - destruct (Hk a w' D) as [D2 X2]. rewrite D in D2, X2.
    split; [exact D2 | eapply extends_trans; eassumption].
  - split; assumption.
Qed.

Lemma bind_assoc {A B C} (c : M A) (k : A → M B) (k' : B → M C) w :
  bind (bind c k) k' w = bind c (λ a, bind (k a) k') w.
Proof. unfold bind. destruct (c w); reflexivity. Qed.

Lemma bracketed_then_silent names (c k : M unit) w :
  bracketed names w (c w) → silent k → bracketed names w ((c ;;; k) w).
Proof.
  intros [D X] Hk. unfold bind. destruct (c w) as [u w'|e w']; simpl in D, X.
  - destruct (Hk w') as [D2 X2]. rewrite D in D2, X2. split; [exact D2|].
    eapply extends_trans; [exact X|].
    eapply extends_impl; [|exact X2]. intros e He. apply guarded_quiet. exact He.
  - split; assumption.
Qed.

Lemma bracketed_silent names (c : M unit) w : silent c → bracketed names w (c w).
Proof.
  intros Hc. destruct (Hc w) as [D X]. split; [exact D|].
  eapply extends_impl; [|exact X]. intros e He. apply guarded_quiet. exact He.
Qed.

Section brackets.
Context {host : Idaapi} {codec : Codec}.

Lemma hook_disable_spec name w :
  hook_disable name w = Return tt (set_disabled (hooks_off [name] (disabled w)) w).
Proof. reflexivity. Qed.

Lemma hook_enable_spec name w :
  hook_enable name w = Return tt (set_disabled (hooks_on [name] (disabled w)) w).
Proof. reflexivity. Qed.

Lemma address_changing_bracketed ea rpt newcmt w :
  (∀ x, x ∈ address_hooks → x ∉ disabled w) →
  bracketed address_hooks w (address_changing ea rpt newcmt w).
Proof.
  intros Hfree. unfold address_changing.
  apply bracketed_bind_silent; [apply tidy_is_ready|]. intros rdy w1 D1.
  destruct (negb rdy); [apply bracketed_silent, tidy_log, no_write_quiet|].
  destruct (is_identifier ea); [apply bracketed_silent, tidy_log, no_write_quiet|].
  apply bracketed_bind_silent; [apply tidy_log, no_write_quiet|]. intros _ w2 D2.
  apply bracketed_bind_silent; [apply tidy_new, no_write_quiet|]. intros event w3 D3.
  apply bracketed_bind_silent; [apply tidy_get_cmt|]. intros oldcmt w4 D4.
  apply bracket_spec.
  - apply disable_hooks_spec.
  - apply enable_hooks_spec.
  - apply tidy_try_except; [apply steady_consumer_send | apply tidy_log, writes_under_quiet].
  - rewrite D4, D3, D2, D1. exact Hfree.
Qed.

Lemma address_changed_bracketed ea rpt w :
  (∀ x, x ∈ address_hooks → x ∉ disabled w) →
  bracketed address_hooks w (address_changed ea rpt w).
Proof.
  intros Hfree. unfold address_changed.
  apply bracketed_bind_silent; [apply tidy_is_ready|]. intros rdy w1 D1.
  destruct (negb rdy); [apply bracketed_silent, tidy_log, no_write_quiet|].
  destruct (is_identifier ea); [apply bracketed_silent, tidy_log, no_write_quiet|].
  apply bracketed_bind_silent; [apply tidy_log, no_write_quiet|]. intros _ w2 D2.
  apply bracketed_bind_silent; [apply tidy_resume|]. intros event w3 D3.
  apply bracketed_bind_silent; [apply tidy_get_cmt|]. intros newcmt w4 D4.
  assert (Hfree4 : ∀ x, x ∈ address_hooks → x ∉ disabled w4).
  { rewrite D4, D3, D2, D1. exact Hfree. }
  rewrite <- bind_assoc. apply bracketed_then_silent; [|apply tidy_consumer_close, no_write_quiet].
  apply bracket_spec.
  - apply disable_hooks_spec.
  - apply enable_hooks_spec.
  - apply tidy_try_except; [apply steady_consumer_send | apply tidy_log, writes_under_quiet].
  - exact Hfree4.
Qed.

Lemma address_old_changed_bracketed ea rpt w :
  "cmt_changed" ∉ disabled w →
  bracketed ["cmt_changed"] w (address_old_changed ea rpt w).
Proof.
  intros Hfree. unfold address_old_changed.
  apply bracketed_bind_silent; [apply tidy_is_ready|]. intros rdy w1 D1.
  destruct (negb rdy); [apply bracketed_silent, tidy_log, no_write_quiet|].
  destruct (is_identifier ea); [apply bracketed_silent, tidy_log, no_write_quiet|].
  apply bracketed_bind_silent; [apply tidy_log, no_write_quiet|]. intros _ w2 D2.
  apply bracketed_bind_silent; [apply tidy_get_cmt|]. intros cmt w3 D3.
  apply bracketed_bind_silent; [apply tidy_call, no_write_quiet|]. intros _ w4 D4.
  destruct (bool_decide (decode_opt cmt = ∅)); [apply bracketed_silent, tidy_ret|].
  apply bracketed_bind_silent.
  { eapply tidy_ext; [intros w'; apply address_create_refs_script|].
    apply tidy_script, no_write_quiet. }
  intros _ w5 D5.
  apply bracket_spec.
  - apply hook_disable_spec.
  - apply hook_enable_spec.
  - apply steady_set_cmt.
  - intros x Hx. apply list_elem_of_singleton in Hx as ->.
    rewrite D5, D4, D3, D2, D1. exact Hfree.
Qed.

Lemma globals_changing_bracketed start cmt rpt w :
  (∀ x, x ∈ globals_hooks → x ∉ disabled w) →
  bracketed globals_hooks w (globals_changing start cmt rpt w).
Proof.
  intros Hfree. unfold globals_changing.
  apply bracketed_bind_silent; [apply tidy_is_ready|]. intros rdy w1 D1.
  destruct (negb rdy); [apply bracketed_silent, tidy_log, no_write_quiet|].
  destruct (is_identifier start); [apply bracketed_silent, tidy_log, no_write_quiet|].
  apply bracketed_bind_silent; [apply tidy_log, no_write_quiet|]. intros _ w2 D2.
  cbv zeta.
  destruct (bool_decide (get_func start = None) && bool_decide (cmt = ""));
    [apply bracketed_silent, tidy_ret|].
  apply bracketed_bind_silent; [apply tidy_new, no_write_quiet|]. intros event w3 D3.
  apply bracketed_bind_silent; [apply tidy_get_func_cmt|]. intros oldcmt w4 D4.
  apply bracket_spec.
  - apply disable_hooks_spec.
  - apply enable_hooks_spec.
  - apply tidy_try_except; [|apply tidy_raise].
    apply tidy_bind; [apply tidy_range_start|].
    intros f. apply steady_consumer_send.
  - rewrite D4, D3, D2, D1. exact Hfree.
Qed.

Lemma globals_changed_bracketed start cmt rpt w :
  (∀ x, x ∈ globals_hooks → x ∉ disabled w) →
  bracketed globals_hooks w (globals_changed start cmt rpt w).
Proof.
  intros Hfree. unfold globals_changed.
  apply bracketed_bind_silent; [apply tidy_is_ready|]. intros rdy w1 D1.
  destruct (negb rdy); [apply bracketed_silent, tidy_log, no_write_quiet|].
  destruct (is_identifier start); [apply bracketed_silent, tidy_log, no_write_quiet|].
  apply bracketed_bind_silent; [apply tidy_log, no_write_quiet|]. intros _ w2 D2.
  cbv zeta.
  destruct (bool_decide (get_func start = None) && bool_decide (cmt = ""));
    [apply bracketed_silent, tidy_ret|].
  apply bracketed_bind_silent; [apply tidy_resume|]. intros event w3 D3.
  apply bracketed_bind_silent; [apply tidy_get_func_cmt|]. intros newcmt w4 D4.
  assert (Hfree4 : ∀ x, x ∈ globals_hooks → x ∉ disabled w4).
  { rewrite D4, D3, D2, D1. exact Hfree. }
  rewrite <- bind_assoc. apply bracketed_then_silent; [|apply tidy_consumer_close, no_write_quiet].
  apply bracket_spec.
  - apply disable_hooks_spec.
  - apply enable_hooks_spec.
  - apply tidy_try_except; [|apply tidy_raise].
    apply tidy_bind; [apply tidy_range_start|].
    intros f. apply steady_consumer_send.
  - exact Hfree4.
Qed.

Lemma globals_old_changed_bracketed start cmt rpt w :
  "area_cmt_changed" ∉ disabled w →
  bracketed ["area_cmt_changed"] w (globals_old_changed start cmt rpt w).
Proof.
  intros Hfree. unfold globals_old_changed.
  apply bracketed_bind_silent; [apply tidy_is_ready|]. intros rdy w1 D1.
  destruct (negb rdy); [apply bracketed_silent, tidy_log, no_write_quiet|].
  destruct (is_identifier start); [apply bracketed_silent, tidy_log, no_write_quiet|].
  apply bracketed_bind_silent; [apply tidy_log, no_write_quiet|]. intros _ w2 D2.
  cbv zeta.
  destruct (bool_decide (get_func start = None)); [apply bracketed_silent, tidy_ret|].
  apply bracketed_bind_silent; [apply tidy_call, no_write_quiet|]. intros _ w3 D3.
  destruct (bool_decide (decode cmt = ∅)); [apply bracketed_silent, tidy_ret|].
  apply bracketed_bind_silent.
  { unfold globals_create_refs.
    apply tidy_bind; [apply tidy_log, no_write_quiet|]. intros _.
    apply tidy_for_each. intros key.
    apply tidy_bind; [apply tidy_range_start|]. intros f.
    apply tidy_bind; [apply tidy_log, no_write_quiet|]. intros _.
    apply tidy_call, no_write_quiet. }
  intros _ w4 D4.
  apply bracket_spec.
  - apply hook_disable_spec.
  - apply hook_enable_spec.
  - apply steady_set_func_cmt.
  - intros x Hx. apply list_elem_of_singleton in Hx as ->.
    rewrite D4, D3, D2, D1. exact Hfree.
Qed.

Lemma typeinfo_changing_bracketed ea new_type new_fname w :
  (∀ x, x ∈ typeinfo_hooks → x ∉ disabled w) →
  bracketed typeinfo_hooks w (typeinfo_changing ea new_type new_fname w).
Proof.
  intros Hfree. unfold typeinfo_changing.
  apply bracketed_bind_silent; [apply tidy_is_ready|]. intros rdy w1 D1.
  destruct (negb rdy); [apply bracketed_silent, tidy_log, no_write_quiet|].
  destruct (is_identifier ea); [apply bracketed_silent, tidy_log, no_write_quiet|].
  unfold within, ret, raise. destruct (address_within ea); cbv beta iota;
    [|apply bracketed_silent, tidy_log, no_write_quiet].
  apply bracketed_bind_silent; [apply tidy_log, no_write_quiet|]. intros _ w2 D2.
  destruct (default ("", "") (database_type ea)) as [old_type old_fname].
  apply bracketed_bind_silent; [apply tidy_new, no_write_quiet|]. intros event w3 D3.
  cbv zeta. apply bracket_spec.
  - apply disable_hooks_spec.
  - apply enable_hooks_spec.
  - apply tidy_try_except; [apply steady_consumer_send | apply tidy_log, writes_under_quiet].
  - rewrite D3, D2, D1. exact Hfree.
Qed.

Lemma typeinfo_changed_bracketed ea type fnames w :
  (∀ x, x ∈ typeinfo_hooks → x ∉ disabled w) →
  bracketed typeinfo_hooks w (typeinfo_changed ea type fnames w).
Proof.
  intros Hfree. unfold typeinfo_changed.
  apply bracketed_bind_silent; [apply tidy_is_ready|]. intros rdy w1 D1.
  destruct (negb rdy); [apply bracketed_silent, tidy_log, no_write_quiet|].
  destruct (is_identifier ea); [apply bracketed_silent, tidy_log, no_write_quiet|].
  unfold within, ret, raise. destruct (address_within ea); cbv beta iota;
    [|apply bracketed_silent, tidy_log, no_write_quiet].
  apply bracketed_bind_silent; [apply tidy_log, no_write_quiet|]. intros _ w2 D2.
  apply bracketed_bind_silent; [apply tidy_resume|]. intros event w3 D3.
  cbv zeta.
  assert (Hfree3 : ∀ x, x ∈ typeinfo_hooks → x ∉ disabled w3).
  { rewrite D3, D2, D1. exact Hfree. }
  rewrite <- bind_assoc. apply bracketed_then_silent; [|apply tidy_consumer_close, no_write_quiet].
  apply bracket_spec.
  - apply disable_hooks_spec.
  - apply enable_hooks_spec.
  - apply tidy_try_except; [apply steady_consumer_send | apply tidy_log, writes_under_quiet].
  - exact Hfree3.
Qed.

End brackets.

(** * Concrete databases *)

(** A codec for examples: a comment ["key:value"] holds one tag, any other
    comment holds none. *)
Definition line_decode (s : string) : gmap string string :=
  match String.index 0 ":" s with
  | Some i => {[ String.substring 0 i s := String.substring (S i) (String.length s - S i) s ]}
  | None => ∅
  end.

Definition line_encode (m : gmap string string) : string :=
  match map_to_list m with
  | [(k, v)] => k +:+ ":" +:+ v
  | _ => ""
  end.

Definition line_codec : Codec :=
  {| decode := line_decode;
     encode := line_encode;
     check := λ s, bool_decide (s = "") || bool_decide (line_decode s ≠ ∅) |}.

(** A database without functions, whose addresses run from 0x400000 up to
    0x500000. *)
Definition flat_host : Idaapi :=
  {| get_func := λ _, None;
     seg_is_xtrn := λ _, false;
     flags_is_data := λ _, false;
     is_identifier := λ ea, bool_decide (0xff00000000000000 ≤ ea);
     address_within := λ ea, bool_decide (0x400000 ≤ ea < 0x500000);
     version_lt_7_0 := false;
     set_cmt_raises := λ _ _, false;
     database_type := λ _, None;
     database_type_data := λ _, ("", "");
     database_functions := [];
     function_chunks := λ _, [];
     address_prev := λ ea, ea - 1;
     address_iterate := λ l r, [];
     bounds_iterate := λ _, [];
     database_tag := λ _, ∅;
     import_names := [];
     chunk_owners := λ _, [];
     get_fchunk := λ _, None;
     netnode_fails := λ _, false |}.

(** The same database, when the host refuses to write comments. *)
Definition failing_host : Idaapi :=
  {| get_func := λ _, None;
     seg_is_xtrn := λ _, false;
     flags_is_data := λ _, false;
     is_identifier := λ ea, bool_decide (0xff00000000000000 ≤ ea);
     address_within := λ ea, bool_decide (0x400000 ≤ ea < 0x500000);
     version_lt_7_0 := false;
     set_cmt_raises := λ _ _, true;
     database_type := λ _, None;
     database_type_data := λ _, ("", "");
     database_functions := [];
     function_chunks := λ _, [];
     address_prev := λ ea, ea - 1;
     address_iterate := λ l r, [];
     bounds_iterate := λ _, [];
     database_tag := λ _, ∅;
     import_names := [];
     chunk_owners := λ _, [];
     get_fchunk := λ _, None;
     netnode_fails := λ _, false |}.

Definition ready_world : World :=
  MkWorld (Some ready) empty_ledger ∅ ∅ ∅ [] ∅ [].

Definition loading_world : World :=
  MkWorld (Some loaded) empty_ledger ∅ ∅ ∅ [] ∅ [].

(** * The properties of the specification *)

(** A notification is ignored when all the handler does is log one line at
    debug level. *)
Definition ignored (c : M unit) (w : World) : Prop :=
  ∃ msg, c w = Return tt (emit (Log DEBUG msg) w).

Section properties.
Context {host : Idaapi} {codec : Codec}.


(** C10: while the database is not ready, every changing and changed handler
    of the three correlators only logs at debug level: no state is made, and
    neither the ledger nor a comment is touched. *)
Theorem handlers_wait_for_ready w :
  State w ≠ Some ready →
  (∀ ea rpt newcmt, ignored (address_changing ea rpt newcmt) w) ∧
  (∀ ea rpt, ignored (address_changed ea rpt) w) ∧
  (∀ ea rpt, ignored (address_old_changed ea rpt) w) ∧
  (∀ start cmt rpt, ignored (globals_changing start cmt rpt) w) ∧
  (∀ start cmt rpt, ignored (globals_changed start cmt rpt) w) ∧
  (∀ start cmt rpt, ignored (globals_old_changed start cmt rpt) w) ∧
  (∀ ea new_type new_fname, ignored (typeinfo_changing ea new_type new_fname) w) ∧
  (∀ ea type fnames, ignored (typeinfo_changed ea type fnames) w).
Proof.
  intros Hs.
  assert (E : bool_decide (State w = Some ready) = false) by (apply bool_decide_eq_false_2; exact Hs).
  repeat split; intros;
    unfold ignored, address_changing, address_changed, address_old_changed,
      globals_changing, globals_changed, globals_old_changed,
      typeinfo_changing, typeinfo_changed, bind, is_ready;
    rewrite E; simpl; eexists; reflexivity.
Qed.

(** C8, as the code has it: the typeinfo handlers ignore an address outside
    the boundaries of the database; the handlers of comments and of function
    comments have no such check, and ignore the identifiers of netnodes. *)
Theorem out_of_bounds_ignored_by_typeinfo ea w :
  (address_within ea = false →
     (∀ new_type new_fname, ignored (typeinfo_changing ea new_type new_fname) w) ∧
     (∀ type fnames, ignored (typeinfo_changed ea type fnames) w)) ∧
  (is_identifier ea = true →
     (∀ rpt newcmt, ignored (address_changing ea rpt newcmt) w) ∧
     (∀ rpt, ignored (address_changed ea rpt) w) ∧
     (∀ cmt rpt, ignored (globals_changing ea cmt rpt) w) ∧
     (∀ cmt rpt, ignored (globals_changed ea cmt rpt) w)).
Proof.
  split.
  - intros Hout. split; intros;
      unfold ignored, typeinfo_changing, typeinfo_changed, bind, is_ready, within;
      simpl; destruct (bool_decide (State w = Some ready)); simpl;
      try (eexists; reflexivity);
      destruct (is_identifier ea); try (eexists; reflexivity);
      rewrite Hout; simpl; eexists; reflexivity.
  - intros Hid. repeat split; intros;
      unfold ignored, address_changing, address_changed, globals_changing, globals_changed,
        bind, is_ready;
      simpl; destruct (bool_decide (State w = Some ready)); simpl;
      try (eexists; reflexivity);
      rewrite Hid; eexists; reflexivity.
Qed.

(** C9, as the code has it: [resume] returns the state that is registered
    for the address, and raises AddressNotFoundError exactly when there is
    none; the changed handlers do not catch that error: it leaves the
    handler, which by then has logged at debug level only, and has disabled
    no hook. *)
Theorem resume_finds_pending_state cls ea w :
  (∀ id, resume cls ea w = Return id w ↔ states w !! (cls, ea) = Some id) ∧
  (resume cls ea w = Raise AddressNotFoundError w ↔ states w !! (cls, ea) = None) ∧
  (State w = Some ready → is_identifier ea = false → states w !! (address, ea) = None →
     ∀ rpt, address_changed ea rpt w =
            Raise AddressNotFoundError (emit (Log DEBUG "Received comment.changed event") w)) ∧
  (State w = Some ready → is_identifier ea = false → states w !! (globals, ea) = None →
     ∀ cmt rpt, (get_func ea = None → cmt ≠ "") →
            globals_changed ea cmt rpt w =
            Raise AddressNotFoundError (emit (Log DEBUG "Received comment.changed event") w)) ∧
  (State w = Some ready → is_identifier ea = false → address_within ea = true →
     states w !! (typeinfo, ea) = None →
     ∀ type fnames, typeinfo_changed ea type fnames w =
            Raise AddressNotFoundError (emit (Log DEBUG "Received typeinfo.changed event") w)).
Proof.
  split; [|split; [|split; [|split]]].
  - intros id. unfold resume. destruct (states w !! (cls, ea)); split; congruence.
  - unfold resume. destruct (states w !! (cls, ea)); split; congruence.
  - intros Hs Hid Hnone rpt. unfold address_changed, bind, is_ready, resume.
    rewrite bool_decide_eq_true_2 by exact Hs. simpl. rewrite Hid. simpl.
    rewrite Hnone. reflexivity.
  - intros Hs Hid Hnone cmt rpt Hcmt. unfold globals_changed, bind, is_ready, resume.
    rewrite bool_decide_eq_true_2 by exact Hs. simpl. rewrite Hid. simpl.
    destruct (get_func ea) as [f|] eqn:F; simpl.
    + rewrite Hnone. reflexivity.
    + rewrite bool_decide_eq_false_2 by (apply Hcmt; reflexivity). simpl.
      rewrite Hnone. reflexivity.
  - intros Hs Hid Hin Hnone type fnames. unfold typeinfo_changed, bind, is_ready, resume, within.
    rewrite bool_decide_eq_true_2 by exact Hs. simpl. rewrite Hid, Hin. simpl.
    rewrite Hnone. reflexivity.
Qed.

End properties.

(** ** What [address.changing] does to a well-formed world *)

Lemma bind_Return {A B} (c : M A) (k : A → M B) w a w' :
  c w = Return a w' → bind c k w = k a w'.
Proof. intros E. unfold bind. rewrite E. reflexivity. Qed.

Lemma bind_Raise {A B} (c : M A) (k : A → M B) w e w' :
  c w = Raise e w' → bind c k w = Raise e w'.
Proof. intros E. unfold bind. rewrite E. reflexivity. Qed.

Lemma wf_same w w' : heap w' = heap w → states w' = states w → wf w → wf w'.
Proof.
  intros Hh Hs [R O]. split.
  - intros k i. rewrite Hs, Hh. apply R.
  - intros i c. rewrite Hs, Hh. apply O.
Qed.

Section address_changing_spec.
Context {host : Idaapi} {codec : Codec}.

Lemma address_changing_spec ea rpt newcmt w :
  wf w → State w = Some ready → is_identifier ea = false →
  let old := comments w !! (ea, rpt) in
  let o := decode_opt old in
  let n := decode newcmt in
  let script := update_refs_script (namespace_at ea) ea o n in
  ∃ w1, address_changing ea rpt newcmt w = Return tt w1 ∧
        State w1 = State w ∧ comments w1 = comments w ∧ func_comments w1 = func_comments w ∧
        ledger w1 = apply_ops (ops_of script) (ledger w) ∧
        states w1 = <[(address, ea) := length (heap w)]> (states w) ∧
        heap w1 = match states w !! (address, ea) with
                  | Some stale => <[stale := Coroutine address ea C_closed]> (heap w)
                  | None => heap w
                  end ++ [Coroutine address ea (C_feed (U_address ea rpt newcmt old o n))] ∧
        disabled w1 = hooks_on address_hooks (hooks_off address_hooks (disabled w)) ∧
        ∃ added, trace w1 = trace w ++ added ∧ calls added = ops_of script ∧ quiet added.
Proof.
  intros W Hs Hid old o n script.
  set (w0 := emit (Log DEBUG "Received comment.changing event") w).
  assert (E0 : address_changing ea rpt newcmt w =
               (event <- new address ea ;;;
                oldcmt <- get_cmt ea rpt ;;;
                disable_hooks address_hooks ;;;
                try_finally
                  (try_except (consumer_send event (P_comment ea rpt (Some newcmt)))
                     StopIteration
                     (log FATAL "Abandoning comment due to unexpected termination of event handler"))
                  (enable_hooks address_hooks)) w0).
  { unfold address_changing, bind at 1, is_ready.
    rewrite bool_decide_eq_true_2 by exact Hs. cbn [negb]. rewrite Hid. reflexivity. }
  rewrite E0. clear E0.
  assert (W0 : wf w0) by (apply (wf_same w); [reflexivity | reflexivity | exact W]).
  destruct (new_spec address ea w0 W0) as (w1 & E1 & D1 & S1 & H1).
  rewrite (bind_Return _ _ _ _ _ E1).
  change (heap w0) with (heap w) in *. change (states w0) with (states w) in *.
  destruct D1 as (DS & DL & DC & DF & DD & a1 & T1 & C1 & Q1).
  rewrite (bind_Return (get_cmt ea rpt) _ w1 (comments w1 !! (ea, rpt)) w1 eq_refl).
  rewrite (bind_Return _ _ _ _ _ (disable_hooks_spec address_hooks w1)).
  set (w2 := set_disabled (hooks_off address_hooks (disabled w1)) w1).
  assert (Hfresh : heap w2 !! length (heap w) = Some (Coroutine address ea (C_feed U_first))).
  { simpl. rewrite H1. rewrite lookup_app_r.
    - replace (_ - _)%nat with 0%nat; [reflexivity|].
      destruct (states w !! (address, ea)); rewrite ?length_insert; lia.
    - destruct (states w !! (address, ea)); rewrite ?length_insert; lia. }
  unfold try_finally, try_except.
  rewrite (consumer_send_changing _ ea ea rpt newcmt w2 Hfresh).
  rewrite enable_hooks_spec.
  unfold w0 in DS, DL, DC, DF, DD, T1. simpl in DS, DL, DC, DF, DD, T1.
  replace (comments w2) with (comments w) by (symmetry; exact DC).
  fold old o n script.
  eexists. split; [reflexivity|].
  cbn [State ledger comments func_comments disabled heap states trace set_heap set_disabled].
  rewrite ?played_State, ?played_comments, ?played_func_comments, ?played_ledger,
    ?played_states, ?played_disabled, ?played_heap.
  unfold w2.
  cbn [State ledger comments func_comments disabled heap states trace set_heap set_disabled].
  split; [exact DS|]. split; [exact DC|]. split; [exact DF|].
  split; [rewrite DL; reflexivity|]. split; [exact S1|].
  split.
  { rewrite H1. rewrite insert_app_r_alt.
    - f_equal. replace (_ - _)%nat with 0%nat; [reflexivity|].
      destruct (states w !! (address, ea)); rewrite ?length_insert; lia.
    - destruct (states w !! (address, ea)); rewrite ?length_insert; lia. }
  split; [rewrite DD; reflexivity|].
  destruct (played_trace script (set_disabled (hooks_off address_hooks (disabled w1)) w1))
    as (a2 & T2 & C2 & Q2).
  exists ([Log DEBUG "Received comment.changing event"] ++ a1 ++ a2).
  rewrite T2. cbn [trace set_disabled]. rewrite T1. rewrite <- !app_assoc.
  split; [reflexivity|]. split.
  - rewrite !calls_app, C1, C2. reflexivity.
  - apply Forall_app. split; [repeat constructor|]. apply Forall_app. split; assumption.
Qed.

End address_changing_spec.

(** ** What [address.changed] does to a pending state *)

Section address_changed_spec.
Context {host : Idaapi} {codec : Codec}.

(** The world in which the updater writes the comment back: it has warned
    when the comment of the database is not the one it was promised. *)
Definition warned (ea : Z) (rpt : bool) (new : string) (w : World) : World :=
  if bool_decide (default "" (comments w !! (ea, rpt)) ≠ new)
  then emit (Log WARNING "Comment from event is different from database") w
  else w.

Definition writes_back (new : string) : bool := check new || bool_decide (new ≠ "").

Lemma address_updater_commit ea rpt new old o n w :
  address_updater (U_address ea rpt new old o n) (P_comment ea rpt None) w =
  if writes_back new
  then (set_cmt ea new rpt ;;; ret Returned) (warned ea rpt new w)
  else Return Returned (played (delete_refs_script (namespace_at ea) ea n) (warned ea rpt new w)).
Proof.
  unfold address_updater, warned, writes_back.
  rewrite bool_decide_eq_true_2 by reflexivity.
  unfold bind at 1, get_cmt at 1. unfold bind at 1, when.
  destruct (bool_decide (default "" (comments w !! (ea, rpt)) ≠ new));
    unfold log, ret; destruct (check new); cbn [orb];
    try (unfold bind; destruct (set_cmt ea new rpt _); reflexivity);
    (destruct (bool_decide (new ≠ ""));
     [ unfold bind; destruct (set_cmt ea new rpt _); reflexivity
     | unfold bind; rewrite address_delete_refs_script, run_script_returns; reflexivity ]).
Qed.

Lemma warned_frame ea rpt new w :
  State (warned ea rpt new w) = State w ∧ ledger (warned ea rpt new w) = ledger w ∧
  comments (warned ea rpt new w) = comments w ∧ heap (warned ea rpt new w) = heap w ∧
  states (warned ea rpt new w) = states w ∧ disabled (warned ea rpt new w) = disabled w.
Proof. unfold warned. destruct (bool_decide _); repeat split. Qed.

(** The second send to a pending coroutine of class address, when the new
    comment is written back. *)
Lemma consumer_send_commit id ea0 ea rpt new old o n w :
  heap w !! id = Some (Coroutine address ea0 (C_feed (U_address ea rpt new old o n))) →
  writes_back new = true →
  let w1 := warned ea rpt new w in
  let w2 := emit (SetCmt ea new rpt (disabled w1)) w1 in
  consumer_send id (P_comment ea rpt None) w =
  if set_cmt_raises ea rpt
  then Raise HostError (set_heap (<[id := Coroutine address ea0 C_closed]> (heap w)) w2)
  else Return tt (set_heap (<[id := Coroutine address ea0 C_drain]> (heap w))
                    (set_comments (<[(ea, rpt) := new]> (comments w)) w2)).
Proof.
  intros Hh Hwb w1 w2. unfold consumer_send, bind at 1, heap_get at 1. rewrite Hh.
  cbn [co_state co_cls co_ea updater_send]. rewrite address_updater_commit, Hwb.
  fold w1. destruct (warned_frame ea rpt new w) as (_ & _ & WC & WH & _ & _).
  fold w1 in WC, WH. unfold bind at 1, set_cmt. fold w2.
  destruct (set_cmt_raises ea rpt).
  - unfold bind, heap_set, raise. change (heap w2) with (heap w1). rewrite WH, Hh. reflexivity.
  - unfold ret, heap_set. cbn [heap set_comments]. change (heap w2) with (heap w1).
    rewrite WH, WC, Hh. reflexivity.
Qed.

Lemma consumer_close_drained id cls ea id' w :
  heap w !! id = Some (Coroutine cls ea C_drain) →
  states w !! (cls, ea) = Some id' →
  consumer_close id w =
  Return tt (set_states (delete (cls, ea) (states w))
               (set_heap (<[id := Coroutine cls ea C_closed]> (heap w)) w)).
Proof.
  intros Hh Hs. unfold consumer_close, bind at 1, heap_get at 1. rewrite Hh.
  cbn [co_state co_cls co_ea]. unfold bind at 1, heap_set. rewrite Hh.
  unfold bind, states_pop. cbn [states set_heap]. rewrite Hs. reflexivity.
Qed.

(** [address.changed] past its guards. *)
Lemma address_changed_ready ea rpt w :
  State w = Some ready → is_identifier ea = false →
  address_changed ea rpt w =
  (event <- resume address ea ;;;
   newcmt <- get_cmt ea rpt ;;;
   disable_hooks address_hooks ;;;
   try_finally
     (try_except (consumer_send event (P_comment ea rpt None))
        StopIteration
        (log FATAL "Abandoning update of comment due to unexpected termination of event handler"))
     (enable_hooks address_hooks) ;;;
   consumer_close event) (emit (Log DEBUG "Received comment.changed event") w).
Proof.
  intros Hs Hid. unfold address_changed, bind at 1, is_ready.
  rewrite bool_decide_eq_true_2 by exact Hs. cbn [negb]. rewrite Hid. reflexivity.
Qed.

(** While the comment is written back the ledger is left alone, whether the
    host accepts the write or not. *)
Lemma address_changed_keeps_ledger ea rpt w id new old o n :
  State w = Some ready → is_identifier ea = false →
  states w !! (address, ea) = Some id →
  heap w !! id = Some (Coroutine address ea (C_feed (U_address ea rpt new old o n))) →
  writes_back new = true →
  ledger (world_of (address_changed ea rpt w)) = ledger w.
Proof.
  intros Hs Hid Hst Hh Hwb. rewrite (address_changed_ready ea rpt w Hs Hid).
  set (w0 := emit (Log DEBUG "Received comment.changed event") w).
  assert (Er : resume address ea w0 = Return id w0).
  { unfold resume. change (states w0) with (states w). rewrite Hst. reflexivity. }
  rewrite (bind_Return _ _ _ _ _ Er).
  rewrite (bind_Return (get_cmt ea rpt) _ w0 (comments w0 !! (ea, rpt)) w0 eq_refl).
  rewrite (bind_Return _ _ _ _ _ (disable_hooks_spec address_hooks w0)).
  set (w1 := set_disabled (hooks_off address_hooks (disabled w0)) w0).
  assert (Hh1 : heap w1 !! id = Some (Coroutine address ea (C_feed (U_address ea rpt new old o n))))
    by exact Hh.
  destruct (warned_frame ea rpt new w1) as (_ & WL & _ & _ & WS & _).
  unfold bind at 1, try_finally, try_except.
  rewrite (consumer_send_commit id ea ea rpt new old o n w1 Hh1 Hwb).
  destruct (set_cmt_raises ea rpt).
  - destruct (decide (HostError = StopIteration)) as [?|_]; [discriminate|].
    rewrite enable_hooks_spec. cbn [world_of ledger set_disabled set_heap emit].
    exact WL.
  - rewrite enable_hooks_spec.
    erewrite consumer_close_drained.
    + cbn [world_of ledger set_disabled set_heap set_states set_comments emit]. exact WL.
    + cbn [heap set_disabled set_heap set_comments emit].
      apply list_lookup_insert_eq. eapply lookup_lt_Some. exact Hh.
    + cbn [states set_disabled set_heap set_comments emit]. rewrite WS. exact Hst.
Qed.

(** When the host accepts the write, the pending state completes: it is
    closed and it is no longer registered. *)
Lemma address_changed_completes ea rpt w id new old o n :
  State w = Some ready → is_identifier ea = false →
  states w !! (address, ea) = Some id →
  heap w !! id = Some (Coroutine address ea (C_feed (U_address ea rpt new old o n))) →
  writes_back new = true → set_cmt_raises ea rpt = false →
  ∃ w', address_changed ea rpt w = Return tt w' ∧
        states w' = delete (address, ea) (states w) ∧
        heap w' = <[id := Coroutine address ea C_closed]> (heap w) ∧
        ledger w' = ledger w ∧
        comments w' = <[(ea, rpt) := new]> (comments w).
Proof.
  intros Hs Hid Hst Hh Hwb Hok. rewrite (address_changed_ready ea rpt w Hs Hid).
  set (w0 := emit (Log DEBUG "Received comment.changed event") w).
  assert (Er : resume address ea w0 = Return id w0).
  { unfold resume. change (states w0) with (states w). rewrite Hst. reflexivity. }
  rewrite (bind_Return _ _ _ _ _ Er).
  rewrite (bind_Return (get_cmt ea rpt) _ w0 (comments w0 !! (ea, rpt)) w0 eq_refl).
  rewrite (bind_Return _ _ _ _ _ (disable_hooks_spec address_hooks w0)).
  set (w1 := set_disabled (hooks_off address_hooks (disabled w0)) w0).
  assert (Hh1 : heap w1 !! id = Some (Coroutine address ea (C_feed (U_address ea rpt new old o n))))
    by exact Hh.
  destruct (warned_frame ea rpt new w1) as (_ & WL & _ & _ & WS & _).
  unfold bind at 1, try_finally, try_except.
  rewrite (consumer_send_commit id ea ea rpt new old o n w1 Hh1 Hwb), Hok.
  rewrite enable_hooks_spec.
  erewrite consumer_close_drained.
  - eexists. split; [reflexivity|].
    cbn [world_of ledger states heap comments set_disabled set_heap set_states set_comments emit].
    rewrite WS, WL. repeat split.
    apply list_insert_insert_eq.
  - cbn [heap set_disabled set_heap set_comments emit].
    apply list_lookup_insert_eq. eapply lookup_lt_Some. exact Hh.
  - cbn [states set_disabled set_heap set_comments emit]. rewrite WS. exact Hst.
Qed.

End address_changed_spec.

(** ** Counting in the ledger *)

Definition tag_count (L : Ledger) (ns : namespace) (key : string) : nat :=
  match ns with
  | Globals => globals_count L key
  | Contents fn => contents_count L fn key
  end.

Definition ref_count (L : Ledger) (ns : namespace) (ea : Z) : nat :=
  match ns with
  | Globals => globals_refs L ea
  | Contents fn => contents_refs L fn ea
  end.

(** The effect of one call on one count, as a change of that count. *)
Definition tag_delta (o : op) (ns : namespace) (key : string) (c : nat) : nat :=
  match o with
  | Inc ns' _ key' => if decide (ns' = ns ∧ key' = key) then S c else c
  | Dec ns' _ key' => if decide (ns' = ns ∧ key' = key) then pred c else c
  | SetAddress _ _ _ => c
  end.

Definition ref_delta (o : op) (ns : namespace) (ea : Z) (c : nat) : nat :=
  match o with
  | Inc ns' ea' _ => if decide (ns' = ns ∧ ea' = ea) then S c else c
  | Dec ns' ea' _ => if decide (ns' = ns ∧ ea' = ea) then pred c else c
  | SetAddress ns' ea' n => if decide (ns' = ns ∧ ea' = ea) then n else c
  end.

Lemma contents_read_insert L h a fn b fn' :
  contents_read (MkLedger h a (<[fn := b]> (netnode_sup L))) fn' =
  if decide (fn = fn') then b else contents_read L fn'.
Proof.
  unfold contents_read. simpl. rewrite lookup_insert.
  destruct (decide (fn = fn')); reflexivity.
Qed.

Lemma count_set {K} `{Countable K} (k k' : K) n (m : gmap K nat) :
  count (tally_set k n m) k' = if decide (k = k') then n else count m k'.
Proof.
  unfold tally_set, count. destruct n as [|n].
  - rewrite lookup_delete. destruct (decide (k = k')); reflexivity.
  - rewrite lookup_insert. destruct (decide (k = k')); reflexivity.
Qed.

Ltac split_decides :=
  repeat match goal with
    | |- context [decide ?P] => destruct (decide P)
    end;
  repeat match goal with
    | H : _ ∧ _ |- _ => destruct H
    end;
  simplify_eq; simpl.

Ltac count_cases :=
  split_decides; rewrite ?count_inc, ?count_dec, ?count_set; split_decides;
  first [reflexivity | exfalso; intuition congruence].

Lemma tag_count_apply_op o L ns key :
  tag_count (apply_op o L) ns key = tag_delta o ns key (tag_count L ns key).
Proof.
  destruct o as [ns' ea' key'|ns' ea' key'|ns' ea' n], ns' as [|fn'], ns as [|fn];
    simpl; unfold globals_count, contents_count, globals_inc, globals_dec,
      contents_inc, contents_dec, globals_set_address, contents_set_address; simpl;
    rewrite ?contents_read_insert; count_cases.
Qed.

Lemma ref_count_apply_op o L ns ea :
  ref_count (apply_op o L) ns ea = ref_delta o ns ea (ref_count L ns ea).
Proof.
  destruct o as [ns' ea' key'|ns' ea' key'|ns' ea' n], ns' as [|fn'], ns as [|fn];
    simpl; unfold globals_refs, contents_refs, globals_inc, globals_dec,
      contents_inc, contents_dec, globals_set_address, contents_set_address; simpl;
    rewrite ?contents_read_insert; split_decides; unfold blob_addresses; simpl;
    count_cases.
Qed.

(** Calls that do not name a tag leave its count alone. *)
Lemma tag_count_untouched ops L ns key :
  (∀ ea, Inc ns ea key ∉ ops) → (∀ ea, Dec ns ea key ∉ ops) →
  tag_count (apply_ops ops L) ns key = tag_count L ns key.
Proof.
  revert L. induction ops as [|o ops IH]; intros L Hi Hd; [reflexivity|].
  change (apply_ops (o :: ops) L) with (apply_ops ops (apply_op o L)).
  rewrite IH.
  - rewrite tag_count_apply_op. destruct o as [ns' ea' key'|ns' ea' key'|ns' ea' n]; simpl;
      try reflexivity; destruct (decide _) as [[-> ->]|]; try reflexivity; exfalso.
    + apply (Hi ea'). left.
    + apply (Hd ea'). left.
  - intros ea H. apply (Hi ea). right. exact H.
  - intros ea H. apply (Hd ea). right. exact H.
Qed.

Section comment_edit.
Context {host : Idaapi} {codec : Codec}.

Lemma update_refs_first_key ns ea key v :
  ops_of (update_refs_script ns ea ∅ {[key := v]}) = [Inc ns ea key].
Proof.
  unfold update_refs_script.
  assert (E : symmetric_difference (dom (∅ : gmap string string)) (dom ({[key := v]} : gmap string string))
              = {[key]}).
  { unfold symmetric_difference. rewrite dom_empty_L, dom_singleton_L.
    apply set_eq. intros x.
    rewrite elem_of_union, !elem_of_difference, elem_of_singleton.
    pose proof (not_elem_of_empty (C := gset string) x). tauto. }
  rewrite E, elements_singleton. simpl.
  unfold missing. rewrite lookup_singleton_eq, lookup_empty.
  rewrite bool_decide_eq_false_2 by discriminate.
  rewrite bool_decide_eq_true_2 by reflexivity. reflexivity.
Qed.

(** The namespace that the class address counts an address in, read off
    the host: the contents of the function of the address, unless that
    function is in an external segment; the globals when there is no
    function. *)
Lemma namespace_at_spec ea :
  namespace_at ea = match get_func ea with
                    | Some f => if seg_is_xtrn ea then Globals else Contents f
                    | None => Globals
                    end.
Proof.
  unfold namespace_at, get_func_extern.
  destruct (get_func ea); [destruct (seg_is_xtrn ea)|]; reflexivity.
Qed.

(** The calls of [_update_refs], each of them once: one decrement for each
    key that only the old comment has and one increment for each key that
    only the new one has, in the order in which the set of keys is walked,
    which is left open. *)
Lemma update_refs_calls_once ns ea (old new : gmap string string) :
  ops_of (update_refs_script ns ea old new) ≡ₚ
  (Dec ns ea <$> elements (dom old ∖ dom new)) ++
  (Inc ns ea <$> elements (dom new ∖ dom old)).
Proof.
  apply NoDup_Permutation.
  - set (f := λ key, if missing key new then Dec ns ea key else Inc ns ea key).
    assert (E : ∀ l, (∀ key, key ∈ l → key ∈ symmetric_difference (dom old) (dom new)) →
                     ops_of (flat_map (λ key,
                         (if missing key new
                          then [Say DEBUG "update_refs: Decreasing reference count";
                                Do (Dec ns ea key)]
                          else []) ++
                         (if missing key old
                          then [Say DEBUG "update_refs: Increasing reference count";
                                Do (Inc ns ea key)]
                          else [])) l) = f <$> l).
    { induction l as [|key l IH]; intros Hl; [reflexivity|].
      cbn [flat_map fmap list_fmap]. unfold ops_of in *. rewrite flat_map_app.
      rewrite IH by (intros k Hk; apply Hl; right; exact Hk).
      f_equal. unfold f.
      pose proof (Hl key (list_elem_of_here _ _)) as Hkey.
      apply elem_of_symmetric_difference in Hkey.
      destruct (missing key new) eqn:Mn, (missing key old) eqn:Mo; try reflexivity; exfalso.
      - apply missing_spec in Mn, Mo. tauto.
      - apply not_true_iff_false in Mn, Mo. rewrite missing_spec in Mn, Mo. tauto. }
    unfold update_refs_script.
    change (ops_of (Say DEBUG "update_refs: Updating old keys to new keys" :: ?s))
      with (ops_of s).
    rewrite E by (intros key Hkey; apply elem_of_elements; exact Hkey).
    apply NoDup_fmap_2; [|apply NoDup_elements].
    intros k1 k2. unfold f. destruct (missing k1 new), (missing k2 new); congruence.
  - apply NoDup_app. split; [|split].
    + apply NoDup_fmap_2; [intros k1 k2; congruence | apply NoDup_elements].
    + intros c Hd Hi. apply list_elem_of_fmap in Hd as (k1 & -> & _).
      apply list_elem_of_fmap in Hi as (k2 & Hi & _). discriminate.
    + apply NoDup_fmap_2; [intros k1 k2; congruence | apply NoDup_elements].
  - intros c. rewrite update_refs_calls, elem_of_app, !list_elem_of_fmap. split.
    + intros (key & [(-> & Ho & Hn)|(-> & Hn & Ho)]).
      * left. exists key. split; [reflexivity|].
        apply elem_of_elements, elem_of_difference. tauto.
      * right. exists key. split; [reflexivity|].
        apply elem_of_elements, elem_of_difference. tauto.
    + intros [(key & -> & Hk)|(key & -> & Hk)];
        apply elem_of_elements, elem_of_difference in Hk; exists key; tauto.
Qed.


End comment_edit.

Section stale_states.
Context {host : Idaapi} {codec : Codec}.

(** C2: the coroutines that are not closed are the registered ones, one for
    an address at most, and [new] and the handlers keep it so.  When
    [address.changing] comes a second time for an address whose state is
    still pending, [new] closes the stale state, which makes no call to the
    ledger and can be sent nothing any more, and registers a fresh state in
    its place; that second state is the one, and the only one, that
    [address.changed] completes. *)
Theorem second_changing_closes_the_stale_state ea rpt1 cmt1 rpt2 cmt2 w :
  wf w → State w = Some ready → is_identifier ea = false →
  (∀ cls, ∃ w', new cls ea w = Return (length (heap w)) w' ∧ wf w' ∧ same_data w w' ∧
                states w' !! (cls, ea) = Some (length (heap w)) ∧
                heap w' !! length (heap w) = Some (Coroutine cls ea (C_feed U_first)) ∧
                (∀ stale, states w !! (cls, ea) = Some stale →
                          heap w' !! stale = Some (Coroutine cls ea C_closed))) ∧
  ∃ w1 w2,
    address_changing ea rpt1 cmt1 w = Return tt w1 ∧
    address_changing ea rpt2 cmt2 w1 = Return tt w2 ∧
    let first := length (heap w) in
    let second := length (heap w1) in
    wf w1 ∧ wf w2 ∧
    states w1 !! (address, ea) = Some first ∧
    (∃ h, heap w1 !! first = Some (Coroutine address ea (C_feed h))) ∧
    heap w2 !! first = Some (Coroutine address ea C_closed) ∧
    states w2 !! (address, ea) = Some second ∧
    (∃ h, heap w2 !! second = Some (Coroutine address ea (C_feed h))) ∧
    (∀ i c, heap w2 !! i = Some c → co_cls c = address → co_ea c = ea →
            co_state c ≠ C_closed → i = second) ∧
    (∃ added, trace w2 = trace w1 ++ added ∧
              ledger w2 = apply_ops (calls added) (ledger w1) ∧
              calls added = ops_of (update_refs_script (namespace_at ea) ea
                                      (decode_opt (comments w1 !! (ea, rpt2))) (decode cmt2))) ∧
    (∀ p, consumer_send first p w2 = Raise StopIteration w2) ∧
    (writes_back cmt2 = true → set_cmt_raises ea rpt2 = false →
     ∀ c', ∃ w3, address_changed ea rpt2 (set_comments c' w2) = Return tt w3 ∧
                 states w3 !! (address, ea) = None ∧
                 heap w3 !! first = Some (Coroutine address ea C_closed) ∧
                 heap w3 !! second = Some (Coroutine address ea C_closed) ∧
                 ledger w3 = ledger w2).
Proof.
  intros W Hs Hid. split.
  { intros cls. destruct (new_spec cls ea w W) as (w' & E & D & St & H).
    exists w'. split; [exact E|]. split; [eapply wf_new; eassumption|]. split; [exact D|].
    split; [rewrite St; apply lookup_insert_eq|].
    assert (Lb : length (match states w !! (cls, ea) with
                         | Some stale => <[stale := Coroutine cls ea C_closed]> (heap w)
                         | None => heap w
                         end) = length (heap w)).
    { destruct (states w !! (cls, ea)); [apply length_insert | reflexivity]. }
    split.
    - rewrite H, lookup_app_r by lia. rewrite Lb, Nat.sub_diag. reflexivity.
    - intros stale Hstale. rewrite Hstale in H, Lb. destruct W as [R _].
      destruct (R _ _ Hstale) as (c & Hc & _ & _).
      rewrite H, lookup_app_l by (rewrite length_insert; eapply lookup_lt_Some; exact Hc).
      apply list_lookup_insert_eq. eapply lookup_lt_Some. exact Hc. }
  destruct (address_changing_spec ea rpt1 cmt1 w W Hs Hid)
    as (w1 & E1 & S1 & C1 & F1 & L1 & St1 & H1 & D1 & added1 & T1 & Ca1 & Q1).
  assert (W1 : wf w1).
  { eapply wf_install; [exact W | | exact St1 | exact H1]. discriminate. }
  assert (Hs1 : State w1 = Some ready) by congruence.
  destruct (address_changing_spec ea rpt2 cmt2 w1 W1 Hs1 Hid)
    as (w2 & E2 & S2 & C2 & F2 & L2 & St2 & H2 & D2 & added2 & T2 & Ca2 & Q2).
  assert (W2 : wf w2).
  { eapply wf_install; [exact W1 | | exact St2 | exact H2]. discriminate. }
  set (base := match states w !! (address, ea) with
               | Some stale => <[stale := Coroutine address ea C_closed]> (heap w)
               | None => heap w
               end) in *.
  assert (Lb : length base = length (heap w)).
  { unfold base. destruct (states w !! (address, ea)); [apply length_insert | reflexivity]. }
  assert (Hreg1 : states w1 !! (address, ea) = Some (length (heap w))).
  { rewrite St1. apply lookup_insert_eq. }
  assert (Hp1 : heap w1 !! length (heap w) =
                Some (Coroutine address ea
                        (C_feed (U_address ea rpt1 cmt1 (comments w !! (ea, rpt1))
                                   (decode_opt (comments w !! (ea, rpt1))) (decode cmt1))))).
  { rewrite H1, lookup_app_r by lia. rewrite Lb, Nat.sub_diag. reflexivity. }
  assert (Len1 : length (heap w1) = S (length (heap w))).
  { rewrite H1, length_app, Lb. simpl. lia. }
  rewrite Hreg1 in H2.
  assert (Hc2 : heap w2 !! length (heap w) = Some (Coroutine address ea C_closed)).
  { rewrite H2, lookup_app_l by (rewrite length_insert; lia).
    apply list_lookup_insert_eq. lia. }
  assert (Hreg2 : states w2 !! (address, ea) = Some (length (heap w1))).
  { rewrite St2. apply lookup_insert_eq. }
  assert (Hp2 : heap w2 !! length (heap w1) =
                Some (Coroutine address ea
                        (C_feed (U_address ea rpt2 cmt2 (comments w1 !! (ea, rpt2))
                                   (decode_opt (comments w1 !! (ea, rpt2))) (decode cmt2))))).
  { rewrite H2, lookup_app_r by (rewrite length_insert; lia).
    rewrite length_insert, Nat.sub_diag. reflexivity. }
  exists w1, w2. split; [exact E1|]. split; [exact E2|].
  cbv zeta. split; [exact W1|]. split; [exact W2|]. split; [exact Hreg1|].
  split; [eexists; exact Hp1|]. split; [exact Hc2|]. split; [exact Hreg2|].
  split; [eexists; exact Hp2|].
  split.
  { intros i c Hi Hcls Hea Hlive. destruct W2 as [_ O2].
    pose proof (O2 i c Hi Hlive) as Hreg. rewrite Hcls, Hea, Hreg2 in Hreg. congruence. }
  split.
  { exists added2. split; [exact T2|]. split; [rewrite Ca2; exact L2 | exact Ca2]. }
  split.
  { intros p. unfold consumer_send, bind, heap_get. rewrite Hc2. reflexivity. }
  intros Hwb Hok c'.
  destruct (address_changed_completes ea rpt2 (set_comments c' w2) (length (heap w1))
              cmt2 (comments w1 !! (ea, rpt2)) (decode_opt (comments w1 !! (ea, rpt2)))
              (decode cmt2)) as (w3 & E3 & St3 & H3 & L3 & _); try assumption.
  { cbn [State set_comments]. congruence. }
  exists w3. split; [exact E3|].
  split; [rewrite St3; apply lookup_delete_eq|].
  cbn [heap set_comments] in H3. cbn [ledger set_comments] in L3.
  split; [|split; [|exact L3]].
  - rewrite H3, list_lookup_insert_ne by lia. exact Hc2.
  - rewrite H3. apply list_lookup_insert_eq. eapply lookup_lt_Some. exact Hp2.
Qed.

End stale_states.

(** ** Events that are out of sync *)

Section out_of_sync.
Context {host : Idaapi} {codec : Codec}.

Definition out_of_sync_message : string :=
  "Comment events are out of sync, updating tags from previous comment".

(** The world after the old comment was given up: its references are
    deleted and the empty comment is written. *)
Definition address_given_up (ea : Z) (rpt : bool) (o : gmap string string) (w : World) : World :=
  let w1 := played (Say FATAL out_of_sync_message :: delete_refs_script (namespace_at ea) ea o) w in
  emit (Log WARNING "Deleted comment at address")
    (set_comments (<[(ea, rpt) := ""]> (comments w1)) (emit (SetCmt ea "" rpt (disabled w1)) w1)).

Lemma address_updater_out_of_sync ea rpt new old o n newea nrpt none w :
  (newea, nrpt, none) ≠ (ea, rpt, None) → set_cmt_raises ea rpt = false →
  let w2 := address_given_up ea rpt o w in
  let n' := decode_opt (comments w2 !! (newea, nrpt)) in
  address_updater (U_address ea rpt new old o n) (P_comment newea nrpt none) w =
  Return Returned (played (create_refs_script (namespace_at newea) newea n') w2).
Proof.
  intros Hne Hok w2 n'. unfold address_updater.
  rewrite bool_decide_eq_false_2 by exact Hne.
  unfold bind at 1, log at 1.
  unfold bind at 1. rewrite address_delete_refs_script, run_script_returns.
  unfold bind at 1, set_cmt at 1. rewrite Hok.
  unfold bind at 1, log at 1.
  unfold bind at 1, get_cmt at 1.
  unfold bind at 1. rewrite address_create_refs_script, run_script_returns.
  reflexivity.
Qed.

Lemma globals_create_refs_script f content w :
  globals_create_refs (Some f) content w = run_script (create_refs_script Globals f content) w.
Proof.
  unfold globals_create_refs, create_refs_script.
  rewrite run_script_cons. simpl run_step. unfold bind at 1, log at 1. simpl world_of.
  apply for_each_script. intros key w'. reflexivity.
Qed.

Lemma globals_delete_refs_script f content w :
  globals_delete_refs (Some f) content w = run_script (delete_refs_script Globals f content) w.
Proof.
  unfold globals_delete_refs, delete_refs_script.
  rewrite run_script_cons. simpl run_step. unfold bind at 1, log at 1. simpl world_of.
  apply for_each_script. intros key w'. reflexivity.
Qed.

Definition globals_given_up (f : Z) (rpt : bool) (o : gmap string string) (w : World) : World :=
  let w1 := played (Say FATAL out_of_sync_message :: delete_refs_script Globals f o) w in
  emit (Log WARNING "Deleted comment for function")
    (set_func_comments (<[(f, rpt) := ""]> (func_comments w1))
       (emit (SetFuncCmt (Some f) "" rpt (disabled w1)) w1)).

Lemma globals_updater_out_of_sync ea f rpt new old o n newea nrpt none f' w :
  (newea, nrpt, none) ≠ (ea, rpt, None) → set_cmt_raises f rpt = false →
  get_func newea = Some f' →
  let w2 := globals_given_up f rpt o w in
  let n' := decode_opt (func_comments w2 !! (f', nrpt)) in
  globals_updater (U_globals ea (Some f) rpt new old o n) (P_comment newea nrpt none) w =
  Return Returned (played (create_refs_script Globals f' n') w2).
Proof.
  intros Hne Hok Hf w2 n'. unfold globals_updater.
  rewrite bool_decide_eq_false_2 by exact Hne.
  unfold bind at 1, log at 1.
  unfold bind at 1. rewrite globals_delete_refs_script, run_script_returns.
  unfold bind at 1, set_func_cmt at 1. rewrite Hok.
  unfold bind at 1, log at 1. rewrite Hf.
  unfold bind at 1, get_func_cmt at 1.
  unfold bind at 1. rewrite globals_create_refs_script, run_script_returns.
  reflexivity.
Qed.

(** What is seen of an updater that found its events out of sync. *)
Lemma given_up_trace msg script msg' e (w : World) (f : World → World) script' :
  (∀ w0, trace (f w0) = trace w0 ++ [e; Log WARNING msg']) →
  (∀ w0, ledger (f w0) = ledger w0) →
  let w1 := played (Say FATAL msg :: script) w in
  let w' := played script' (f w1) in
  ∃ added rest, trace w' = trace w ++ added ∧
                added = Log FATAL msg :: rest ∧ e ∈ added ∧
                calls added = ops_of script ++ calls [e] ++ ops_of script' ∧
                ledger w' = apply_ops (ops_of script') (apply_ops (ops_of script) (ledger w)).
Proof.
  intros Hf Hl w1 w'.
  assert (E1 : w1 = played script (emit (Log FATAL msg) w)) by reflexivity.
  destruct (played_trace script (emit (Log FATAL msg) w)) as (a1 & T1 & C1 & _).
  destruct (played_trace script' (f w1)) as (a3 & T3 & C3 & _).
  exists (Log FATAL msg :: a1 ++ [e; Log WARNING msg'] ++ a3), (a1 ++ [e; Log WARNING msg'] ++ a3).
  split.
  { unfold w'. rewrite T3, Hf, E1, T1. cbn [trace emit]. rewrite <- !app_assoc. reflexivity. }
  split; [reflexivity|]. split.
  { apply list_elem_of_In. right. apply in_or_app. right. left. reflexivity. }
  split.
  { change (Log FATAL msg :: a1 ++ [e; Log WARNING msg'] ++ a3)
      with ([Log FATAL msg] ++ a1 ++ [e] ++ [Log WARNING msg'] ++ a3).
    rewrite !calls_app, C1, C3. simpl. rewrite app_nil_r. reflexivity. }
  unfold w'. rewrite played_ledger, Hl, E1, played_ledger. reflexivity.
Qed.

End out_of_sync.

Section out_of_sync_property.
Context {host : Idaapi} {codec : Codec}.

(** C3, as the code has it: when the changed notification does not carry
    what the changing notification promised, the updater logs at fatal
    level and does not raise; it then decrements every key of the old
    comment (it does not invert the calls it made while changing), writes
    the empty comment, and increments every key of the comment that it reads
    back at the address and kind of the changed notification.  The same
    holds of the updater of function comments, in the globals. *)
Theorem out_of_sync_deletes_the_old_refs ea rpt new old o n newea nrpt none w :
  (newea, nrpt, none) ≠ (ea, rpt, None) →
  (set_cmt_raises ea rpt = false →
   let n' := decode_opt (<[(ea, rpt) := ""]> (comments w) !! (newea, nrpt)) in
   ∃ w' added rest,
     address_updater (U_address ea rpt new old o n) (P_comment newea nrpt none) w
       = Return Returned w' ∧
     trace w' = trace w ++ added ∧
     added = Log FATAL out_of_sync_message :: rest ∧
     SetCmt ea "" rpt (disabled w) ∈ added ∧
     comments w' = <[(ea, rpt) := ""]> (comments w) ∧
     calls added = (Dec (namespace_at ea) ea <$> elements (dom o)) ++
                   (Inc (namespace_at newea) newea <$> elements (dom n')) ∧
     ledger w' = apply_ops (calls added) (ledger w)) ∧
  (∀ f f', set_cmt_raises f rpt = false → get_func newea = Some f' →
   let n' := decode_opt (<[(f, rpt) := ""]> (func_comments w) !! (f', nrpt)) in
   ∃ w' added rest,
     globals_updater (U_globals ea (Some f) rpt new old o n) (P_comment newea nrpt none) w
       = Return Returned w' ∧
     trace w' = trace w ++ added ∧
     added = Log FATAL out_of_sync_message :: rest ∧
     SetFuncCmt (Some f) "" rpt (disabled w) ∈ added ∧
     func_comments w' = <[(f, rpt) := ""]> (func_comments w) ∧
     calls added = (Dec Globals f <$> elements (dom o)) ++
                   (Inc Globals f' <$> elements (dom n')) ∧
     ledger w' = apply_ops (calls added) (ledger w)).
Proof.
  intros Hne. split.
  - intros Hok n'.
    rewrite (address_updater_out_of_sync ea rpt new old o n newea nrpt none w Hne Hok).
    unfold address_given_up.
    set (script := delete_refs_script (namespace_at ea) ea o).
    set (w1 := played (Say FATAL out_of_sync_message :: script) w).
    assert (Hc1 : comments w1 = comments w) by apply played_comments.
    assert (Hd1 : disabled w1 = disabled w) by apply played_disabled.
    set (f := λ w0 : World,
           emit (Log WARNING "Deleted comment at address")
             (set_comments (<[(ea, rpt) := ""]> (comments w1))
                (emit (SetCmt ea "" rpt (disabled w1)) w0))).
    cbn [comments emit set_comments]. rewrite Hc1. fold n'.
    destruct (given_up_trace out_of_sync_message script "Deleted comment at address"
                (SetCmt ea "" rpt (disabled w1)) w f
                (create_refs_script (namespace_at newea) newea n'))
      as (added & rest & T & A & In & Ca & L).
    { intros w0. unfold f. cbn [trace emit set_comments]. rewrite <- app_assoc. reflexivity. }
    { intros w0. reflexivity. }
    fold w1 in T, L. unfold f in T, L. rewrite Hc1 in T, L.
    eexists _, added, rest. split; [reflexivity|].
    split; [exact T|]. split; [exact A|]. rewrite <- Hd1. split; [exact In|].
    split; [rewrite played_comments; reflexivity|].
    unfold script in Ca. rewrite delete_refs_calls, create_refs_calls in Ca. simpl in Ca.
    split; [exact Ca|].
    rewrite L, Ca, apply_ops_app. unfold script.
    rewrite delete_refs_calls, create_refs_calls. reflexivity.
  - intros fn fn' Hok Hf n'.
    rewrite (globals_updater_out_of_sync ea fn rpt new old o n newea nrpt none fn' w Hne Hok Hf).
    unfold globals_given_up.
    set (script := delete_refs_script Globals fn o).
    set (w1 := played (Say FATAL out_of_sync_message :: script) w).
    assert (Hc1 : func_comments w1 = func_comments w) by apply played_func_comments.
    assert (Hd1 : disabled w1 = disabled w) by apply played_disabled.
    set (f := λ w0 : World,
           emit (Log WARNING "Deleted comment for function")
             (set_func_comments (<[(fn, rpt) := ""]> (func_comments w1))
                (emit (SetFuncCmt (Some fn) "" rpt (disabled w1)) w0))).
    cbn [func_comments emit set_func_comments]. rewrite Hc1. fold n'.
    destruct (given_up_trace out_of_sync_message script "Deleted comment for function"
                (SetFuncCmt (Some fn) "" rpt (disabled w1)) w f
                (create_refs_script Globals fn' n'))
      as (added & rest & T & A & In & Ca & L).
    { intros w0. unfold f. cbn [trace emit set_func_comments]. rewrite <- app_assoc. reflexivity. }
    { intros w0. reflexivity. }
    fold w1 in T, L. unfold f in T, L. rewrite Hc1 in T, L.
    eexists _, added, rest. split; [reflexivity|].
    split; [exact T|]. split; [exact A|]. rewrite <- Hd1. split; [exact In|].
    split; [rewrite played_func_comments; reflexivity|].
    unfold script in Ca. rewrite delete_refs_calls, create_refs_calls in Ca. simpl in Ca.
    split; [exact Ca|].
    rewrite L, Ca, apply_ops_app. unfold script.
    rewrite delete_refs_calls, create_refs_calls. reflexivity.
Qed.

End out_of_sync_property.

(** ** Attaching and detaching a tail *)

Lemma tag_count_apply_ops ops L ns key :
  tag_count (apply_ops ops L) ns key =
  fold_left (λ c o, tag_delta o ns key c) ops (tag_count L ns key).
Proof.
  revert L. induction ops as [|o ops IH]; intros L; [reflexivity|].
  change (apply_ops (o :: ops) L) with (apply_ops ops (apply_op o L)).
  rewrite IH, tag_count_apply_op. reflexivity.
Qed.

Lemma ref_count_apply_ops ops L ns ea :
  ref_count (apply_ops ops L) ns ea =
  fold_left (λ c o, ref_delta o ns ea c) ops (ref_count L ns ea).
Proof.
  revert L. induction ops as [|o ops IH]; intros L; [reflexivity|].
  change (apply_ops (o :: ops) L) with (apply_ops ops (apply_op o L)).
  rewrite IH, ref_count_apply_op. reflexivity.
Qed.

(** How often a selection holds in a list. *)
Definition hits {A} (sel : A → bool) (ps : list A) : nat := length (filter (λ p, sel p = true) ps).

Lemma hits_cons {A} (sel : A → bool) p ps :
  hits sel (p :: ps) = ((if sel p then 1 else 0) + hits sel ps)%nat.
Proof.
  unfold hits. rewrite filter_cons. destruct (sel p) eqn:E.
  - rewrite decide_True by reflexivity. reflexivity.
  - rewrite decide_False by discriminate. reflexivity.
Qed.

(** A list of calls made up of groups, each of which either makes one and
    the same step on a count, or leaves it alone. *)
Lemma fold_groups {A} (δ : op → nat → nat) (g : A → list op) (sel : A → bool)
    (step : nat → nat) ps c :
  (∀ p c, fold_left (λ c o, δ o c) (g p) c = if sel p then step c else c) →
  fold_left (λ c o, δ o c) (flat_map g ps) c = Nat.iter (hits sel ps) step c.
Proof.
  intros Hg. revert c. induction ps as [|p ps IH]; intros c; [reflexivity|].
  simpl flat_map. rewrite fold_left_app, Hg, IH, hits_cons.
  destruct (sel p); [|reflexivity].
  simpl Nat.add. rewrite Nat.iter_succ_r. reflexivity.
Qed.

Lemma iter_S n c : Nat.iter n S c = (c + n)%nat.
Proof. induction n as [|n IH]; simpl; [lia | rewrite IH; lia]. Qed.

Lemma iter_id n (c : nat) : Nat.iter n id c = c.
Proof. induction n as [|n IH]; simpl; [reflexivity | exact IH]. Qed.

Lemma iter_pred n c : Nat.iter n pred c = (c - n)%nat.
Proof. induction n as [|n IH]; simpl; [lia | rewrite IH; lia]. Qed.

Section tails.
Context {host : Idaapi}.

(** The tags of a tail: every address of it with every key it carries. *)
Definition tail_tags (bounds : Z * Z) : list (Z * string) :=
  flat_map (λ ea, pair ea <$> tag_keys ea) (bounds_iterate bounds).

Definition demote_calls (pfn : Z) (p : Z * string) : list op :=
  [Dec Globals p.1 p.2; Inc (Contents pfn) p.1 p.2].

Definition promote_calls (pfn : Z) (p : Z * string) : list op :=
  [Dec (Contents pfn) p.1 p.2; Inc Globals p.1 p.2].

Definition absent_owner_warning (pfn : Z) (bounds : Z * Z) (msg : string) : list step :=
  if bool_decide (pfn ∉ chunk_owners (fst bounds)) then [Say WARNING msg] else [].

Lemma flat_map_pairs {B} (f : Z * string → list B) (l : list Z) :
  flat_map (λ ea, flat_map (λ k, f (ea, k)) (tag_keys ea)) l =
  flat_map f (flat_map (λ ea, pair ea <$> tag_keys ea) l).
Proof.
  induction l as [|ea l IH]; [reflexivity|]. simpl.
  rewrite flat_map_app, IH. f_equal.
  induction (tag_keys ea) as [|k ks IHk]; [reflexivity|]. simpl. rewrite IHk. reflexivity.
Qed.

Lemma ops_of_flat_map {A} (f : A → list step) (l : list A) :
  ops_of (flat_map f l) = flat_map (λ x, ops_of (f x)) l.
Proof.
  induction l as [|x l IH]; [reflexivity|]. simpl. rewrite ops_of_app, IH. reflexivity.
Qed.

(** The tail with one owner, attached: the script of the handler. *)
Lemma func_tail_appended_one_owner pfn bounds w :
  (length (chunk_owners (fst bounds)) ≤ 1)%nat →
  ∃ script, func_tail_appended pfn bounds w = Return tt (played script w) ∧
            ops_of script = flat_map (demote_calls pfn) (tail_tags bounds).
Proof.
  intros Hone. unfold func_tail_appended.
  rewrite bool_decide_eq_false_2 by lia.
  set (warn := absent_owner_warning pfn bounds
    "func_tail_appended: Demoting globals but function was not found in the owners of chunk").
  set (body := λ p : Z * string,
         [Do (Dec Globals p.1 p.2); Do (Inc (Contents pfn) p.1 p.2);
          Say DEBUG "func_tail_appended: Exchanging reference count"]).
  exists (warn ++ flat_map body (tail_tags bounds)). split.
  - rewrite <- run_script_returns, run_script_app. unfold bind.
    assert (E : ∀ w, when (bool_decide (pfn ∉ chunk_owners bounds.1))
                  (log WARNING "func_tail_appended: Demoting globals but function was not found in the owners of chunk") w
                = run_script warn w).
    { intros w'. unfold warn, absent_owner_warning. destruct (bool_decide _); reflexivity. }
    rewrite E, run_script_returns. unfold tail_tags. rewrite <- flat_map_pairs.
    apply for_each_script. intros ea w'. apply for_each_script. intros k w''. reflexivity.
  - rewrite ops_of_app. unfold warn, absent_owner_warning.
    destruct (bool_decide _); simpl; rewrite ops_of_flat_map; reflexivity.
Qed.

Lemma removing_func_tail_one_owner pfn bounds w :
  (length (chunk_owners (fst bounds)) ≤ 1)%nat →
  ∃ script, removing_func_tail pfn bounds w = Return tt (played script w) ∧
            ops_of script = flat_map (promote_calls pfn) (tail_tags bounds).
Proof.
  intros Hone. unfold removing_func_tail.
  rewrite bool_decide_eq_false_2 by lia.
  set (warn := absent_owner_warning pfn bounds
    "removing_func_tail: Promoting contents but function was not found in the owners of chunk").
  set (body := λ p : Z * string,
         [Do (Dec (Contents pfn) p.1 p.2); Do (Inc Globals p.1 p.2);
          Say DEBUG "removing_func_tail: Exchanging reference count"]).
  exists (warn ++ flat_map body (tail_tags bounds)). split.
  - rewrite <- run_script_returns, run_script_app. unfold bind.
    assert (E : ∀ w, when (bool_decide (pfn ∉ chunk_owners bounds.1))
                  (log WARNING "removing_func_tail: Promoting contents but function was not found in the owners of chunk") w
                = run_script warn w).
    { intros w'. unfold warn, absent_owner_warning. destruct (bool_decide _); reflexivity. }
    rewrite E, run_script_returns. unfold tail_tags. rewrite <- flat_map_pairs.
    apply for_each_script. intros ea w'. apply for_each_script. intros k w''. reflexivity.
  - rewrite ops_of_app. unfold warn, absent_owner_warning.
    destruct (bool_decide _); simpl; rewrite ops_of_flat_map; reflexivity.
Qed.

End tails.

Section tail_symmetry.
Context {host : Idaapi}.

(** How many addresses of the tail carry a key, and how many keys an
    address of the tail carries. *)
Definition carried (key : string) (bounds : Z * Z) : nat :=
  hits (λ p : Z * string, bool_decide (p.2 = key)) (tail_tags bounds).

Definition keys_at (ea : Z) (bounds : Z * Z) : nat :=
  hits (λ p : Z * string, bool_decide (p.1 = ea)) (tail_tags bounds).

Ltac group_cases :=
  let E := fresh "E" in
  intros ? ?; simpl;
  match goal with
  | |- context [bool_decide ?P] =>
      destruct (bool_decide P) eqn:E;
      [apply bool_decide_eq_true in E | apply bool_decide_eq_false in E]
  | _ => idtac
  end;
  repeat match goal with
    | |- context [decide ?P] => destruct (decide P)
    end;
  first [reflexivity | exfalso; intuition congruence].

Lemma demote_tag_count pfn ps L ns key :
  tag_count (apply_ops (flat_map (demote_calls pfn) ps) L) ns key =
  match ns with
  | Globals => (tag_count L ns key - hits (λ p : Z * string, bool_decide (p.2 = key)) ps)%nat
  | Contents fn =>
      if decide (fn = pfn)
      then (tag_count L ns key + hits (λ p : Z * string, bool_decide (p.2 = key)) ps)%nat
      else tag_count L ns key
  end.
Proof.
  rewrite tag_count_apply_ops. destruct ns as [|fn].
  - rewrite <- iter_pred. apply fold_groups. group_cases.
  - destruct (decide (fn = pfn)) as [->|Hne].
    + rewrite <- iter_S. apply fold_groups. group_cases.
    + rewrite (fold_groups _ _ (λ _, false) id); [apply iter_id|]. group_cases.
Qed.

Lemma promote_tag_count pfn ps L ns key :
  tag_count (apply_ops (flat_map (promote_calls pfn) ps) L) ns key =
  match ns with
  | Globals => (tag_count L ns key + hits (λ p : Z * string, bool_decide (p.2 = key)) ps)%nat
  | Contents fn =>
      if decide (fn = pfn)
      then (tag_count L ns key - hits (λ p : Z * string, bool_decide (p.2 = key)) ps)%nat
      else tag_count L ns key
  end.
Proof.
  rewrite tag_count_apply_ops. destruct ns as [|fn].
  - rewrite <- iter_S. apply fold_groups. group_cases.
  - destruct (decide (fn = pfn)) as [->|Hne].
    + rewrite <- iter_pred. apply fold_groups. group_cases.
    + rewrite (fold_groups _ _ (λ _, false) id); [apply iter_id|]. group_cases.
Qed.

Lemma demote_ref_count pfn ps L ns ea :
  ref_count (apply_ops (flat_map (demote_calls pfn) ps) L) ns ea =
  match ns with
  | Globals => (ref_count L ns ea - hits (λ p : Z * string, bool_decide (p.1 = ea)) ps)%nat
  | Contents fn =>
      if decide (fn = pfn)
      then (ref_count L ns ea + hits (λ p : Z * string, bool_decide (p.1 = ea)) ps)%nat
      else ref_count L ns ea
  end.
Proof.
  rewrite ref_count_apply_ops. destruct ns as [|fn].
  - rewrite <- iter_pred. apply fold_groups. group_cases.
  - destruct (decide (fn = pfn)) as [->|Hne].
    + rewrite <- iter_S. apply fold_groups. group_cases.
    + rewrite (fold_groups _ _ (λ _, false) id); [apply iter_id|]. group_cases.
Qed.

Lemma promote_ref_count pfn ps L ns ea :
  ref_count (apply_ops (flat_map (promote_calls pfn) ps) L) ns ea =
  match ns with
  | Globals => (ref_count L ns ea + hits (λ p : Z * string, bool_decide (p.1 = ea)) ps)%nat
  | Contents fn =>
      if decide (fn = pfn)
      then (ref_count L ns ea - hits (λ p : Z * string, bool_decide (p.1 = ea)) ps)%nat
      else ref_count L ns ea
  end.
Proof.
  rewrite ref_count_apply_ops. destruct ns as [|fn].
  - rewrite <- iter_S. apply fold_groups. group_cases.
  - destruct (decide (fn = pfn)) as [->|Hne].
    + rewrite <- iter_pred. apply fold_groups. group_cases.
    + rewrite (fold_groups _ _ (λ _, false) id); [apply iter_id|]. group_cases.
Qed.


End tail_symmetry.

(** * Examples *)

(** A database with one function at 0x500, whose body is [0x500, 0x520) and
    which owns alone the tail [0x600, 0x610); the address 0x510 of the body
    and the address 0x600 of the tail carry the tag [name1]. *)
Definition in_range (l r ea : Z) : bool := bool_decide (l ≤ ea < r).

Definition tail_host : Idaapi :=
  {| get_func := λ ea, if in_range 0x500 0x520 ea || in_range 0x600 0x610 ea
                       then Some 0x500 else None;
     seg_is_xtrn := λ _, false;
     flags_is_data := λ _, false;
     is_identifier := λ ea, bool_decide (0xff00000000000000 ≤ ea);
     address_within := λ ea, bool_decide (0x400 ≤ ea < 0x1000);
     version_lt_7_0 := false;
     set_cmt_raises := λ _ _, false;
     database_type := λ _, None;
     database_type_data := λ _, ("", "");
     database_functions := [0x500];
     function_chunks := λ fn, if bool_decide (fn = 0x500)
                              then [(0x500, 0x520); (0x600, 0x610)] else [];
     address_prev := λ ea, ea - 1;
     address_iterate := λ l r, if bool_decide (l = 0x500) then [0x500; 0x510]
                               else if bool_decide (l = 0x600) then [0x600] else [];
     bounds_iterate := λ b, if bool_decide (b.1 = 0x600) then [0x600] else [];
     database_tag := λ ea, if bool_decide (ea = 0x510) || bool_decide (ea = 0x600)
                           then {["name1" := "value1"]} else ∅;
     import_names := [];
     chunk_owners := λ ea, if bool_decide (ea = 0x600) then [0x500] else [];
     get_fchunk := λ _, None;
     netnode_fails := λ _, false |}.

Lemma wf_ready_world : wf ready_world.
Proof.
  split.
  - intros k i Hk. simpl in Hk. rewrite lookup_empty in Hk. discriminate.
  - intros i c Hi. simpl in Hi. rewrite lookup_nil in Hi. discriminate.
Defined.

Lemma wf_loading_world : wf loading_world.
Proof.
  split.
  - intros k i Hk. simpl in Hk. rewrite lookup_empty in Hk. discriminate.
  - intros i c Hi. simpl in Hi. rewrite lookup_nil in Hi. discriminate.
Defined.

(** Scenario 1 of the specification, run: the changing and the changed
    notification for the comment ["key1:value1"] at 0x401000. *)
Definition scenario1 : World :=
  let w1 := world_of (@address_changing flat_host line_codec 0x401000 true "key1:value1"
                        ready_world) in
  let w1' := set_comments (<[(0x401000, true) := "key1:value1"]> (comments w1)) w1 in
  world_of (@address_changed flat_host line_codec 0x401000 true w1').

Example scenario1_counts_key1 :
  globals_count (ledger scenario1) "key1" = 1%nat ∧
  globals_refs (ledger scenario1) 0x401000 = 1%nat ∧
  states scenario1 = ∅ ∧ disabled scenario1 = ∅.
Proof. vm_compute. repeat split. Qed.


(** Two changing notifications in a row for 0x401000. *)
Lemma second_changing_closes_the_stale_state_witness :
  ∃ w1 w2,
    @address_changing flat_host line_codec 0x401000 true "key1:value1" ready_world
      = Return tt w1 ∧
    @address_changing flat_host line_codec 0x401000 true "key2:value2" w1 = Return tt w2 ∧
    heap w2 !! 0%nat = Some (Coroutine address 0x401000 C_closed) ∧
    states w2 !! (address, 0x401000) = Some (length (heap w1)).
Proof.
  destruct (@second_changing_closes_the_stale_state flat_host line_codec 0x401000
              true "key1:value1" true "key2:value2" ready_world wf_ready_world eq_refl eq_refl)
    as (_ & w1 & w2 & E1 & E2 & _ & _ & _ & _ & Hc & Hs & _).
  exists w1, w2. split; [exact E1|]. split; [exact E2|]. split; [exact Hc | exact Hs].
Defined.

Example stale_state_commits_nothing :
  let w1 := world_of (@address_changing flat_host line_codec 0x401000 true "key1:value1"
                        ready_world) in
  let w2 := world_of (@address_changing flat_host line_codec 0x401000 true "key2:value2" w1) in
  calls (trace w1) = [Inc Globals 0x401000 "key1"] ∧
  calls (trace w2) = [Inc Globals 0x401000 "key1"; Inc Globals 0x401000 "key2"] ∧
  (co_state <$> heap w2) = [C_closed;
     C_feed (U_address 0x401000 true "key2:value2" None ∅ {["key2" := "value2"]})].
Proof. vm_compute. repeat split. Qed.

(** The calls that would take back a list of calls. *)
Definition inverse (o : op) : op :=
  match o with
  | Inc ns ea key => Dec ns ea key
  | Dec ns ea key => Inc ns ea key
  | SetAddress ns ea n => SetAddress ns ea n
  end.

Definition undo (ops : list op) : list op := inverse <$> reverse ops.

(** The address 0x401000 carries the tag [a], and is counted; its
    repeatable comment is changing to the tag [b], and a changed
    notification for its other comment comes in. *)
Definition tagged_world : World :=
  MkWorld (Some ready) (globals_inc 0x401000 "a" empty_ledger)
    {[(0x401000, true) := "a:1"]} ∅ ∅ [] ∅ [].

Definition out_of_sync_changing : World :=
  world_of (@address_changing flat_host line_codec 0x401000 true "b:2" tagged_world).

Definition out_of_sync_changed : Result unit :=
  @address_changed flat_host line_codec 0x401000 false
    (set_comments (<[(0x401000, true) := "b:2"]> (comments out_of_sync_changing))
       out_of_sync_changing).

(** C3 does not hold as it is stated: the calls that were made while
    changing are not inverted, and the ledger is not what it was before the
    changing notification, although the comment that the changed
    notification reports has no tags to rebuild it from. *)
Lemma out_of_sync_does_not_invert :
  let changing_calls := calls (trace out_of_sync_changing) in
  let changed_calls :=
    calls (drop (length (trace out_of_sync_changing)) (trace (world_of out_of_sync_changed))) in
  (∃ w, out_of_sync_changed = Return tt w) ∧
  changing_calls = [Dec Globals 0x401000 "a"; Inc Globals 0x401000 "b"] ∧
  changed_calls = [Dec Globals 0x401000 "a"] ∧
  changed_calls ≠ undo changing_calls ∧
  @decode_opt line_codec (comments (world_of out_of_sync_changed) !! (0x401000, false)) = ∅ ∧
  globals_count (ledger tagged_world) "a" = 1%nat ∧
  globals_count (ledger tagged_world) "b" = 0%nat ∧
  globals_count (ledger (world_of out_of_sync_changed)) "a" = 0%nat ∧
  globals_count (ledger (world_of out_of_sync_changed)) "b" = 1%nat.
Proof.
  cbv zeta. split; [eexists; vm_compute; reflexivity|].
  split; [vm_compute; reflexivity|]. split; [vm_compute; reflexivity|].
  split; [vm_compute; discriminate|].
  repeat split; vm_compute; reflexivity.
Qed.

Lemma out_of_sync_deletes_the_old_refs_witness :
  ∃ w' added rest,
    @address_updater flat_host line_codec
      (U_address 0x401000 true "b:2" (Some "a:1") {["a" := "1"]} {["b" := "2"]})
      (P_comment 0x401000 false None) tagged_world = Return Returned w' ∧
    trace w' = trace tagged_world ++ added ∧
    added = Log FATAL out_of_sync_message :: rest ∧
    comments w' = <[(0x401000, true) := ""]> (comments tagged_world).
Proof.
  destruct (@out_of_sync_deletes_the_old_refs flat_host line_codec 0x401000 true "b:2"
              (Some "a:1") {["a" := "1"]} {["b" := "2"]} 0x401000 false None tagged_world)
    as [Ha _]; [discriminate|].
  destruct (Ha eq_refl) as (w' & added & rest & E & T & A & _ & C & _).
  exists w', added, rest. split; [exact E|]. split; [exact T|]. split; [exact A | exact C].
Defined.


Definition counted_world : World :=
  MkWorld (Some ready) (globals_inc 0x600 "name1" empty_ledger) ∅ ∅ ∅ [] ∅ [].


(** The host refuses the write of the changed notification: the handler is
    left by the exception, and the hooks are enabled again. *)
Definition refused_changing : World :=
  world_of (@address_changing failing_host line_codec 0x401000 true "key1:value1" ready_world).

Example refused_write_enables_hooks :
  ∃ w, @address_changed failing_host line_codec 0x401000 true refused_changing
         = Raise HostError w ∧
       disabled w = ∅ ∧
       filter (λ e, is_write e = true) (trace w)
         = [SetCmt 0x401000 "key1:value1" true {["changing_cmt"; "cmt_changed"]}].
Proof. eexists. vm_compute. repeat split. Qed.


Lemma handlers_wait_for_ready_witness :
  ignored (@address_changing flat_host line_codec 0x401000 true "key1:value1") loading_world ∧
  ignored (@typeinfo_changed flat_host line_codec 0x401000 (Some "int") None) loading_world.
Proof.
  destruct (@handlers_wait_for_ready flat_host line_codec loading_world)
    as (H1 & _ & _ & _ & _ & _ & _ & H8); [discriminate|].
  split; [apply H1 | apply H8].
Defined.

(** C8 does not hold as it is stated: the address 0x10 is outside of the
    database, and the changing notification of a comment at it makes a
    state and counts the tag. *)
Lemma comment_outside_database_is_tracked :
  let r := @address_changing flat_host line_codec 0x10 true "key1:value1" ready_world in
  @address_within flat_host 0x10 = false ∧
  ¬ ignored (@address_changing flat_host line_codec 0x10 true "key1:value1") ready_world ∧
  states (world_of r) !! (address, 0x10) = Some 0%nat ∧
  calls (trace (world_of r)) = [Inc Globals 0x10 "key1"].
Proof.
  cbv zeta. split; [reflexivity|]. split.
  - intros (msg & E). apply (f_equal (λ r, states (world_of r) !! (address, 0x10))) in E.
    vm_compute in E. discriminate.
  - split; vm_compute; reflexivity.
Qed.

Lemma out_of_bounds_ignored_by_typeinfo_witness :
  ignored (@typeinfo_changing flat_host line_codec 0x10 (Some "int") None) ready_world ∧
  ignored (@address_changing flat_host line_codec 0xff00000000000001 true "key1:value1")
    ready_world.
Proof.
  destruct (@out_of_bounds_ignored_by_typeinfo flat_host line_codec 0x10 ready_world)
    as [Ht _].
  destruct (@out_of_bounds_ignored_by_typeinfo flat_host line_codec 0xff00000000000001
              ready_world) as [_ Ha].
  split.
  - apply (Ht eq_refl).
  - apply (Ha eq_refl).
Defined.

Definition is_fatal (e : event) : bool :=
  match e with
  | Log FATAL _ => true
  | _ => false
  end.

(** C9 does not hold as it is stated: a changed notification without a
    changing one leaves [address.changed] by the error of [resume], and
    nothing is logged at fatal level. *)
Lemma changed_without_changing_raises :
  ∃ w, @address_changed flat_host line_codec 0x401000 true ready_world
         = Raise AddressNotFoundError w ∧
       filter (λ e, is_fatal e = true) (trace w) = [].
Proof. eexists. vm_compute. split; reflexivity. Qed.

Lemma resume_finds_pending_state_witness :
  @resume address 0x401000 ready_world = Raise AddressNotFoundError ready_world ∧
  @address_changed flat_host line_codec 0x401000 true ready_world =
    Raise AddressNotFoundError (emit (Log DEBUG "Received comment.changed event") ready_world).
Proof.
  destruct (@resume_finds_pending_state flat_host line_codec address 0x401000 ready_world)
    as (_ & Hr & Ha & _).
  split.
  - apply Hr. reflexivity.
  - apply (Ha eq_refl eq_refl eq_refl).
Defined.

(** ** The initial build of the cache *)

Section cache_build.
Context {host : Idaapi}.

(** The tags of a function: every address of every chunk, with every key. *)
Definition function_tags (fn : Z) : list (Z * string) :=
  flat_map (λ c : Z * Z,
      flat_map (λ ea, pair ea <$> tag_keys ea) (address_iterate c.1 (address_prev c.2)))
    (function_chunks fn).

Definition build_steps (globals contents : gset Z) (fn : Z) (p : Z * string) : list step :=
  (if bool_decide (p.1 ∈ globals) then [Do (Dec Globals p.1 p.2)] else []) ++
  (if bool_decide (p.1 ∉ contents) then [Do (Inc (Contents fn) p.1 p.2)] else []).

Definition function_script (globals contents : gset Z) (fn : Z) : list step :=
  flat_map (build_steps globals contents fn) (function_tags fn).

Definition known_addresses (L : Ledger) (fn : Z) : gset Z :=
  dom (blob_addresses (contents_read L fn)).

(** The script of the whole build: the addresses of the contents of a
    function are read when the function is reached. *)
Fixpoint build_script (globals : gset Z) (fns : list Z) (L : Ledger) : list step :=
  match fns with
  | [] => []
  | fn :: rest =>
      if bool_decide (fn ∈ import_names) then build_script globals rest L
      else
        let s := function_script globals (known_addresses L fn) fn in
        s ++ build_script globals rest (apply_ops (ops_of s) L)
  end.

Lemma function_loop_script globals contents fn w :
  for_each (function_chunks fn) (λ '(l, r),
    for_each (address_iterate l (address_prev r)) (λ ea,
      for_each (tag_keys ea) (λ k,
        when (bool_decide (ea ∈ globals)) (call (Dec Globals ea k)) ;;;
        when (bool_decide (ea ∉ contents)) (call (Inc (Contents fn) ea k))))) w =
  run_script (function_script globals contents fn) w.
Proof.
  unfold function_script, function_tags.
  rewrite (for_each_script _ _
    (λ c : Z * Z, flat_map (build_steps globals contents fn)
                    (flat_map (λ ea, pair ea <$> tag_keys ea)
                       (address_iterate c.1 (address_prev c.2))))).
  - f_equal. induction (function_chunks fn) as [|c cs IH]; [reflexivity|].
    simpl. rewrite flat_map_app, IH. reflexivity.
  - intros [l r] w'. simpl fst. simpl snd.
    rewrite <- flat_map_pairs. apply for_each_script. intros ea w''.
    apply for_each_script. intros k w3. unfold build_steps. simpl fst. simpl snd.
    rewrite run_script_app. unfold bind, when.
    destruct (bool_decide (ea ∈ globals)), (bool_decide (ea ∉ contents)); reflexivity.
Qed.

Lemma build_loop_script globals fns w :
  for_each fns (λ fn,
    if bool_decide (fn ∈ import_names) then ret tt
    else
      L <- get_ledger ;;;
      for_each (function_chunks fn) (λ '(l, r),
        for_each (address_iterate l (address_prev r)) (λ ea,
          for_each (tag_keys ea) (λ k,
            when (bool_decide (ea ∈ globals)) (call (Dec Globals ea k)) ;;;
            when (bool_decide (ea ∉ dom (blob_addresses (contents_read L fn))))
              (call (Inc (Contents fn) ea k)))))) w =
  run_script (build_script globals fns (ledger w)) w.
Proof.
  revert w. induction fns as [|fn rest IH]; intros w; [reflexivity|].
  cbn [for_each build_script]. unfold bind at 1.
  destruct (bool_decide (fn ∈ import_names)).
  - unfold ret at 1. apply IH.
  - unfold bind at 1, get_ledger at 1.
    rewrite function_loop_script, run_script_returns.
    rewrite IH, played_ledger, run_script_app. unfold bind, known_addresses.
    rewrite !run_script_returns. reflexivity.
Qed.

Lemma process_functions_script w :
  process_functions w =
  Return tt (played (build_script (dom (netnode_alt (ledger w))) database_functions (ledger w)
                       ++ [Say INFO "Successfully built tag-cache"]) w).
Proof.
  unfold process_functions.
  rewrite (bind_Return get_ledger _ w (ledger w) w eq_refl). cbv zeta.
  pose proof (build_loop_script (dom (netnode_alt (ledger w))) database_functions w) as E.
  rewrite run_script_returns in E. rewrite (bind_Return _ _ _ _ _ E).
  rewrite played_app. reflexivity.
Qed.

End cache_build.

Definition op_namespace (o : op) : namespace :=
  match o with
  | Inc ns _ _ | Dec ns _ _ | SetAddress ns _ _ => ns
  end.

Lemma contents_read_apply_op o L fn :
  op_namespace o ≠ Contents fn → contents_read (apply_op o L) fn = contents_read L fn.
Proof.
  intros Hns. destruct o as [[|fn'] ea key|[|fn'] ea key|[|fn'] ea n]; simpl in *;
    try reflexivity;
    unfold contents_inc, contents_dec, contents_set_address;
    rewrite contents_read_insert; destruct (decide (fn' = fn)); congruence.
Qed.

Lemma contents_read_apply_ops ops L fn :
  (∀ o, o ∈ ops → op_namespace o ≠ Contents fn) →
  contents_read (apply_ops ops L) fn = contents_read L fn.
Proof.
  revert L. induction ops as [|o ops IH]; intros L Hns; [reflexivity|].
  change (apply_ops (o :: ops) L) with (apply_ops ops (apply_op o L)).
  rewrite IH by (intros o' Ho'; apply Hns; right; exact Ho').
  apply contents_read_apply_op. apply Hns. left.
Qed.

Lemma flat_map_ext_elem {A B} (f g : A → list B) (l : list A) :
  (∀ x, x ∈ l → f x = g x) → flat_map f l = flat_map g l.
Proof.
  intros E. induction l as [|x l IH]; [reflexivity|]. simpl.
  rewrite (E x) by left. rewrite IH; [reflexivity|].
  intros y Hy. apply E. right. exact Hy.
Qed.

Section cache_build_calls.
Context {host : Idaapi}.

(** An address of a chunk of a function that is not imported carries a key. *)
Definition visited (fn ea : Z) (key : string) : Prop :=
  fn ∈ database_functions ∧ (fn ∉ import_names) ∧
  ∃ l r, (l, r) ∈ function_chunks fn ∧ ea ∈ address_iterate l (address_prev r) ∧
         key ∈ dom (database_tag ea).

Lemma elem_of_function_tags fn ea key :
  (ea, key) ∈ function_tags fn ↔
  ∃ l r, (l, r) ∈ function_chunks fn ∧ ea ∈ address_iterate l (address_prev r) ∧
         key ∈ dom (database_tag ea).
Proof.
  unfold function_tags. rewrite list_elem_of_In, in_flat_map. split.
  - intros ([l r] & Hc & Hp). apply in_flat_map in Hp as (ea' & Hea & Hk).
    apply list_elem_of_In, list_elem_of_fmap in Hk as (k & Hk & Hin). simplify_eq.
    exists l, r. split; [apply list_elem_of_In; exact Hc|].
    split; [apply list_elem_of_In; exact Hea|].
    unfold tag_keys in Hin. apply elem_of_elements in Hin. exact Hin.
  - intros (l & r & Hc & Hea & Hk). exists (l, r). split; [apply list_elem_of_In; exact Hc|].
    apply in_flat_map. exists ea. split; [apply list_elem_of_In; exact Hea|].
    apply list_elem_of_In, list_elem_of_fmap. exists key. split; [reflexivity|].
    unfold tag_keys. apply elem_of_elements. exact Hk.
Qed.

Lemma function_script_calls globals contents fn c :
  c ∈ ops_of (function_script globals contents fn) ↔
  ∃ ea key, (ea, key) ∈ function_tags fn ∧
            ((c = Dec Globals ea key ∧ ea ∈ globals) ∨
             (c = Inc (Contents fn) ea key ∧ ea ∉ contents)).
Proof.
  unfold function_script. rewrite ops_of_flat_map, list_elem_of_In, in_flat_map. split.
  - intros ([ea key] & Hp & Hc). exists ea, key.
    split; [apply list_elem_of_In; exact Hp|].
    unfold build_steps in Hc. rewrite ops_of_app in Hc. simpl fst in Hc. simpl snd in Hc.
    apply in_app_or in Hc as [Hc|Hc].
    + destruct (bool_decide (ea ∈ globals)) eqn:E; [|destruct Hc].
      apply bool_decide_eq_true in E. destruct Hc as [<-|[]]. left. split; [reflexivity | exact E].
    + destruct (bool_decide (ea ∉ contents)) eqn:E; [|destruct Hc].
      apply bool_decide_eq_true in E. destruct Hc as [<-|[]]. right. split; [reflexivity | exact E].
  - intros (ea & key & Hp & Hc). exists (ea, key).
    split; [apply list_elem_of_In; exact Hp|].
    unfold build_steps. rewrite ops_of_app. simpl fst. simpl snd. apply in_or_app.
    destruct Hc as [[-> Hg]|[-> Hk]].
    + left. rewrite bool_decide_eq_true_2 by exact Hg. left. reflexivity.
    + right. rewrite bool_decide_eq_true_2 by exact Hk. left. reflexivity.
Qed.

Lemma function_script_namespace globals contents fn fn' c :
  fn ≠ fn' → c ∈ ops_of (function_script globals contents fn) →
  op_namespace c ≠ Contents fn'.
Proof.
  intros Hne Hc. apply function_script_calls in Hc as (ea & key & _ & [[-> _]|[-> _]]);
    simpl; congruence.
Qed.

(** When no function is listed twice, the addresses that are known of the
    contents of a function when it is reached are those known at the start. *)
Lemma build_script_calls globals fns L :
  NoDup fns →
  ops_of (build_script globals fns L) =
  flat_map (λ fn, if bool_decide (fn ∈ import_names) then []
                  else ops_of (function_script globals (known_addresses L fn) fn)) fns.
Proof.
  intros Hnd. revert L. induction Hnd as [|fn rest Hfn Hnd IH]; intros L; [reflexivity|].
  cbn [build_script flat_map].
  destruct (bool_decide (fn ∈ import_names)); [apply IH|].
  rewrite ops_of_app, IH. f_equal.
  apply flat_map_ext_elem. intros fn' Hin.
  destruct (bool_decide (fn' ∈ import_names)); [reflexivity|].
  unfold known_addresses. rewrite contents_read_apply_ops; [reflexivity|].
  intros o Ho. eapply function_script_namespace; [|exact Ho].
  intros ->. contradiction.
Qed.

(** The calls of the walk of one function, in the order of the walk: the
    chunks, the addresses of a chunk, the keys of an address. *)
Lemma function_script_ops globals contents fn :
  ops_of (function_script globals contents fn) =
  flat_map (λ c : Z * Z,
      flat_map (λ ea,
          flat_map (λ key,
              (if bool_decide (ea ∈ globals) then [Dec Globals ea key] else []) ++
              (if bool_decide (ea ∉ contents) then [Inc (Contents fn) ea key] else []))
            (elements (dom (database_tag ea))))
        (address_iterate c.1 (address_prev c.2)))
    (function_chunks fn).
Proof.
  unfold function_script, function_tags. rewrite ops_of_flat_map.
  induction (function_chunks fn) as [|c cs IH]; [reflexivity|].
  cbn [flat_map]. rewrite flat_map_app, IH. f_equal.
  rewrite <- (flat_map_pairs (λ p, ops_of (build_steps globals contents fn p))).
  apply flat_map_ext_elem. intros ea _. apply flat_map_ext_elem. intros key _.
  unfold build_steps. rewrite ops_of_app. cbn [fst snd].
  destruct (bool_decide (ea ∈ globals)), (bool_decide (ea ∉ contents)); reflexivity.
Qed.

End cache_build_calls.

Section cache_build_property.
Context {host : Idaapi}.

(** C7, as the code has it: when the database becomes ready, the build
    walks every function that is not an import, every chunk of it and every
    address of the chunk; for a key that it finds at an address it
    decrements the key in the globals, once, if the address was in the
    globals when the build started, and it increments the key in the
    contents of the function, once, only if the address was not yet among
    the addresses of these contents.  It makes no other call: the calls
    are these, one walk after the other. *)
Theorem cache_build_counts_new_addresses w :
  NoDup database_functions →
  (State w = Some loaded → on_ready w = process_functions (set_State (Some ready) w)) ∧
  ∃ w' added,
    process_functions w = Return tt w' ∧
    trace w' = trace w ++ added ∧
    ledger w' = apply_ops (calls added) (ledger w) ∧
    calls added =
      flat_map (λ fn,
          if bool_decide (fn ∈ import_names) then []
          else
            flat_map (λ c : Z * Z,
                flat_map (λ ea,
                    flat_map (λ key,
                        (if bool_decide (ea ∈ dom (netnode_alt (ledger w)))
                         then [Dec Globals ea key] else []) ++
                        (if bool_decide (ea ∉ known_addresses (ledger w) fn)
                         then [Inc (Contents fn) ea key] else []))
                      (elements (dom (database_tag ea))))
                  (address_iterate c.1 (address_prev c.2)))
              (function_chunks fn))
        database_functions ∧
    (∀ ea key, Dec Globals ea key ∈ calls added ↔
               (∃ fn, visited fn ea key) ∧ ea ∈ dom (netnode_alt (ledger w))) ∧
    (∀ fn ea key, Inc (Contents fn) ea key ∈ calls added ↔
                  visited fn ea key ∧ ea ∉ known_addresses (ledger w) fn) ∧
    (∀ c, c ∈ calls added →
          (∃ ea key, c = Dec Globals ea key) ∨ (∃ fn ea key, c = Inc (Contents fn) ea key)).
Proof.
  intros Hnd. split.
  { intros Hs. unfold on_ready, bind, get_State. rewrite Hs. reflexivity. }
  set (globals := dom (netnode_alt (ledger w))).
  set (script := build_script globals database_functions (ledger w)
                 ++ [Say INFO "Successfully built tag-cache"]).
  destruct (played_trace script w) as (added & T & C & _).
  exists (played script w), added.
  split; [apply process_functions_script|]. split; [exact T|].
  split; [rewrite C; apply played_ledger|].
  split.
  { rewrite C. unfold script. rewrite ops_of_app. simpl (ops_of [_]).
    rewrite app_nil_r, (build_script_calls _ _ _ Hnd).
    apply flat_map_ext_elem. intros fn _.
    destruct (bool_decide (fn ∈ import_names)); [reflexivity|].
    apply function_script_ops. }
  assert (Hcalls : ∀ c, c ∈ calls added ↔
            ∃ fn, fn ∈ database_functions ∧ (fn ∉ import_names) ∧
                  c ∈ ops_of (function_script globals (known_addresses (ledger w) fn) fn)).
  { intros c. rewrite C. unfold script. rewrite ops_of_app. simpl (ops_of [_]).
    rewrite app_nil_r, (build_script_calls _ _ _ Hnd), list_elem_of_In, in_flat_map. split.
    - intros (fn & Hfn & Hc). exists fn. split; [apply list_elem_of_In; exact Hfn|].
      destruct (bool_decide (fn ∈ import_names)) eqn:E; [destruct Hc|].
      apply bool_decide_eq_false in E. split; [exact E | apply list_elem_of_In; exact Hc].
    - intros (fn & Hfn & Himp & Hc). exists fn. split; [apply list_elem_of_In; exact Hfn|].
      rewrite bool_decide_eq_false_2 by exact Himp. apply list_elem_of_In. exact Hc. }
  split; [|split].
  - intros ea key. rewrite Hcalls. split.
    + intros (fn & Hfn & Himp & Hc).
      apply function_script_calls in Hc as (ea' & key' & Hp & [[Hc Hg]|[Hc _]]);
        [|discriminate].
      injection Hc as <- <-. split; [|exact Hg].
      exists fn. split; [exact Hfn|]. split; [exact Himp|].
      apply elem_of_function_tags. exact Hp.
    + intros ((fn & Hfn & Himp & Hv) & Hg). exists fn. split; [exact Hfn|].
      split; [exact Himp|]. apply function_script_calls. exists ea, key.
      split; [apply elem_of_function_tags; exact Hv|]. left. split; [reflexivity | exact Hg].
  - intros fn ea key. rewrite Hcalls. split.
    + intros (fn' & Hfn & Himp & Hc).
      apply function_script_calls in Hc as (ea' & key' & Hp & [[Hc _]|[Hc Hk]]);
        [discriminate|].
      injection Hc as <- <- <-. split; [|exact Hk].
      split; [exact Hfn|]. split; [exact Himp|]. apply elem_of_function_tags. exact Hp.
    + intros ((Hfn & Himp & Hv) & Hk). exists fn. split; [exact Hfn|].
      split; [exact Himp|]. apply function_script_calls. exists ea, key.
      split; [apply elem_of_function_tags; exact Hv|]. right. split; [reflexivity | exact Hk].
  - intros c Hc. apply Hcalls in Hc as (fn & _ & _ & Hc).
    apply function_script_calls in Hc as (ea & key & _ & [[-> _]|[-> _]]).
    + left. exists ea, key. reflexivity.
    + right. exists fn, ea, key. reflexivity.
Qed.

End cache_build_property.

(** The contents of the function 0x500 already hold the address 0x510, for
    another tag. *)
Definition stale_contents_world : World :=
  MkWorld (Some loaded) (contents_inc 0x500 0x510 "other" empty_ledger) ∅ ∅ ∅ [] ∅ [].

(** C7 does not hold as it is stated: the tag [name1] is found at the address
    0x510 of the function 0x500, and it is not incremented in the contents
    of the function, which count it once (for the address 0x600) although
    two addresses of the function carry it. *)
Lemma cache_build_skips_known_address :
  let w := world_of (@on_ready tail_host stale_contents_world) in
  State w = Some ready ∧
  @database_tag tail_host 0x510 !! "name1" = Some "value1" ∧
  0x510 ∈ @address_iterate tail_host 0x500 (@address_prev tail_host 0x520) ∧
  (0x500, 0x520) ∈ @function_chunks tail_host 0x500 ∧
  calls (trace w) = [Inc (Contents 0x500) 0x600 "name1"] ∧
  (Inc (Contents 0x500) 0x510 "name1" ∉ calls (trace w)) ∧
  contents_count (ledger w) 0x500 "name1" = 1%nat.
Proof.
  cbv zeta.
  assert (E : calls (trace (world_of (@on_ready tail_host stale_contents_world)))
              = [Inc (Contents 0x500) 0x600 "name1"]) by (vm_compute; reflexivity).
  split; [vm_compute; reflexivity|]. split; [vm_compute; reflexivity|].
  split; [apply list_elem_of_In; right; left; reflexivity|].
  split; [apply list_elem_of_In; left; reflexivity|].
  split; [exact E|]. split; [|vm_compute; reflexivity].
  rewrite E. intros Hin. apply list_elem_of_singleton in Hin. discriminate.
Qed.

Lemma cache_build_counts_new_addresses_witness :
  ∃ w' added,
    @process_functions tail_host stale_contents_world = Return tt w' ∧
    trace w' = trace stale_contents_world ++ added ∧
    ledger w' = apply_ops (calls added) (ledger stale_contents_world) ∧
    calls added = [Inc (Contents 0x500) 0x600 "name1"].
Proof.
  destruct (@cache_build_counts_new_addresses tail_host stale_contents_world)
    as (_ & w' & added & E & T & L & C & _).
  - apply NoDup_cons. split; [apply not_elem_of_nil | apply NoDup_nil; exact I].
  - exists w', added. split; [exact E|]. split; [exact T|]. split; [exact L|].
    rewrite C. vm_compute. reflexivity.
Defined.

(** * Relocation of the cache *)

(** The order of tuples of an address and a count. *)
Definition pair_le (p q : Z * nat) : Prop := p.1 < q.1 ∨ (p.1 = q.1 ∧ (p.2 ≤ q.2)%nat).

#[global] Instance pair_le_dec p q : Decision (pair_le p q).
Proof. unfold pair_le. apply _. Defined.

Section relocation.
Context {host : Idaapi}.

(** Modelled from the spec: the primitives of the low-level store, of
    internal.netnode and of [contents._read] and [contents._write] (not
    under src/): "get, set, remove -> ok"; a write or a removal that fails
    leaves the store as it is. *)
Definition alt_remove (ea : Z) : M bool :=
  λ w, if netnode_fails ea then Return false w
       else let L := ledger w in
            Return true (set_ledger (MkLedger (netnode_hash L) (delete ea (netnode_alt L))
                                       (netnode_sup L)) w).

Definition alt_set (ea : Z) (n : nat) : M bool :=
  λ w, if netnode_fails ea then Return false w
       else let L := ledger w in
            Return true (set_ledger (MkLedger (netnode_hash L) (<[ea := n]> (netnode_alt L))
                                       (netnode_sup L)) w).

Definition contents_read_raw (key : Z) : M (option blob) :=
  λ w, Return (netnode_sup (ledger w) !! key) w.

Definition contents_write (key : Z) (value : option blob) : M bool :=
  λ w, if netnode_fails key then Return false w
       else let L := ledger w in
            Return true (set_ledger (MkLedger (netnode_hash L) (netnode_alt L)
                                       (match value with
                                        | Some b => <[key := b]> (netnode_sup L)
                                        | None => delete key (netnode_sup L)
                                        end)) w).

Definition in_segment (base size ea : Z) : bool := bool_decide (base ≤ ea < base + size).

(** A loop that carries a value from one turn to the next. *)
Fixpoint fold_each {A S} (l : list A) (s : S) (body : A → S → M S) : M S :=
  match l with
  | [] => ret s
  | x :: l' => s' <- body x s ;;; fold_each l' s' body
  end.

(** The table of addresses of a blob, with every address moved. *)
Definition rekey (old new : Z) (b : blob) : blob :=
  Blob (b_tags b) (Some (kmap (λ ea, ea - old + new) (blob_addresses b))).

(** One turn of the first loop of [__relocate_function]: the contents of
    the function [fn] are read, erased at the old address, and stored for
    [fn] with every address moved.  [index] holds the addresses of the old
    range that have contents and were not met yet. *)
Definition relocate_contents (old new : Z) (moved : bool) (fn : Z) (index : gset Z)
  : M (gset Z) :=
  let offset := fn - new in
  let source := offset + old in
  let target := offset + new in
  state <- contents_read_raw (if moved then target else source) ;;;
  match state with
  | None =>
      log INFO "relocate_function: Skipping contents of function due to no state being stored" ;;;
      ret index
  | Some state =>
      _ <- contents_write source None ;;;
      log INFO "relocate_function: Cleared contents of function at old address" ;;;
      when (bool_decide (source ∉ index))
        (log WARNING "relocate_function: Found contents for function at old address that wasn't in index") ;;;
      let index := index ∖ {[source]} in
      when (bool_decide (b_address state = None))
        (log WARNING "relocate_function: Missing address cache while translating address") ;;;
      ok <- contents_write fn (Some (rekey old new state)) ;;;
      when (negb ok)
        (log FATAL "relocate_function: Failure trying to write reference count for function") ;;;
      log DEBUG "relocate_function: Relocated content locations for function" ;;;
      ret index
  end.

(** One turn of the second loop: the contents of an import leave the index. *)
Definition relocate_import (old new : Z) (ea : Z) (index : gset Z) : M (gset Z) :=
  let offset := ea - new in
  let source := offset + old in
  log INFO "relocate_function: Removing contents of runtime-linked function from index" ;;;
  _ <- contents_write source None ;;;
  if bool_decide (source ∈ index) then ret (index ∖ {[source]}) else raise KeyError.

(** One turn of the third loop: the contents that are left in the index
    are erased, but for those that the host has as a function at the new
    address. *)
Definition relocate_stray (old new : Z) (ea : Z) : M unit :=
  let offset := ea - old in
  let target := offset + new in
  keep <- match get_fchunk target with
          | None =>
              log WARNING "relocate_function: Contents should've been relocated but is not associated with a function" ;;;
              ret false
          | Some (true, _) =>
              log WARNING "relocate_function: Contents should've been relocated but is associated with more than one function" ;;;
              ret false
          | Some (false, start) =>
              if bool_decide (start ≠ target) then
                log WARNING "relocate_function: Contents should've been relocated but is not associated with the right function" ;;;
                ret false
              else
                log CRITICAL "relocate_function: Refusing to clean up index as it has been relocated to an address in use" ;;;
                ret true
          end ;;;
  if (keep : bool) then ret tt
  else
    _ <- contents_write ea None ;;;
    log DEBUG "relocate_function: Cleared stray contents".

(** [__relocate_function]; what it yields only drives the progress bar. *)
Definition relocate_function (old new size : Z) (iterable : list Z) (moved : bool) : M unit :=
  L0 <- get_ledger ;;;
  let index0 : gset Z := filter (λ ea, old ≤ ea < old + size) (dom (netnode_sup L0)) in
  index1 <- fold_each iterable index0 (relocate_contents old new moved) ;;;
  let imports : gset Z := list_to_set import_names in
  let items : gset Z := set_map (λ ea, ea - old + new) index1 in
  index2 <- fold_each (elements (items ∩ imports)) index1 (relocate_import old new) ;;;
  for_each (elements index2) (relocate_stray old new).

(** [__relocate_globals] *)
Definition relocate_globals (old new size : Z) (iterable : list (Z * nat)) : M unit :=
  for_each iterable (λ '(ea, count),
    let offset := ea - old in
    ok <- alt_remove ea ;;;
    when (negb ok) (log FATAL "relocate_globals: Failure trying to remove reference count") ;;;
    ok <- alt_set (new + offset) count ;;;
    when (negb ok) (log FATAL "relocate_globals: Failure trying to store reference count") ;;;
    log DEBUG "relocate_globals: Relocated count for global").

Definition segm_moved (source destination size : Z) (changed_netmap : bool) : M unit :=
  let functions :=
    merge_sort Z.le (filter (λ ea, destination ≤ ea < destination + size) database_functions) in
  L <- get_ledger ;;;
  let globals :=
    merge_sort pair_le
      (filter (λ p : Z * nat, source ≤ p.1 < source + size) (map_to_list (netnode_alt L))) in
  log INFO "segm_moved: Relocating tagcache for segment" ;;;
  relocate_function source destination size functions (negb changed_netmap) ;;;
  relocate_globals source destination size globals.

End relocation.

(** ** What relocation does to the globals *)

Definition globals_step (old new : Z) (m : gmap Z nat) (p : Z * nat) : gmap Z nat :=
  <[new + (p.1 - old) := p.2]> (delete p.1 m).

Lemma fold_globals_lookup old new (l : list (Z * nat)) (m : gmap Z nat) k :
  NoDup l.*1 →
  (∀ ea, ea ∈ l.*1 → new + (ea - old) ∉ l.*1) →
  fold_left (globals_step old new) l m !! k =
  match (list_to_map l : gmap Z nat) !! (k - new + old) with
  | Some c => Some c
  | None => if decide (k ∈ l.*1) then None else m !! k
  end.
Proof.
  revert m. induction l as [|[ea c] l IH]; intros m Hnd Hfree.
  - simpl. rewrite lookup_empty. destruct (decide (k ∈ [])) as [Hin|]; [|reflexivity].
    apply elem_of_nil in Hin. destruct Hin.
  - simpl in Hnd. apply NoDup_cons in Hnd as [Hea Hnd].
    cbn [fold_left]. rewrite IH; [|exact Hnd|].
    2:{ intros ea' Hin Hin'. apply (Hfree ea'); [right; exact Hin | right; exact Hin']. }
    cbn [list_to_map foldr fmap list_fmap fst]. unfold curry. cbn [fst snd].
    destruct (decide (k - new + old = ea)) as [Hk|Hk].
    + (* the entry of [ea] lands on [k] *)
      rewrite Hk, lookup_insert_eq.
      assert (Hnone : (list_to_map l : gmap Z nat) !! ea = None)
        by (apply not_elem_of_list_to_map; exact Hea).
      rewrite Hnone.
      assert (Hk' : k = new + (ea - old)) by lia.
      assert (Hnot : k ∉ l.*1).
      { rewrite Hk'. intros Hin. apply (Hfree ea); [left | right; exact Hin]. }
      rewrite decide_False by exact Hnot.
      unfold globals_step. cbn [fst snd]. rewrite Hk', lookup_insert_eq. reflexivity.
    + rewrite (lookup_insert_ne (list_to_map l)) by congruence.
      destruct ((list_to_map l : gmap Z nat) !! (k - new + old)) as [c'|] eqn:El; [reflexivity|].
      destruct (decide (k ∈ l.*1)) as [Hin|Hnin].
      * rewrite decide_True by (right; exact Hin). reflexivity.
      * unfold globals_step. cbn [fst snd]. rewrite lookup_insert_ne by lia.
        destruct (decide (k = ea)) as [->|Hne].
        -- rewrite decide_True by left. apply lookup_delete_eq.
        -- rewrite decide_False by (intros Hin; apply elem_of_cons in Hin as [?|?]; contradiction).
           apply lookup_delete_ne. congruence.
Qed.

Section relocation_globals.
Context {host : Idaapi}.
Hypothesis store_works : ∀ k, netnode_fails k = false.

Lemma relocate_globals_ledger old new size l w :
  ∃ w', relocate_globals old new size l w = Return tt w' ∧
        ledger w' = MkLedger (netnode_hash (ledger w))
                      (fold_left (globals_step old new) l (netnode_alt (ledger w)))
                      (netnode_sup (ledger w)).
Proof.
  unfold relocate_globals. revert w. induction l as [|[ea c] l IH]; intros w.
  - exists w. split; [reflexivity|]. destruct (ledger w); reflexivity.
  - cbn [for_each fold_left]. unfold bind at 1.
    unfold bind at 1, alt_remove at 1. rewrite store_works.
    unfold bind at 1, when at 1, negb, ret at 1.
    unfold bind at 1, alt_set at 1. rewrite store_works.
    unfold bind at 1, when at 1, negb, ret at 1.
    unfold log at 1.
    match goal with |- context [for_each l _ ?w1] => destruct (IH w1) as (w' & E & L) end.
    exists w'. split; [exact E|]. rewrite L. reflexivity.
Qed.

End relocation_globals.

(** The globals of a segment, as [segm_moved] lists them. *)
Definition segment_globals (base size : Z) (m : gmap Z nat) : list (Z * nat) :=
  merge_sort pair_le (filter (λ p : Z * nat, base ≤ p.1 < base + size) (map_to_list m)).

Lemma elem_of_segment_globals base size (m : gmap Z nat) ea c :
  (ea, c) ∈ segment_globals base size m ↔ m !! ea = Some c ∧ base ≤ ea < base + size.
Proof.
  unfold segment_globals. rewrite merge_sort_Permutation, list_elem_of_filter.
  rewrite elem_of_map_to_list. simpl. tauto.
Qed.

Lemma NoDup_segment_globals base size (m : gmap Z nat) :
  NoDup (segment_globals base size m).*1.
Proof.
  unfold segment_globals. rewrite merge_sort_Permutation.
  eapply NoDup_fmap_fst.
  - intros ea c1 c2 H1 H2. apply list_elem_of_filter in H1 as [_ H1], H2 as [_ H2].
    apply elem_of_map_to_list in H1, H2. congruence.
  - apply NoDup_filter, NoDup_map_to_list.
Qed.

Lemma segment_globals_keys base size (m : gmap Z nat) ea :
  ea ∈ (segment_globals base size m).*1 ↔ is_Some (m !! ea) ∧ base ≤ ea < base + size.
Proof.
  rewrite list_elem_of_fmap. split.
  - intros ([ea' c] & -> & Hin). apply elem_of_segment_globals in Hin as [Hm Hr].
    split; [eexists; exact Hm | exact Hr].
  - intros [[c Hm] Hr]. exists (ea, c). split; [reflexivity|].
    apply elem_of_segment_globals. split; assumption.
Qed.

Lemma segment_globals_lookup base size (m : gmap Z nat) k :
  (list_to_map (segment_globals base size m) : gmap Z nat) !! k =
  if decide (base ≤ k < base + size) then m !! k else None.
Proof.
  destruct (decide (base ≤ k < base + size)) as [Hr|Hr].
  - destruct (m !! k) as [c|] eqn:Hm.
    + apply elem_of_list_to_map; [apply NoDup_segment_globals|].
      apply elem_of_segment_globals. split; assumption.
    + apply not_elem_of_list_to_map. rewrite segment_globals_keys.
      intros [[c Hc] _]. congruence.
  - apply not_elem_of_list_to_map. rewrite segment_globals_keys. tauto.
Qed.

(** When the segment moves to a range that it does not overlap, and in which
    the ledger has no entry, every entry of the segment is found at its
    address moved, with its count; nothing is left in the old range, and the
    other entries stay. *)
Lemma moved_globals_lookup old new size (m : gmap Z nat) k :
  (new + size ≤ old ∨ old + size ≤ new) →
  (∀ ea, new ≤ ea < new + size → m !! ea = None) →
  fold_left (globals_step old new) (segment_globals old size m) m !! k =
  if decide (new ≤ k < new + size) then m !! (k - new + old)
  else if decide (old ≤ k < old + size) then None
  else m !! k.
Proof.
  intros Hdisj Hfree.
  rewrite fold_globals_lookup.
  - rewrite segment_globals_lookup.
    destruct (decide (new ≤ k < new + size)) as [Ht|Ht].
    + rewrite decide_True by lia.
      destruct (m !! (k - new + old)) as [c|] eqn:Hm; [reflexivity|].
      rewrite decide_False; [apply Hfree; exact Ht|].
      rewrite segment_globals_keys. intros [_ Hr]. lia.
    + rewrite decide_False by lia.
      destruct (decide (old ≤ k < old + size)) as [Hs|Hs].
      * destruct (decide (k ∈ (segment_globals old size m).*1)) as [Hin|Hnin]; [reflexivity|].
        rewrite segment_globals_keys in Hnin.
        destruct (m !! k) as [c|] eqn:Hm; [|reflexivity].
        exfalso. apply Hnin. split; [eexists; reflexivity | exact Hs].
      * rewrite decide_False; [reflexivity|].
        rewrite segment_globals_keys. tauto.
  - apply NoDup_segment_globals.
  - intros ea Hin Hin'. apply segment_globals_keys in Hin as [_ Hr], Hin' as [_ Hr']. lia.
Qed.

(** ** What relocation does to the contents *)

(** One turn of the loop of [__relocate_function], for netnodes that the
    host has not moved: the blob that is stored for the old address of the
    function, if there is one, is erased there and stored for the function
    with its addresses moved; the old address leaves the index. *)
Definition function_step (old new : Z) (acc : gmap Z blob * gset Z) (fn : Z)
  : gmap Z blob * gset Z :=
  let source := fn - new + old in
  match acc.1 !! source with
  | None => acc
  | Some b => (<[fn := rekey old new b]> (delete source acc.1), acc.2 ∖ {[source]})
  end.

Lemma function_step_lookup old new sup index fn x :
  (function_step old new (sup, index) fn).1 !! x =
  match sup !! (fn - new + old) with
  | Some b => if decide (x = fn) then Some (rekey old new b)
              else if decide (x = fn - new + old) then None else sup !! x
  | None => sup !! x
  end.
Proof.
  unfold function_step. cbn [fst snd].
  destruct (sup !! (fn - new + old)) as [b|]; [|reflexivity]. cbn [fst].
  destruct (decide (x = fn)) as [->|Hx]; [apply lookup_insert_eq|].
  rewrite lookup_insert_ne by congruence.
  destruct (decide (x = fn - new + old)) as [->|Hx']; [apply lookup_delete_eq|].
  apply lookup_delete_ne. congruence.
Qed.

Lemma fold_functions_lookup old new size l sup index k :
  (new + size ≤ old ∨ old + size ≤ new) →
  (∀ fn, fn ∈ l → new ≤ fn < new + size) →
  (fold_left (function_step old new) l (sup, index)).1 !! k =
  if decide (k ∈ l)
  then match sup !! (k - new + old) with
       | Some b => Some (rekey old new b)
       | None => sup !! k
       end
  else if decide (k - old + new ∈ l) then None else sup !! k.
Proof.
  intros Hdisj. revert sup index. induction l as [|fn l IH]; intros sup index Hin.
  - cbn [fold_left fst].
    destruct (decide (k ∈ [])) as [Hk|_]; [apply elem_of_nil in Hk; destruct Hk|].
    destruct (decide (k - old + new ∈ [])) as [Hk|_]; [apply elem_of_nil in Hk; destruct Hk|].
    reflexivity.
  - cbn [fold_left].
    destruct (function_step old new (sup, index) fn) as [sup1 index1] eqn:E1.
    assert (L1 : ∀ x, sup1 !! x =
                  match sup !! (fn - new + old) with
                  | Some b => if decide (x = fn) then Some (rekey old new b)
                              else if decide (x = fn - new + old) then None else sup !! x
                  | None => sup !! x
                  end).
    { intros x. rewrite <- (function_step_lookup old new sup index fn x), E1. reflexivity. }
    assert (Hfn : new ≤ fn < new + size) by (apply Hin; left).
    rewrite IH by (intros fn' Hfn'; apply Hin; right; exact Hfn').
    destruct (decide (k ∈ l)) as [Hkl|Hkl].
    + assert (Hk : new ≤ k < new + size) by (apply Hin; right; exact Hkl).
      rewrite decide_True by (right; exact Hkl).
      rewrite !L1.
      destruct (sup !! (fn - new + old)) as [b|] eqn:Eb; [|reflexivity].
      rewrite (decide_False (P := k - new + old = fn)) by lia.
      destruct (decide (k = fn)) as [->|Hne].
      * rewrite decide_True by reflexivity. rewrite Eb. reflexivity.
      * rewrite (decide_False (P := k - new + old = fn - new + old)) by lia.
        rewrite (decide_False (P := k = fn - new + old)) by lia. reflexivity.
    + destruct (decide (k - old + new ∈ l)) as [Hsl|Hsl].
      * assert (Hk : new ≤ k - old + new < new + size) by (apply Hin; right; exact Hsl).
        rewrite (decide_False (P := k ∈ fn :: l)).
        2:{ intros Hk'. apply elem_of_cons in Hk' as [->|Hk']; [lia | contradiction]. }
        rewrite decide_True by (right; exact Hsl). reflexivity.
      * rewrite L1.
        destruct (decide (k = fn)) as [->|Hne].
        -- rewrite (decide_True (P := fn ∈ fn :: l)) by left.
           destruct (sup !! (fn - new + old)) as [b|]; reflexivity.
        -- rewrite (decide_False (P := k ∈ fn :: l)).
           2:{ intros Hk'. apply elem_of_cons in Hk' as [->|Hk']; [congruence | contradiction]. }
           destruct (decide (k - old + new = fn)) as [Hs|Hs].
           ++ rewrite (decide_True (P := k - old + new ∈ fn :: l))
                by (rewrite Hs; left).
              destruct (sup !! (fn - new + old)) as [b|] eqn:Eb.
              ** rewrite decide_True by lia. reflexivity.
              ** replace k with (fn - new + old) by lia. exact Eb.
           ++ rewrite (decide_False (P := k - old + new ∈ fn :: l)).
              2:{ intros Hk'. apply elem_of_cons in Hk' as [?|?]; contradiction. }
              destruct (sup !! (fn - new + old)) as [b|]; [|reflexivity].
              rewrite decide_False by lia. reflexivity.
Qed.

(** What is left in the index after the loop was in it before, and is not
    the old address of a function of the list. *)
Lemma fold_functions_index old new l (sup : gmap Z blob) (index : gset Z) k :
  index ⊆ dom sup →
  k ∈ (fold_left (function_step old new) l (sup, index)).2 →
  k ∈ index ∧ k - old + new ∉ l.
Proof.
  revert sup index. induction l as [|fn l IH]; intros sup index Hsub Hk.
  - split; [exact Hk | apply not_elem_of_nil].
  - cbn [fold_left] in Hk. unfold function_step at 2 in Hk. cbn [fst snd] in Hk.
    destruct (sup !! (fn - new + old)) as [b|] eqn:Eb.
    + apply IH in Hk as [Hk Hl].
      * apply elem_of_difference in Hk as [Hk Hne]. split; [exact Hk|].
        intros Hin. apply elem_of_cons in Hin as [Hin|Hin]; [|contradiction].
        apply Hne, elem_of_singleton. lia.
      * intros x Hx. apply elem_of_difference in Hx as [Hx Hne].
        apply elem_of_dom. rewrite lookup_insert.
        destruct (decide (fn = x)); [eexists; reflexivity|].
        rewrite lookup_delete_ne; [apply elem_of_dom, Hsub; exact Hx|].
        intros Heq. apply Hne, elem_of_singleton. lia.
    + apply IH in Hk as [Hk Hl]; [|exact Hsub]. split; [exact Hk|].
      intros Hin. apply elem_of_cons in Hin as [Hin|Hin]; [|contradiction].
      apply Hsub, elem_of_dom in Hk as [b Hb].
      replace (fn - new + old) with k in Eb by lia. congruence.
Qed.

(** The ledger with other contents. *)
Definition with_sup (L : Ledger) (sup : gmap Z blob) : Ledger :=
  MkLedger (netnode_hash L) (netnode_alt L) sup.

Section relocation_contents.
Context {host : Idaapi}.
Hypothesis store_works : ∀ k, netnode_fails k = false.

Lemma relocate_contents_spec old new fn index w :
  ∃ w', relocate_contents old new false fn index w =
          Return (function_step old new (netnode_sup (ledger w), index) fn).2 w' ∧
        ledger w' =
          with_sup (ledger w) (function_step old new (netnode_sup (ledger w), index) fn).1.
Proof.
  unfold relocate_contents, function_step. cbn [fst snd].
  unfold bind at 1, contents_read_raw at 1.
  destruct (netnode_sup (ledger w) !! (fn - new + old)) as [b|].
  - unfold bind, contents_write, log, when, ret. rewrite !store_works.
    destruct (bool_decide (fn - new + old ∉ index));
      destruct (bool_decide (b_address b = None));
      (eexists; split; [reflexivity|]); reflexivity.
  - unfold bind, log, ret. eexists. split; [reflexivity|].
    cbn. destruct (ledger w); reflexivity.
Qed.

Lemma relocate_contents_loop old new l index w :
  ∃ w', fold_each l index (relocate_contents old new false) w =
          Return (fold_left (function_step old new) l (netnode_sup (ledger w), index)).2 w' ∧
        ledger w' =
          with_sup (ledger w)
                   (fold_left (function_step old new) l (netnode_sup (ledger w), index)).1.
Proof.
  revert index w. induction l as [|fn l IH]; intros index w.
  - exists w. split; [reflexivity|]. destruct (ledger w); reflexivity.
  - cbn [fold_each fold_left].
    destruct (relocate_contents_spec old new fn index w) as (w1 & E1 & L1).
    rewrite (bind_Return _ _ _ _ _ E1).
    destruct (IH (function_step old new (netnode_sup (ledger w), index) fn).2 w1)
      as (w' & E & L').
    exists w'. rewrite L1 in E, L'. cbn [with_sup netnode_sup netnode_hash netnode_alt] in E, L'.
    rewrite <- surjective_pairing in E, L'. split; [exact E | exact L'].
Qed.

(** When every blob of the old range is that of a function of the list,
    the index is empty after the first loop, and the two other loops have
    nothing to do. *)
Lemma relocate_function_spec old new size l w :
  (∀ k, is_Some (netnode_sup (ledger w) !! k) → old ≤ k < old + size → k - old + new ∈ l) →
  ∃ w', relocate_function old new size l false w = Return tt w' ∧
        ledger w' =
          with_sup (ledger w)
            (fold_left (function_step old new) l
               (netnode_sup (ledger w),
                filter (λ ea, old ≤ ea < old + size) (dom (netnode_sup (ledger w))))).1.
Proof.
  intros Hown. unfold relocate_function.
  unfold bind at 1, get_ledger at 1.
  set (index0 := filter (λ ea, old ≤ ea < old + size) (dom (netnode_sup (ledger w))) : gset Z).
  destruct (relocate_contents_loop old new l index0 w) as (w1 & E1 & L1).
  rewrite (bind_Return _ _ _ _ _ E1).
  set (index1 := (fold_left (function_step old new) l (netnode_sup (ledger w), index0)).2) in *.
  assert (Hempty : index1 = ∅).
  { apply elem_of_equiv_empty_L. intros k Hk.
    apply fold_functions_index in Hk as [Hk Hl].
    - apply elem_of_filter in Hk as [Hr Hk]. apply elem_of_dom in Hk.
      apply Hl, Hown; assumption.
    - intros x Hx. apply elem_of_filter in Hx as [_ Hx]. exact Hx. }
  rewrite Hempty, set_map_empty, intersection_empty_l_L, elements_empty.
  exists w1. split; [reflexivity | exact L1].
Qed.

End relocation_contents.

(** The functions of a segment, as [segm_moved] lists them. *)
Definition segment_functions {host : Idaapi} (base size : Z) : list Z :=
  merge_sort Z.le (filter (λ ea, base ≤ ea < base + size) database_functions).

Lemma elem_of_segment_functions {host : Idaapi} base size fn :
  fn ∈ segment_functions base size ↔ fn ∈ database_functions ∧ base ≤ fn < base + size.
Proof.
  unfold segment_functions. rewrite merge_sort_Permutation, list_elem_of_filter. tauto.
Qed.

(** When the segment moves to a range that it does not overlap, in which
    the ledger has no contents, and every blob of the old range is that of a
    function of the segment, every blob is found at its address moved, with
    its addresses moved; nothing is left in the old range and the other
    blobs stay. *)
Lemma moved_contents_lookup old new size l (sup : gmap Z blob) (index : gset Z) k :
  (new + size ≤ old ∨ old + size ≤ new) →
  (∀ fn, fn ∈ l → new ≤ fn < new + size) →
  (∀ ea, new ≤ ea < new + size → sup !! ea = None) →
  (∀ ea, is_Some (sup !! ea) → old ≤ ea < old + size → ea - old + new ∈ l) →
  (fold_left (function_step old new) l (sup, index)).1 !! k =
  if decide (new ≤ k < new + size) then rekey old new <$> sup !! (k - new + old)
  else if decide (old ≤ k < old + size) then None
  else sup !! k.
Proof.
  intros Hdisj Hin Hfree Hown.
  rewrite (fold_functions_lookup old new size) by assumption.
  destruct (decide (k ∈ l)) as [Hk|Hk].
  - rewrite decide_True by (apply Hin; exact Hk).
    destruct (sup !! (k - new + old)) as [b|]; [reflexivity|].
    apply Hfree, Hin, Hk.
  - destruct (decide (k - old + new ∈ l)) as [Hs|Hs].
    + apply Hin in Hs. rewrite decide_False by lia. rewrite decide_True by lia. reflexivity.
    + destruct (decide (new ≤ k < new + size)) as [Ht|Ht].
      * rewrite (Hfree k Ht).
        destruct (sup !! (k - new + old)) as [b|] eqn:Eb; [|reflexivity].
        exfalso. apply Hk. replace k with (k - new + old - old + new) by lia.
        apply Hown; [rewrite Eb; eexists; reflexivity | lia].
      * destruct (decide (old ≤ k < old + size)) as [Ho|Ho]; [|reflexivity].
        destruct (sup !! k) as [b|] eqn:Eb; [|reflexivity].
        exfalso. apply Hs, Hown; [rewrite Eb; eexists; reflexivity | exact Ho].
Qed.

Section relocation_segment.
Context {host : Idaapi}.
Hypothesis store_works : ∀ k, netnode_fails k = false.

(** What [segm_moved] does to the ledger when the host has not moved the
    netnodes: under the conditions of the two lemmas above, every entry of
    the old range is found at its address moved and nowhere else. *)
Lemma segm_moved_spec old new size w :
  (new + size ≤ old ∨ old + size ≤ new) →
  (∀ ea, new ≤ ea < new + size →
         netnode_alt (ledger w) !! ea = None ∧ netnode_sup (ledger w) !! ea = None) →
  (∀ ea, is_Some (netnode_sup (ledger w) !! ea) → old ≤ ea < old + size →
         ea - old + new ∈ database_functions) →
  ∃ w', segm_moved old new size true w = Return tt w' ∧
        netnode_hash (ledger w') = netnode_hash (ledger w) ∧
        (∀ k, netnode_alt (ledger w') !! k =
              if decide (new ≤ k < new + size) then netnode_alt (ledger w) !! (k - new + old)
              else if decide (old ≤ k < old + size) then None
              else netnode_alt (ledger w) !! k) ∧
        (∀ k, netnode_sup (ledger w') !! k =
              if decide (new ≤ k < new + size)
              then rekey old new <$> netnode_sup (ledger w) !! (k - new + old)
              else if decide (old ≤ k < old + size) then None
              else netnode_sup (ledger w) !! k).
Proof.
  intros Hdisj Hfree Hown. unfold segm_moved.
  unfold bind at 1, get_ledger at 1.
  unfold bind at 1, log at 1. cbn [negb].
  fold (segment_functions new size).
  fold (segment_globals old size (netnode_alt (ledger w))).
  set (w0 := emit _ w).
  assert (L0 : ledger w0 = ledger w) by reflexivity.
  destruct (relocate_function_spec store_works old new size (segment_functions new size) w0)
    as (w1 & E1 & L1).
  { rewrite L0. intros k Hk Hr. apply elem_of_segment_functions.
    split; [apply Hown; assumption | lia]. }
  rewrite (bind_Return _ _ _ _ _ E1).
  destruct (relocate_globals_ledger store_works old new size
              (segment_globals old size (netnode_alt (ledger w))) w1) as (w' & E & L').
  exists w'. split; [exact E|].
  rewrite L', L1, L0. cbn [with_sup netnode_hash netnode_alt netnode_sup].
  split; [reflexivity|]. split.
  - intros k. apply moved_globals_lookup; [exact Hdisj|].
    intros ea Hr. apply Hfree, Hr.
  - intros k. apply (moved_contents_lookup old new size); [exact Hdisj| | |].
    + intros fn Hfn. apply elem_of_segment_functions in Hfn as [_ Hr]. exact Hr.
    + intros ea Hr. apply Hfree, Hr.
    + intros ea Hs Hr. apply elem_of_segment_functions.
      split; [apply Hown; assumption | lia].
Qed.

End relocation_segment.

(** ** Moving the addresses of a blob there and back *)

#[local] Instance shift_inj (old new : Z) : Inj (=) (=) (λ ea : Z, ea - old + new).
Proof. intros x y H. simpl in H. lia. Qed.

(** A blob with its table of addresses made explicit. *)
Definition settled (b : blob) : blob := Blob (b_tags b) (Some (blob_addresses b)).

Lemma rekey_tags old new b : b_tags (rekey old new b) = b_tags b.
Proof. reflexivity. Qed.

Lemma rekey_addresses old new b ea :
  blob_addresses (rekey old new b) !! (ea - old + new) = blob_addresses b !! ea.
Proof.
  unfold rekey, blob_addresses at 1. cbn [b_address default].
  apply (lookup_kmap (λ ea : Z, ea - old + new)).
Qed.

Lemma rekey_rekey old new b : rekey new old (rekey old new b) = settled b.
Proof.
  unfold settled. unfold rekey at 1. rewrite rekey_tags. f_equal. f_equal.
  apply map_eq. intros ea.
  replace ea with (ea - old + new - new + old) at 1 by lia.
  etrans; [apply (lookup_kmap (λ ea : Z, ea - new + old))|].
  apply rekey_addresses.
Qed.

Lemma settled_tags b : b_tags (settled b) = b_tags b.
Proof. reflexivity. Qed.

Lemma settled_addresses b : blob_addresses (settled b) = blob_addresses b.
Proof. reflexivity. Qed.

Lemma settled_count (sup : gmap Z blob) fn key :
  count (b_tags (default empty_blob (settled <$> sup !! fn))) key =
  count (b_tags (default empty_blob (sup !! fn))) key.
Proof. destruct (sup !! fn); reflexivity. Qed.

Lemma settled_refs (sup : gmap Z blob) fn ea :
  count (blob_addresses (default empty_blob (settled <$> sup !! fn))) ea =
  count (blob_addresses (default empty_blob (sup !! fn))) ea.
Proof. destruct (sup !! fn); reflexivity. Qed.

Lemma rekey_count old new (sup : gmap Z blob) fn key :
  count (b_tags (default empty_blob (rekey old new <$> sup !! fn))) key =
  count (b_tags (default empty_blob (sup !! fn))) key.
Proof. destruct (sup !! fn); reflexivity. Qed.

Lemma rekey_refs old new (sup : gmap Z blob) fn ea :
  count (blob_addresses (default empty_blob (rekey old new <$> sup !! fn))) (ea - old + new) =
  count (blob_addresses (default empty_blob (sup !! fn))) ea.
Proof.
  destruct (sup !! fn) as [b|]; cbn [fmap option_fmap option_map default id].
  - unfold count. rewrite rekey_addresses. reflexivity.
  - reflexivity.
Qed.

(** C5, as the code has it: when [segm_moved] runs for a segment moved from
    [B1] to a range at [B2] that does not overlap it, with netnodes that the
    host has not moved, a store that takes every write, no entry of the
    ledger in the new range, and every blob of the old range being that of a
    function that the host lists at the moved address, then every global of
    the old range is removed at its address and stored at the address minus
    [B1] plus [B2] with its count, every blob is removed and stored at the
    moved address with its table of tags and with every address of its table
    of addresses moved the same way, and the entries outside of the two
    ranges stay.  When the segment then moves back, with the functions of
    the host back at their old addresses, the counts of the tags, the
    globals, and every count of every function are as they were at first; a
    blob that had no table of addresses has an empty one. *)
Theorem relocation_moves_entries_there_and_back
    (host back : Idaapi) (B1 B2 size : Z) (w : World) :
  (B2 + size ≤ B1 ∨ B1 + size ≤ B2) →
  (∀ k, @netnode_fails host k = false) →
  (∀ k, @netnode_fails back k = false) →
  (∀ ea, B2 ≤ ea < B2 + size →
         netnode_alt (ledger w) !! ea = None ∧ netnode_sup (ledger w) !! ea = None) →
  (∀ ea, is_Some (netnode_sup (ledger w) !! ea) → B1 ≤ ea < B1 + size →
         ea - B1 + B2 ∈ @database_functions host) →
  (∀ fn, fn ∈ @database_functions host → B2 ≤ fn < B2 + size →
         fn - B2 + B1 ∈ @database_functions back) →
  ∃ w1 w2,
    @segm_moved host B1 B2 size true w = Return tt w1 ∧
    @segm_moved back B2 B1 size true w1 = Return tt w2 ∧
    (∀ ea, B1 ≤ ea < B1 + size →
       netnode_alt (ledger w1) !! ea = None ∧
       netnode_alt (ledger w1) !! (ea - B1 + B2) = netnode_alt (ledger w) !! ea ∧
       netnode_sup (ledger w1) !! ea = None ∧
       netnode_sup (ledger w1) !! (ea - B1 + B2) =
         rekey B1 B2 <$> netnode_sup (ledger w) !! ea) ∧
    (∀ fn ea key, B1 ≤ fn < B1 + size →
       globals_refs (ledger w1) (fn - B1 + B2) = globals_refs (ledger w) fn ∧
       contents_count (ledger w1) (fn - B1 + B2) key = contents_count (ledger w) fn key ∧
       contents_refs (ledger w1) (fn - B1 + B2) (ea - B1 + B2) =
         contents_refs (ledger w) fn ea) ∧
    (∀ k, ¬ B1 ≤ k < B1 + size → ¬ B2 ≤ k < B2 + size →
       netnode_alt (ledger w1) !! k = netnode_alt (ledger w) !! k ∧
       netnode_sup (ledger w1) !! k = netnode_sup (ledger w) !! k) ∧
    netnode_hash (ledger w1) = netnode_hash (ledger w) ∧
    netnode_hash (ledger w2) = netnode_hash (ledger w) ∧
    netnode_alt (ledger w2) = netnode_alt (ledger w) ∧
    (∀ fn, netnode_sup (ledger w2) !! fn =
           if decide (B1 ≤ fn < B1 + size) then settled <$> netnode_sup (ledger w) !! fn
           else netnode_sup (ledger w) !! fn) ∧
    (∀ fn key, contents_count (ledger w2) fn key = contents_count (ledger w) fn key) ∧
    (∀ fn ea, contents_refs (ledger w2) fn ea = contents_refs (ledger w) fn ea).
Proof.
  intros Hdisj Hs1 Hs2 Hfree Hown Hback.
  destruct (@segm_moved_spec host Hs1 B1 B2 size w Hdisj Hfree Hown)
    as (w1 & E1 & H1 & A1 & S1).
  assert (Hdisj' : B1 + size ≤ B2 ∨ B2 + size ≤ B1) by lia.
  destruct (@segm_moved_spec back Hs2 B2 B1 size w1 Hdisj') as (w2 & E2 & H2 & A2 & S2).
  { intros ea Hr. rewrite A1, S1. repeat case_decide; try lia. split; reflexivity. }
  { intros ea [b Hb] Hr. rewrite S1 in Hb. case_decide; [|lia].
    destruct (netnode_sup (ledger w) !! (ea - B2 + B1)) as [b0|] eqn:Eb; [|discriminate].
    apply Hback; [|exact Hr].
    replace ea with (ea - B2 + B1 - B1 + B2) by lia.
    apply Hown; [rewrite Eb; eexists; reflexivity | lia]. }
  assert (S2' : ∀ fn, netnode_sup (ledger w2) !! fn =
                      if decide (B1 ≤ fn < B1 + size)
                      then settled <$> netnode_sup (ledger w) !! fn
                      else netnode_sup (ledger w) !! fn).
  { intros fn. rewrite S2. case_decide.
    - rewrite S1. case_decide; [|lia].
      replace (fn - B1 + B2 - B2 + B1) with fn by lia.
      destruct (netnode_sup (ledger w) !! fn) as [b|]; [|reflexivity].
      cbn [fmap option_fmap option_map]. rewrite rekey_rekey. reflexivity.
    - case_decide.
      + symmetry. apply Hfree. assumption.
      + rewrite S1. repeat case_decide; try lia. reflexivity. }
  exists w1, w2. split; [exact E1|]. split; [exact E2|].
  split; [|split; [|split; [|split; [exact H1|split; [congruence|split; [|split;
    [exact S2'|split]]]]]]].
  - intros ea Hr. rewrite !A1, !S1. repeat case_decide; try lia.
    replace (ea - B1 + B2 - B2 + B1) with ea by lia. repeat split; reflexivity.
  - intros fn ea key Hr. unfold globals_refs, contents_count, contents_refs, contents_read, count.
    rewrite A1, S1. case_decide; [|lia].
    replace (fn - B1 + B2 - B2 + B1) with fn by lia.
    split; [reflexivity|]. split; [apply rekey_count | apply rekey_refs].
  - intros k Hk1 Hk2. rewrite A1, S1. repeat case_decide; try lia. split; reflexivity.
  - apply map_eq. intros k. rewrite A2. case_decide.
    + rewrite A1. case_decide; [|lia]. f_equal. lia.
    + case_decide.
      * symmetry. apply Hfree. assumption.
      * rewrite A1. repeat case_decide; try lia. reflexivity.
  - intros fn key. unfold contents_count, contents_read. rewrite S2'.
    case_decide; [apply settled_count | reflexivity].
  - intros fn ea. unfold contents_refs, contents_read. rewrite S2'.
    case_decide; [apply settled_refs | reflexivity].
Qed.

(** ** A segment that moves from 0x10000 to 0x20000 *)

(** A database with the given functions and nothing else. *)
Definition functions_host (functions : list Z) : Idaapi :=
  {| get_func := λ _, None;
     seg_is_xtrn := λ _, false;
     flags_is_data := λ _, false;
     is_identifier := λ ea, bool_decide (0xff00000000000000 ≤ ea);
     address_within := λ ea, bool_decide (0x10000 ≤ ea < 0x30000);
     version_lt_7_0 := false;
     set_cmt_raises := λ _ _, false;
     database_type := λ _, None;
     database_type_data := λ _, ("", "");
     database_functions := functions;
     function_chunks := λ _, [];
     address_prev := λ ea, ea - 1;
     address_iterate := λ l r, [];
     bounds_iterate := λ _, [];
     database_tag := λ _, ∅;
     import_names := [];
     chunk_owners := λ _, [];
     get_fchunk := λ ea, if bool_decide (ea ∈ functions) then Some (false, ea) else None;
     netnode_fails := λ _, false |}.

(** The host after the move, and after the move back. *)
Definition moved_host : Idaapi := functions_host [0x20200].
Definition home_host : Idaapi := functions_host [0x10200].

(** The ledger of the fifth scenario: a global at 0x10100 with three tags,
    and a function at 0x10200 with one tag at 0x10204. *)
Definition segment_ledger : Ledger :=
  MkLedger {[ "name1" := 2%nat; "name2" := 1%nat; "name3" := 1%nat ]}
           {[ 0x10100 := 3%nat ]}
           {[ 0x10200 := Blob {[ "name1" := 1%nat ]} (Some {[ 0x10204 := 1%nat ]}) ]}.

Definition segment_world : World :=
  MkWorld (Some ready) segment_ledger ∅ ∅ ∅ [] ∅ [].

Lemma relocation_moves_entries_there_and_back_witness :
  ∃ w1 w2,
    @segm_moved moved_host 0x10000 0x20000 0x1000 true segment_world = Return tt w1 ∧
    @segm_moved home_host 0x20000 0x10000 0x1000 true w1 = Return tt w2 ∧
    netnode_alt (ledger w1) !! 0x10100 = None ∧
    globals_refs (ledger w1) 0x20100 = globals_refs (ledger segment_world) 0x10100 ∧
    contents_refs (ledger w1) 0x20200 0x20204 =
      contents_refs (ledger segment_world) 0x10200 0x10204 ∧
    netnode_alt (ledger w2) = netnode_alt (ledger segment_world).
Proof.
  destruct (relocation_moves_entries_there_and_back moved_host home_host
              0x10000 0x20000 0x1000 segment_world)
    as (w1 & w2 & E1 & E2 & K & R & _ & _ & _ & A & _).
  - lia.
  - intros k. reflexivity.
  - intros k. reflexivity.
  - intros ea Hr. split; apply lookup_singleton_ne; lia.
  - intros ea [b Hb] Hr.
    unfold segment_world, segment_ledger in Hb. cbn [ledger netnode_sup] in Hb.
    apply lookup_singleton_Some in Hb as [<- _].
    apply list_elem_of_singleton. reflexivity.
  - intros fn Hfn Hr. change (fn ∈ [0x20200]) in Hfn.
    apply list_elem_of_singleton in Hfn as ->.
    apply list_elem_of_singleton. reflexivity.
  - exists w1, w2. split; [exact E1|]. split; [exact E2|].
    destruct (K 0x10100) as (K1 & _); [lia|].
    destruct (R 0x10100 0 "name1") as (R1 & _); [lia|].
    destruct (R 0x10200 0x10204 "name1") as (_ & _ & R2); [lia|].
    split; [exact K1|]. split; [exact R1|]. split; [exact R2 | exact A].
Defined.

(** C5 does not hold as it is stated: the segment moves from 0x10000 to
    0x20000 and the ledger holds the contents of a function at 0x10200, with
    one tag at 0x10204, but the host lists no function at 0x20200.  The blob
    is erased at 0x10200 as a stray and it is not stored at 0x20200; after
    the move back the count of the address is 0 and not 1. *)
Lemma stray_contents_are_erased :
  let w := segment_world in
  let w1 := world_of (@segm_moved flat_host 0x10000 0x20000 0x1000 true w) in
  let w2 := world_of (@segm_moved flat_host 0x20000 0x10000 0x1000 true w1) in
  @segm_moved flat_host 0x10000 0x20000 0x1000 true w = Return tt w1 ∧
  @segm_moved flat_host 0x20000 0x10000 0x1000 true w1 = Return tt w2 ∧
  contents_refs (ledger w) 0x10200 0x10204 = 1%nat ∧
  netnode_sup (ledger w1) !! 0x10200 = None ∧
  netnode_sup (ledger w1) !! 0x20200 = None ∧
  contents_refs (ledger w1) 0x20200 0x20204 = 0%nat ∧
  contents_refs (ledger w2) 0x10200 0x10204 = 0%nat ∧
  Log WARNING "relocate_function: Contents should've been relocated but is not associated with a function"
    ∈ trace w1.
Proof.
  vm_compute. repeat split; try reflexivity.
  apply list_elem_of_In. vm_compute. tauto.
Qed.

(** When the two ranges overlap, an entry is lost: the globals at 0x100 and
    at 0x110 move up by 0x10, the count of 0x100 is stored at 0x110 before
    the entry of 0x110 is moved, and the move of that entry removes it. *)
Remark overlapping_move_loses_a_global :
  let L := MkLedger ∅ {[ 0x100 := 1%nat; 0x110 := 2%nat ]} ∅ in
  let w := MkWorld (Some ready) L ∅ ∅ ∅ [] ∅ [] in
  let w1 := world_of (@segm_moved flat_host 0x100 0x110 0x20 true w) in
  @segm_moved flat_host 0x100 0x110 0x20 true w = Return tt w1 ∧
  netnode_alt (ledger w1) = {[ 0x120 := 2%nat ]}.
Proof. vm_compute. split; reflexivity. Qed.

(** * The other hooks of the module *)

(** What the other hooks read from the disassembler: the flags of an
    address, the rows of its extra comments and the tags of a function,
    together with the constants of the SDK that they compare with. *)
Class Sdk := {
  AU_FINAL : Z;
  FF_LABL : Z;
  FF_NAME : Z;
  E_PREV : Z;
  E_NEXT : Z;
  COLOR_DEFAULT : Z;
  get_full_flags : Z → Z;
  sup_get : Z → Z → option string;
  function_tag : Z → gmap string string;
  version_lt_7_3 : bool
}.

(** ** The state of the database over a run of notifications *)

Section lifecycle.
Context {host : Idaapi} {sdk : Sdk}.

Definition nw_on_init (is_old_database : bool) : M unit := on_init.

Definition nw_on_newfile (is_old_database : bool) : M unit :=
  if is_old_database then ret tt else on_newfile.

Definition nw_on_oldfile (is_old_database : bool) : M unit :=
  if negb is_old_database then ret tt else on_oldfile.

Definition auto_queue_empty (type : Z) : M unit :=
  when (bool_decide (type = AU_FINAL)) on_ready.

End lifecycle.

(** The notifications of the host that reach these handlers. *)
Inductive notification :=
  | Init_database (is_old_database : bool)
  | New_file (is_old_database : bool)
  | Old_file (is_old_database : bool)
  | Auto_empty (type : Z).

Definition deliver {host : Idaapi} {sdk : Sdk} (n : notification) : M unit :=
  match n with
  | Init_database old => nw_on_init old
  | New_file old => nw_on_newfile old
  | Old_file old => nw_on_oldfile old
  | Auto_empty type => auto_queue_empty type
  end.

(** The line that [__process_functions] prints when it is done. *)
Definition built (e : event) : bool :=
  match e with
  | Log INFO msg => bool_decide (msg = "Successfully built tag-cache")
  | _ => false
  end.

Definition builds (tr : list event) : nat := length (filter (λ e, built e = true) tr).

Lemma builds_app t1 t2 : builds (t1 ++ t2) = (builds t1 + builds t2)%nat.
Proof. unfold builds. rewrite filter_app, length_app. reflexivity. Qed.

Lemma builds_cons e t : builds (e :: t) = ((if built e then 1 else 0) + builds t)%nat.
Proof.
  unfold builds. rewrite filter_cons.
  destruct (built e); [rewrite decide_True by reflexivity | rewrite decide_False by discriminate];
    reflexivity.
Qed.

Lemma builds_nil : builds [] = 0%nat.
Proof. reflexivity. Qed.

(** A script in which nothing is said at INFO level. *)
Definition hushed (s : list step) : Prop :=
  Forall (λ st, match st with Say INFO _ => False | _ => True end) s.

Lemma builds_played s w : hushed s → builds (trace (played s w)) = builds (trace w).
Proof.
  revert w. induction s as [|st s IH]; intros w Hs; [reflexivity|].
  apply Forall_cons in Hs as [Hst Hs].
  unfold played. rewrite run_script_cons. fold (played s (world_of (run_step st w))).
  rewrite IH by exact Hs. destruct st as [l msg|o]; simpl.
  - rewrite builds_app, builds_cons, builds_nil. destruct l; try destruct Hst; simpl; lia.
  - unfold call. simpl. destruct (underflows o (ledger w)); simpl;
      rewrite !builds_app, !builds_cons, builds_nil; simpl; lia.
Qed.

Section lifecycle_facts.
Context {host : Idaapi} {sdk : Sdk}.

Lemma hushed_build_script globals fns L : hushed (build_script globals fns L).
Proof.
  revert L. induction fns as [|fn rest IH]; intros L; [constructor|].
  cbn [build_script]. destruct (bool_decide (fn ∈ import_names)); [apply IH|].
  apply Forall_app. split; [|apply IH].
  unfold function_script. induction (function_tags fn) as [|p ps IHp]; [constructor|].
  cbn [flat_map]. apply Forall_app. split; [|exact IHp].
  unfold build_steps. apply Forall_app.
  split; [destruct (bool_decide (p.1 ∈ globals)) | destruct (bool_decide (p.1 ∉ _))];
    repeat constructor.
Qed.

(** The build returns, prints its line once and leaves the state alone. *)
Lemma process_functions_builds w :
  ∃ w', process_functions w = Return tt w' ∧ State w' = State w ∧
        builds (trace w') = S (builds (trace w)) ∧
        ledger w' =
          apply_ops (ops_of (build_script (dom (netnode_alt (ledger w))) database_functions
                               (ledger w))) (ledger w).
Proof.
  rewrite process_functions_script. eexists. split; [reflexivity|].
  rewrite played_State, played_ledger, played_app.
  split; [reflexivity|]. split.
  - unfold played at 1. simpl.
    rewrite builds_app, builds_cons, builds_nil, builds_played by apply hushed_build_script.
    simpl. lia.
  - rewrite ops_of_app. simpl. rewrite app_nil_r. reflexivity.
Qed.

(** What one notification can do: nothing when the database is ready, and
    the build when it goes from loaded to ready. *)
Lemma deliver_step n w :
  ∃ w', deliver n w = Return tt w' ∧
        (State w = Some ready →
           State w' = Some ready ∧ ledger w' = ledger w ∧ builds (trace w') = builds (trace w)) ∧
        (State w ≠ Some ready →
           (State w' = Some ready ∧ (builds (trace w') ≤ S (builds (trace w)))%nat) ∨
           (State w' ≠ Some ready ∧ builds (trace w') = builds (trace w) ∧ ledger w' = ledger w)).
Proof.
  destruct n as [old|old|old|type]; simpl;
    unfold nw_on_init, nw_on_newfile, nw_on_oldfile, auto_queue_empty, when.
  - unfold on_init, bind, get_State. destruct (State w) as [[]|] eqn:S; simpl;
      (eexists; split; [reflexivity|]); simpl; rewrite ?builds_app, ?builds_cons, ?builds_nil; simpl;
      rewrite ?Nat.add_0_r;
      (split; [intros; (try discriminate); repeat split; assumption|]);
      intros Hn; try (exfalso; apply Hn; reflexivity);
      right; repeat split; try reflexivity; rewrite ?S; discriminate.
  - destruct old; [exists w; split; [reflexivity|]; split;
                     [intros; repeat split; assumption | intros; right; repeat split; assumption]|].
    unfold on_newfile, bind, get_State. destruct (State w) as [[]|] eqn:S; simpl;
      (eexists; split; [reflexivity|]); simpl; rewrite ?builds_app, ?builds_cons, ?builds_nil; simpl;
      rewrite ?Nat.add_0_r;
      (split; [intros; (try discriminate); repeat split; assumption|]);
      intros Hn; try (exfalso; apply Hn; reflexivity);
      right; repeat split; try reflexivity; rewrite ?S; discriminate.
  - destruct old; simpl;
      [|exists w; split; [reflexivity|]; split;
          [intros; repeat split; assumption | intros; right; repeat split; assumption]].
    unfold on_oldfile, bind, get_State. destruct (State w) as [[]|] eqn:S; simpl;
      (eexists; split; [reflexivity|]); simpl; rewrite ?builds_app, ?builds_cons, ?builds_nil; simpl;
      rewrite ?Nat.add_0_r;
      (split; [intros; (try discriminate); repeat split; assumption|]);
      intros Hn; try (exfalso; apply Hn; reflexivity);
      first [ left; split; [reflexivity | lia]
            | right; repeat split; try reflexivity; rewrite ?S; discriminate ].
  - destruct (bool_decide (type = AU_FINAL));
      [|exists w; split; [reflexivity|]; split;
          [intros; repeat split; assumption | intros; right; repeat split; assumption]].
    unfold on_ready, bind, get_State. destruct (State w) as [[]|] eqn:S; simpl;
      try ((eexists; split; [reflexivity|]); simpl; rewrite ?builds_app, ?builds_cons, ?builds_nil; simpl;
           rewrite ?Nat.add_0_r;
           (split; [intros; (try discriminate); repeat split; assumption|]);
           intros Hn; try (exfalso; apply Hn; reflexivity);
           right; repeat split; try reflexivity; rewrite ?S; discriminate).
    unfold put_State.
    destruct (process_functions_builds (set_State (Some ready) w)) as (w' & E & St & B & _).
    exists w'. split; [exact E|]. split; [discriminate|]. intros _. left.
    split; [rewrite St; reflexivity|]. rewrite B. simpl. lia.
Qed.

End lifecycle_facts.

Section lifecycle_properties.
Context {host : Idaapi} {sdk : Sdk}.

(** Whatever notifications of the database arrive, in whatever order, the
    handlers return, and the cache is built once at most: the build is run
    by the notification that takes the database from loaded to ready, and
    once the database is ready no notification changes its state, calls the
    ledger or builds again. *)
Theorem cache_is_built_at_most_once (ns : list notification) w :
  ∃ w', for_each ns deliver w = Return tt w' ∧
        (builds (trace w') ≤ S (builds (trace w)))%nat ∧
        (State w = Some ready →
           State w' = Some ready ∧ ledger w' = ledger w ∧
           builds (trace w') = builds (trace w)).
Proof.
  revert w. induction ns as [|n ns IH]; intros w.
  - exists w. split; [reflexivity|]. split; [lia|]. intros S. repeat split. exact S.
  - destruct (deliver_step n w) as (w1 & E1 & Hready & Hother).
    destruct (IH w1) as (w' & E & B & R).
    exists w'. split; [cbn [for_each]; rewrite (bind_Return _ _ _ _ _ E1); exact E|].
    destruct (decide (State w = Some ready)) as [S|S].
    + destruct (Hready S) as (S1 & L1 & B1). destruct (R S1) as (S' & L' & B').
      split; [lia|]. intros _. repeat split; congruence.
    + split; [|intros S'; contradiction].
      destruct (Hother S) as [[S1 B1]|(S1 & B1 & L1)].
      * destruct (R S1) as (_ & _ & B'). lia.
      * lia.
Qed.

(** A database that is created is ready after the build, which is what
    [__process_functions] does to the ledger as it is; a database that is
    opened is ready at once and its cache is not built: its ledger is taken
    as it is stored. *)
Theorem database_is_ready_with_or_without_a_build w :
  State w = None →
  (∃ w', (on_init ;;; on_newfile ;;; on_ready) w = Return tt w' ∧
         State w' = Some ready ∧ builds (trace w') = S (builds (trace w)) ∧
         ledger w' =
           apply_ops (ops_of (build_script (dom (netnode_alt (ledger w))) database_functions
                                (ledger w))) (ledger w)) ∧
  (∃ w', (on_init ;;; on_oldfile ;;; on_ready) w = Return tt w' ∧
         State w' = Some ready ∧ builds (trace w') = builds (trace w) ∧
         ledger w' = ledger w ∧ calls (trace w') = calls (trace w)).
Proof.
  intros S. split.
  - unfold bind at 1, on_init at 1, bind at 1, get_State at 1. rewrite S.
    unfold put_State at 1.
    unfold bind at 1, on_newfile at 1, bind at 1, get_State at 1. cbn [State set_State].
    unfold put_State at 1.
    unfold on_ready, bind at 1, get_State at 1. cbn [State set_State].
    unfold bind at 1, put_State at 1. cbn [State set_State].
    match goal with |- context [process_functions ?w0] =>
      destruct (process_functions_builds w0) as (w' & E & St & B & L) end.
    exists w'. split; [exact E|]. split; [rewrite St; reflexivity|].
    split; [exact B | exact L].
  - unfold bind at 1, on_init at 1, bind at 1, get_State at 1. rewrite S.
    unfold put_State at 1.
    unfold bind at 1, on_oldfile at 1, bind at 1, get_State at 1. cbn [State set_State].
    unfold put_State at 1.
    unfold on_ready, bind at 1, get_State at 1. cbn [State set_State].
    eexists. split; [reflexivity|]. cbn [State ledger trace emit set_State].
    split; [reflexivity|].
    rewrite builds_app, builds_cons, builds_nil, calls_app. simpl.
    rewrite app_nil_r. repeat split; lia.
Qed.

End lifecycle_properties.

Definition closed_world : World := MkWorld None empty_ledger ∅ ∅ ∅ [] ∅ [].

Lemma database_is_ready_with_or_without_a_build_witness :
  ∃ w', (on_init ;;; on_oldfile ;;; @on_ready tail_host) closed_world = Return tt w' ∧
        State w' = Some ready ∧ ledger w' = ledger closed_world.
Proof.
  destruct (@database_is_ready_with_or_without_a_build tail_host closed_world eq_refl)
    as [_ (w' & E & S & _ & L & _)].
  exists w'. split; [exact E|]. split; [exact S | exact L].
Defined.

(** ** Names, extra comments and colors *)

(** The namespace of a tag that is not a comment: the contents of the
    function that the address is in, when there is one. *)
Definition context_at {host : Idaapi} (ea : Z) : namespace :=
  match get_func ea with
  | Some f => Contents f
  | None => Globals
  end.

Section individual_tags.
Context {host : Idaapi} {sdk : Sdk}.

(** [fl & item == item] *)
Definition has_flag (fl item : Z) : bool := bool_decide (Z.land fl item = item).

Definition rename (ea : Z) (newname : string) : M unit :=
  let fl := get_full_flags ea in
  let labelQ := has_flag fl FF_LABL in
  let customQ := has_flag fl FF_NAME in
  let fn := get_func ea in
  let ctx := match fn with
             | None => Globals
             | Some f => if bool_decide (f = ea) then Globals else Contents f
             end in
  if bool_decide (newname = "") then
    when (negb labelQ && customQ)
      (call (Dec ctx ea "__name__") ;;;
       log DEBUG "rename: Decreasing reference count for tag at address due to an empty name")
  else
    (* all(not q for q in {labelQ, customQ}) *)
    when ((labelQ && negb customQ) || (negb labelQ && negb customQ))
      (call (Inc ctx ea "__name__") ;;;
       log DEBUG "rename: Increasing reference count for tag at address due to a new name").

(** *** class extra_cmt *)

Definition MAX_ITEM_LINES : Z :=
  if bool_decide (E_NEXT > E_PREV) then E_NEXT - E_PREV else E_PREV - E_NEXT.

(** The loop of [Fcount] over [range(MAX_ITEM_LINES)]: the value that
    [index] is left with, if it was bound at all. *)
Fixpoint Fcount_loop (ea base : Z) (indices : list Z) (index : option Z) : option Z :=
  match indices with
  | [] => index
  | i :: rest =>
      match sup_get ea (base + i) with
      | None => Some i
      | Some _ => Fcount_loop ea base rest (Some i)
      end
  end.

(** [return index or None]; the name is not bound when the range is empty. *)
Definition Fcount (ea base : Z) : M (option Z) :=
  match Fcount_loop ea base (seqZ 0 MAX_ITEM_LINES) None with
  | None => raise NameError
  | Some index => ret (if bool_decide (index = 0) then None else Some index)
  end.

Definition is_prefix (line_idx : Z) : bool :=
  bool_decide (E_PREV ≤ line_idx < E_PREV + MAX_ITEM_LINES).

Definition is_suffix (line_idx : Z) : bool :=
  bool_decide (E_NEXT ≤ line_idx < E_NEXT + MAX_ITEM_LINES).

(** The end of [extra_cmt.changed], once the kind of the comment is known. *)
Definition extra_cmt_count (ea line_idx : Z) (cmt : option string) (base_idx : Z) (tag : string)
  : M unit :=
  if bool_decide (line_idx ≠ base_idx) then
    log DEBUG "extra_cmt_changed: Exiting event due to the index not pointing to the comment start"
  else
    match cmt with
    | None => call (Dec (context_at ea) ea tag)
    | Some _ => call (Inc (context_at ea) ea tag)
    end.

Definition extra_cmt_changed (ea line_idx : Z) (cmt : option string) : M unit :=
  if is_identifier ea then log DEBUG "extra_cmt_changed: Ignoring comment.changed event (not an address)"
  else
    λ w, match within ea w with
         | Raise OutOfBoundsError w' =>
             log DEBUG "extra_cmt_changed: Ignoring comment.changed event (not a valid address)" w'
         | Raise e w' => Raise e w'
         | Return ea w' =>
             (log DEBUG "extra_cmt_changed: Processing event" ;;;
              if is_prefix line_idx then extra_cmt_count ea line_idx cmt E_PREV "__extra_prefix__"
              else if is_suffix line_idx then
                extra_cmt_count ea line_idx cmt E_NEXT "__extra_suffix__"
              else log FATAL "extra_cmt_changed: Unable to determine type of extra comment") w'
         end.

Definition extra_cmt_changed_multiple (ea line_idx : Z) (cmt : option string) : M unit :=
  if is_identifier ea then log DEBUG "extra_cmt_changed: Ignoring comment.changed event (not an address)"
  else
    λ w, match within ea w with
         | Raise OutOfBoundsError w' =>
             log DEBUG "extra_cmt_changed: Ignoring comment.changed event (not a valid address)" w'
         | Raise e w' => Raise e w'
         | Return ea w' =>
             (let oldcmt := sup_get ea line_idx in
              log DEBUG "extra_cmt_changed: Processing event with previous comment" ;;;
              let ctx := context_at ea in
              let prefix := (E_PREV, E_PREV + MAX_ITEM_LINES, "__extra_prefix__") in
              let suffix := (E_NEXT, E_NEXT + MAX_ITEM_LINES, "__extra_suffix__") in
              for_each [prefix; suffix] (λ '(l, r, key),
                when (bool_decide (l ≤ line_idx < r))
                  (match oldcmt, cmt with
                   | None, Some _ => call (Inc ctx ea key)
                   | Some _, None => call (Dec ctx ea key)
                   | _, _ => ret tt
                   end ;;;
                   log DEBUG "extra_cmt_changed: reference count at address for tag"))) w'
         end.

(** *** Colors *)

Definition item_color_changed (ea color : Z) : M unit :=
  if is_identifier ea then ret tt
  else
    if bool_decide (color = COLOR_DEFAULT) then call (Dec (context_at ea) ea "__color__")
    else call (Inc (context_at ea) ea "__color__").

End individual_tags.

(** ** Counting with a list of calls *)

Lemma tag_count_incs n ns ea key L ns' key' :
  tag_count (apply_ops (replicate n (Inc ns ea key)) L) ns' key' =
  if decide (ns = ns' ∧ key = key') then (tag_count L ns' key' + n)%nat
  else tag_count L ns' key'.
Proof.
  revert L. induction n as [|n IH]; intros L.
  - simpl. destruct (decide _); lia.
  - cbn [replicate]. change (apply_ops (?o :: ?os) L) with (apply_ops os (apply_op o L)).
    rewrite IH, tag_count_apply_op. simpl. destruct (decide (ns = ns' ∧ key = key')); lia.
Qed.

Lemma ref_count_incs n ns ea key L ns' ea' :
  ref_count (apply_ops (replicate n (Inc ns ea key)) L) ns' ea' =
  if decide (ns = ns' ∧ ea = ea') then (ref_count L ns' ea' + n)%nat
  else ref_count L ns' ea'.
Proof.
  revert L. induction n as [|n IH]; intros L.
  - simpl. destruct (decide _); lia.
  - cbn [replicate]. change (apply_ops (?o :: ?os) L) with (apply_ops os (apply_op o L)).
    rewrite IH, ref_count_apply_op. simpl. destruct (decide (ns = ns' ∧ ea = ea')); lia.
Qed.

Section extra_comments.
Context {host : Idaapi} {sdk : Sdk}.

Lemma MAX_ITEM_LINES_spec :
  0 ≤ MAX_ITEM_LINES ∧
  (E_PREV + MAX_ITEM_LINES = E_NEXT ∨ E_NEXT + MAX_ITEM_LINES = E_PREV).
Proof.
  unfold MAX_ITEM_LINES. destruct (bool_decide (E_NEXT > E_PREV)) eqn:E.
  - apply bool_decide_eq_true in E. lia.
  - apply bool_decide_eq_false in E. lia.
Qed.

Lemma prefix_not_suffix (line_idx : Z) : is_prefix line_idx && is_suffix line_idx = false.
Proof.
  destruct MAX_ITEM_LINES_spec as [Hpos Hmax]. unfold is_prefix, is_suffix.
  destruct (bool_decide (E_PREV ≤ line_idx < _)) eqn:P; [|reflexivity].
  apply bool_decide_eq_true in P. apply bool_decide_eq_false. lia.
Qed.

(** No line of an extra comment is taken both for a line of the comment in
    front of the address and for a line of the one behind it, whatever the
    two bases of the SDK are; the first line of the one kind is never a
    line of the other; and when the two bases are equal no line is of
    either kind. *)
Theorem extra_comment_kinds_are_disjoint (line_idx : Z) :
  is_prefix line_idx && is_suffix line_idx = false ∧
  is_prefix E_NEXT = false ∧ is_suffix E_PREV = false ∧
  (E_PREV = E_NEXT → is_prefix line_idx = false ∧ is_suffix line_idx = false).
Proof.
  destruct MAX_ITEM_LINES_spec as [Hpos Hmax]. unfold is_prefix, is_suffix.
  split; [|split; [|split]].
  - apply prefix_not_suffix.
  - apply bool_decide_eq_false. lia.
  - apply bool_decide_eq_false. lia.
  - intros E. split; apply bool_decide_eq_false; lia.
Qed.

(** The script of [extra_cmt.changed] for an address of the database. *)
Definition extra_cmt_calls (ea line_idx : Z) (cmt : option string) : list op :=
  let count tag := match cmt with
                   | None => [Dec (context_at ea) ea tag]
                   | Some _ => [Inc (context_at ea) ea tag]
                   end in
  if bool_decide (line_idx = E_PREV ∧ E_PREV ≠ E_NEXT) then count "__extra_prefix__"
  else if bool_decide (line_idx = E_NEXT ∧ E_PREV ≠ E_NEXT) then count "__extra_suffix__"
  else [].

Lemma extra_cmt_changed_script ea line_idx cmt w :
  is_identifier ea = false → address_within ea = true →
  ∃ s, extra_cmt_changed ea line_idx cmt w = Return tt (played s w) ∧
       ops_of s = extra_cmt_calls ea line_idx cmt.
Proof.
  intros Hid Hin. destruct MAX_ITEM_LINES_spec as [Hpos Hmax].
  unfold extra_cmt_changed, extra_cmt_calls. rewrite Hid. unfold within. rewrite Hin.
  unfold ret at 1. cbv beta iota. unfold is_prefix, is_suffix, extra_cmt_count.
  destruct (bool_decide (E_PREV ≤ line_idx < E_PREV + MAX_ITEM_LINES)) eqn:P;
    [apply bool_decide_eq_true in P | apply bool_decide_eq_false in P].
  - destruct (decide (line_idx = E_PREV)) as [->|Hne].
    + rewrite (bool_decide_eq_false_2 (E_PREV ≠ E_PREV)) by (intros H; apply H; reflexivity).
      rewrite (bool_decide_eq_true_2 (E_PREV = E_PREV ∧ E_PREV ≠ E_NEXT)) by (split; lia).
      destruct cmt as [c|].
      * exists [Say DEBUG "extra_cmt_changed: Processing event";
                Do (Inc (context_at ea) ea "__extra_prefix__")].
        split; reflexivity.
      * exists [Say DEBUG "extra_cmt_changed: Processing event";
                Do (Dec (context_at ea) ea "__extra_prefix__")].
        split; reflexivity.
    + rewrite (bool_decide_eq_true_2 (line_idx ≠ E_PREV)) by exact Hne.
      rewrite (bool_decide_eq_false_2 (line_idx = E_PREV ∧ _)) by (intros [? _]; contradiction).
      rewrite (bool_decide_eq_false_2 (line_idx = E_NEXT ∧ _)) by (intros [? _]; lia).
      eexists [Say DEBUG _; Say DEBUG _]. split; reflexivity.
  - rewrite (bool_decide_eq_false_2 (line_idx = E_PREV ∧ _)) by (intros [? ?]; lia).
    destruct (bool_decide (E_NEXT ≤ line_idx < E_NEXT + MAX_ITEM_LINES)) eqn:S;
      [apply bool_decide_eq_true in S | apply bool_decide_eq_false in S].
    + destruct (decide (line_idx = E_NEXT)) as [->|Hne].
      * rewrite (bool_decide_eq_false_2 (E_NEXT ≠ E_NEXT)) by (intros H; apply H; reflexivity).
        rewrite (bool_decide_eq_true_2 (E_NEXT = E_NEXT ∧ E_PREV ≠ E_NEXT)) by (split; lia).
        destruct cmt as [c|].
        -- exists [Say DEBUG "extra_cmt_changed: Processing event";
                   Do (Inc (context_at ea) ea "__extra_suffix__")].
           split; reflexivity.
        -- exists [Say DEBUG "extra_cmt_changed: Processing event";
                   Do (Dec (context_at ea) ea "__extra_suffix__")].
           split; reflexivity.
      * rewrite (bool_decide_eq_true_2 (line_idx ≠ E_NEXT)) by exact Hne.
        rewrite (bool_decide_eq_false_2 (line_idx = E_NEXT ∧ _)) by (intros [? _]; contradiction).
        eexists [Say DEBUG _; Say DEBUG _]. split; reflexivity.
    + rewrite (bool_decide_eq_false_2 (line_idx = E_NEXT ∧ _)) by (intros [? ?]; lia).
      eexists [Say DEBUG _; Say FATAL _]. split; reflexivity.
Qed.

End extra_comments.

Lemma apply_ops_one o L : apply_ops [o] L = apply_op o L.
Proof. reflexivity. Qed.

(** A loop whose every turn makes one and the same call. *)
Lemma for_each_same_call {A} (l : list A) (body : A → M unit) (o : op) :
  (∀ x, x ∈ l → ∀ w, ∃ s, body x w = Return tt (played s w) ∧ ops_of s = [o]) →
  ∀ w, ∃ w', for_each l body w = Return tt w' ∧
             ledger w' = apply_ops (replicate (length l) o) (ledger w).
Proof.
  induction l as [|x l IH]; intros Hbody w.
  - exists w. split; reflexivity.
  - destruct (Hbody x (list_elem_of_here x l) w) as (s & E & O).
    destruct (IH (λ y Hy, Hbody y (list_elem_of_further y x l Hy)) (played s w))
      as (w' & E' & L').
    exists w'. cbn [for_each]. rewrite (bind_Return _ _ _ _ _ E). split; [exact E'|].
    rewrite L', played_ledger, O. reflexivity.
Qed.

Section individual_tags_properties.
Context {host : Idaapi} {sdk : Sdk}.


(** An extra comment that is set again is counted again: after the first
    line of the comment in front of an address was set a number of times
    and then removed once, the tag [__extra_prefix__] and the address have
    that number of references less one more than before; only when the
    line was set once are the counts what they were. *)
Theorem extra_comment_set_again_is_counted_again ea (cmts : list string) w :
  is_identifier ea = false → address_within ea = true → E_PREV ≠ E_NEXT →
  ∃ w', (for_each cmts (λ c, extra_cmt_changed ea E_PREV (Some c)) ;;;
         extra_cmt_changed ea E_PREV None) w = Return tt w' ∧
        tag_count (ledger w') (context_at ea) "__extra_prefix__" =
          pred (tag_count (ledger w) (context_at ea) "__extra_prefix__" + length cmts) ∧
        ref_count (ledger w') (context_at ea) ea =
          pred (ref_count (ledger w) (context_at ea) ea + length cmts).
Proof.
  intros Hid Hin Hne.
  assert (Hcalls : ∀ cmt, extra_cmt_calls ea E_PREV cmt =
                          [match cmt with
                           | Some _ => Inc (context_at ea) ea "__extra_prefix__"
                           | None => Dec (context_at ea) ea "__extra_prefix__"
                           end]).
  { intros cmt. unfold extra_cmt_calls.
    rewrite bool_decide_eq_true_2 by (split; [reflexivity | exact Hne]).
    destruct cmt; reflexivity. }
  destruct (for_each_same_call cmts (λ c, extra_cmt_changed ea E_PREV (Some c))
              (Inc (context_at ea) ea "__extra_prefix__")) with (w := w) as (w1 & E1 & L1).
  { intros c _ w0. destruct (extra_cmt_changed_script ea E_PREV (Some c) w0 Hid Hin)
      as (s & E & O). exists s. split; [exact E|]. rewrite O. apply Hcalls. }
  destruct (extra_cmt_changed_script ea E_PREV None w1 Hid Hin) as (s & E & O).
  exists (played s w1). split; [rewrite (bind_Return _ _ _ _ _ E1); exact E|].
  rewrite played_ledger, O, Hcalls, L1.
  change (apply_ops [?o] ?L) with (apply_op o L).
  rewrite tag_count_apply_op, ref_count_apply_op, tag_count_incs, ref_count_incs. simpl.
  rewrite !decide_True by (split; reflexivity). split; reflexivity.
Qed.

(** [item_color_changed] does nothing for an identifier, not even log.  For
    an address it cannot tell a color that is changed from one that is
    applied: after a number of colors were applied and the default color
    was restored once, the tag [__color__] and the address have that number
    of references less one more than before; only when one color was
    applied are the counts what they were. *)
Theorem color_applied_again_is_counted_again ea (colors : list Z) w :
  (is_identifier ea = true → ∀ color, item_color_changed ea color w = Return tt w) ∧
  (is_identifier ea = false → Forall (λ color, color ≠ COLOR_DEFAULT) colors →
   ∃ w', (for_each colors (item_color_changed ea) ;;;
          item_color_changed ea COLOR_DEFAULT) w = Return tt w' ∧
         tag_count (ledger w') (context_at ea) "__color__" =
           pred (tag_count (ledger w) (context_at ea) "__color__" + length colors) ∧
         ref_count (ledger w') (context_at ea) ea =
           pred (ref_count (ledger w) (context_at ea) ea + length colors) ∧
         (∀ ns key, (ns, key) ≠ (context_at ea, "__color__") →
                    tag_count (ledger w') ns key = tag_count (ledger w) ns key)).
Proof.
  split.
  - intros Hid color. unfold item_color_changed. rewrite Hid. reflexivity.
  - intros Hid Hcolors.
    destruct (for_each_same_call colors (item_color_changed ea)
                (Inc (context_at ea) ea "__color__")) with (w := w) as (w1 & E1 & L1).
    { intros c Hc w0. exists [Do (Inc (context_at ea) ea "__color__")].
      rewrite Forall_forall in Hcolors. specialize (Hcolors c Hc).
      unfold item_color_changed. rewrite Hid, bool_decide_eq_false_2 by exact Hcolors.
      split; reflexivity. }
    exists (played [Do (Dec (context_at ea) ea "__color__")] w1).
    split.
    { rewrite (bind_Return _ _ _ _ _ E1). unfold item_color_changed.
      rewrite Hid, bool_decide_eq_true_2 by reflexivity. reflexivity. }
    rewrite played_ledger, L1. simpl ops_of.
    change (apply_ops [?o] ?L) with (apply_op o L).
    split; [|split; [|intros ns key Hne]].
    + rewrite tag_count_apply_op, tag_count_incs. simpl.
      rewrite !decide_True by (split; reflexivity). reflexivity.
    + rewrite ref_count_apply_op, ref_count_incs. simpl.
      rewrite !decide_True by (split; reflexivity). reflexivity.
    + rewrite tag_count_apply_op, tag_count_incs. simpl.
      rewrite !decide_False by (intros [? ?]; apply Hne; congruence). reflexivity.
Qed.

End individual_tags_properties.

Section names.
Context {host : Idaapi} {sdk : Sdk}.

Lemma rename_script ea newname w :
  let labelQ := has_flag (get_full_flags ea) FF_LABL in
  let customQ := has_flag (get_full_flags ea) FF_NAME in
  let ctx := match get_func ea with
             | Some f => if bool_decide (f = ea) then Globals else Contents f
             | None => Globals
             end in
  ∃ s, rename ea newname w = Return tt (played s w) ∧
       ops_of s =
       if bool_decide (newname = "")
       then (if customQ && negb labelQ then [Dec ctx ea "__name__"] else [])
       else (if customQ then [] else [Inc ctx ea "__name__"]).
Proof.
  intros labelQ customQ ctx. unfold rename. fold labelQ customQ ctx.
  destruct (bool_decide (newname = "")), labelQ, customQ; cbn [negb andb orb when];
    first [ exists []; split; reflexivity
          | eexists [Do _; Say DEBUG _]; split; reflexivity ].
Qed.

(** [rename] returns and calls the ledger once at most, for the tag
    [__name__]: it increments when a name is given to an address that has
    no custom name, and it decrements when the name is taken from an
    address that has a custom name and no label.  An address that has a
    custom name can be given another name without being counted again.
    The tag is counted in the globals when the address is in no function
    or is the start of its function, and in the contents of the function
    otherwise. *)
Theorem rename_counts_a_name_once ea newname w :
  let labelQ := has_flag (get_full_flags ea) FF_LABL in
  let customQ := has_flag (get_full_flags ea) FF_NAME in
  let ctx := match get_func ea with
             | Some f => if bool_decide (f = ea) then Globals else Contents f
             | None => Globals
             end in
  ∃ w' added,
    rename ea newname w = Return tt w' ∧
    trace w' = trace w ++ added ∧
    ledger w' = apply_ops (calls added) (ledger w) ∧
    calls added =
      if bool_decide (newname = "")
      then (if customQ && negb labelQ then [Dec ctx ea "__name__"] else [])
      else (if customQ then [] else [Inc ctx ea "__name__"]).
Proof.
  intros labelQ customQ ctx.
  destruct (rename_script ea newname w) as (s & E & O).
  destruct (played_trace s w) as (added & T & C & _).
  exists (played s w), added. split; [exact E|]. split; [exact T|].
  split; [rewrite played_ledger, C; reflexivity|]. rewrite C. exact O.
Qed.

End names.

(** Giving a name to an address that has none, and then taking the name
    from it again once the host has flagged the address as named, leaves
    every count of the ledger as it was. *)
Theorem naming_then_removing_restores_counts
    (host : Idaapi) (before after : Sdk) ea (name : string) w :
  name ≠ "" →
  has_flag (@get_full_flags before ea) (@FF_NAME before) = false →
  has_flag (@get_full_flags after ea) (@FF_NAME after) = true →
  has_flag (@get_full_flags after ea) (@FF_LABL after) = false →
  ∃ w1 w2,
    @rename host before ea name w = Return tt w1 ∧
    @rename host after ea "" w1 = Return tt w2 ∧
    ledger w1 ≠ ledger w ∧
    (∀ ns key, tag_count (ledger w2) ns key = tag_count (ledger w) ns key) ∧
    (∀ ns ea', ref_count (ledger w2) ns ea' = ref_count (ledger w) ns ea').
Proof.
  intros Hname Hnone Hcustom Hlabel.
  destruct (@rename_script host before ea name w) as (s1 & E1 & C1).
  destruct (@rename_script host after ea "" (played s1 w)) as (s2 & E2 & C2).
  rewrite bool_decide_eq_false_2 in C1 by exact Hname. rewrite Hnone in C1.
  rewrite bool_decide_eq_true_2 in C2 by reflexivity. rewrite Hcustom, Hlabel in C2.
  cbn [negb andb] in C2.
  exists (played s1 w), (played s2 (played s1 w)). split; [exact E1|]. split; [exact E2|].
  rewrite !played_ledger, C1, C2.
  set (ctx := match get_func ea with
              | Some f => if bool_decide (f = ea) then Globals else Contents f
              | None => Globals
              end).
  rewrite !apply_ops_one.
  split; [|split].
  - intros Heq.
    apply (f_equal (λ L, tag_count L ctx "__name__")) in Heq.
    rewrite tag_count_apply_op in Heq. simpl in Heq.
    rewrite decide_True in Heq by (split; reflexivity). lia.
  - intros ns key.
    rewrite !tag_count_apply_op. unfold tag_delta.
    repeat case_decide; first [reflexivity | tauto].
  - intros ns ea'.
    rewrite !ref_count_apply_op. unfold ref_delta.
    repeat case_decide; first [reflexivity | tauto].
Qed.

Section extra_rows.
Context {host : Idaapi} {sdk : Sdk}.

Lemma seqZ_S (a : Z) (n : nat) : seqZ a (Z.of_nat (S n)) = a :: seqZ (a + 1) (Z.of_nat n).
Proof.
  rewrite seqZ_cons by lia. f_equal. f_equal; lia.
Qed.

Lemma Fcount_loop_present ea base (n : nat) a index :
  (∀ i, a ≤ i < a + Z.of_nat n → is_Some (sup_get ea (base + i))) →
  Fcount_loop ea base (seqZ a (Z.of_nat n)) index =
  match n with O => index | S _ => Some (a + Z.of_nat n - 1) end.
Proof.
  revert a index. induction n as [|n IH]; intros a index Hrows; [reflexivity|].
  rewrite seqZ_S. cbn [Fcount_loop].
  destruct (Hrows a) as [row Hrow]; [lia|]. rewrite Hrow.
  rewrite IH by (intros i Hi; apply Hrows; lia).
  destruct n; f_equal; lia.
Qed.

Lemma Fcount_loop_missing ea base (n : nat) a k index :
  a ≤ k < a + Z.of_nat n →
  (∀ i, a ≤ i < k → is_Some (sup_get ea (base + i))) →
  sup_get ea (base + k) = None →
  Fcount_loop ea base (seqZ a (Z.of_nat n)) index = Some k.
Proof.
  revert a index. induction n as [|n IH]; intros a index Hk Hrows Hnone; [lia|].
  rewrite seqZ_S. cbn [Fcount_loop].
  destruct (decide (a = k)) as [->|Hne]; [rewrite Hnone; reflexivity|].
  destruct (Hrows a) as [row Hrow]; [lia|]. rewrite Hrow.
  apply IH; [lia | intros i Hi; apply Hrows; lia | exact Hnone].
Qed.

(** [Fcount] returns the index of the first row that is missing, which is
    the number of rows of the extra comment, and [None] when the first row
    is missing.  When none of the [MAX_ITEM_LINES] rows is missing it
    returns the index of the last row, one less than their number.  When the
    two bases of the SDK are equal the loop has no turn and the function
    raises, its result not being bound. *)
Theorem Fcount_is_the_first_missing_row ea base w :
  (∀ k, 0 ≤ k < MAX_ITEM_LINES →
        (∀ i, 0 ≤ i < k → is_Some (sup_get ea (base + i))) →
        sup_get ea (base + k) = None →
        Fcount ea base w = Return (if decide (k = 0) then None else Some k) w) ∧
  (0 < MAX_ITEM_LINES →
   (∀ i, 0 ≤ i < MAX_ITEM_LINES → is_Some (sup_get ea (base + i))) →
   Fcount ea base w =
   Return (if decide (MAX_ITEM_LINES = 1) then None else Some (MAX_ITEM_LINES - 1)) w) ∧
  (E_PREV = E_NEXT → Fcount ea base w = Raise NameError w).
Proof.
  destruct MAX_ITEM_LINES_spec as [Hpos Hmax].
  assert (Hnat : MAX_ITEM_LINES = Z.of_nat (Z.to_nat MAX_ITEM_LINES)) by lia.
  split; [|split].
  - intros k Hk Hrows Hnone. unfold Fcount.
    replace (seqZ 0 MAX_ITEM_LINES) with (seqZ 0 (Z.of_nat (Z.to_nat MAX_ITEM_LINES)))
      by (f_equal; lia).
    rewrite (Fcount_loop_missing ea base _ 0 k) by (try assumption; lia).
    unfold ret. destruct (decide (k = 0)) as [->|Hne].
    + rewrite bool_decide_eq_true_2 by reflexivity. reflexivity.
    + rewrite bool_decide_eq_false_2 by exact Hne. reflexivity.
  - intros Hmore Hrows. unfold Fcount.
    replace (seqZ 0 MAX_ITEM_LINES) with (seqZ 0 (Z.of_nat (Z.to_nat MAX_ITEM_LINES)))
      by (f_equal; lia).
    rewrite Fcount_loop_present by (intros i Hi; apply Hrows; lia).
    destruct (Z.to_nat MAX_ITEM_LINES) as [|n] eqn:En; [lia|].
    replace (0 + Z.of_nat (S n) - 1) with (MAX_ITEM_LINES - 1) by lia.
    unfold ret. destruct (decide (MAX_ITEM_LINES = 1)) as [E1|Hne].
    + rewrite bool_decide_eq_true_2 by lia. reflexivity.
    + rewrite bool_decide_eq_false_2 by lia. reflexivity.
  - intros Heq. unfold Fcount.
    replace MAX_ITEM_LINES with 0 by lia. reflexivity.
Qed.

(** The steps of one turn of the loop of [changed_multiple]. *)
Definition presence_steps (ea line_idx : Z) (cmt : option string) (l r : Z) (key : string)
  : list step :=
  if bool_decide (l ≤ line_idx < r) then
    match sup_get ea line_idx, cmt with
    | None, Some _ => [Do (Inc (context_at ea) ea key)]
    | Some _, None => [Do (Dec (context_at ea) ea key)]
    | _, _ => []
    end ++ [Say DEBUG "extra_cmt_changed: reference count at address for tag"]
  else [].

Lemma extra_cmt_changed_multiple_script ea line_idx cmt w :
  is_identifier ea = false → address_within ea = true →
  extra_cmt_changed_multiple ea line_idx cmt w =
  Return tt (played ([Say DEBUG "extra_cmt_changed: Processing event with previous comment"] ++
                     presence_steps ea line_idx cmt E_PREV (E_PREV + MAX_ITEM_LINES)
                       "__extra_prefix__" ++
                     presence_steps ea line_idx cmt E_NEXT (E_NEXT + MAX_ITEM_LINES)
                       "__extra_suffix__") w).
Proof.
  intros Hid Hin. unfold extra_cmt_changed_multiple. rewrite Hid. unfold within. rewrite Hin.
  unfold ret at 1. cbv beta iota zeta. unfold presence_steps. cbn [for_each].
  destruct (bool_decide (E_PREV ≤ line_idx < _)), (bool_decide (E_NEXT ≤ line_idx < _)),
    (sup_get ea line_idx), cmt; reflexivity.
Qed.

(** [changed_multiple], the older handler of extra comments, compares the
    row that is stored for the line with the comment of the notification,
    and calls the ledger only when the one is there and the other is not:
    an increment when the line appears, a decrement when it goes, for
    [__extra_prefix__] or for [__extra_suffix__] as the line tells.  A line
    that is there before and after makes no call, nor does a line of
    neither kind. *)
Theorem changed_multiple_counts_a_line_that_appears_or_goes ea line_idx cmt w :
  is_identifier ea = false → address_within ea = true →
  ∃ w' added,
    extra_cmt_changed_multiple ea line_idx cmt w = Return tt w' ∧
    trace w' = trace w ++ added ∧
    ledger w' = apply_ops (calls added) (ledger w) ∧
    ((is_Some (sup_get ea line_idx) ↔ is_Some cmt) → calls added = []) ∧
    (is_prefix line_idx = false → is_suffix line_idx = false → calls added = []) ∧
    (∀ key, (is_prefix line_idx = true ∧ key = "__extra_prefix__") ∨
            (is_suffix line_idx = true ∧ key = "__extra_suffix__") →
       (sup_get ea line_idx = None → is_Some cmt →
          calls added = [Inc (context_at ea) ea key]) ∧
       (is_Some (sup_get ea line_idx) → cmt = None →
          calls added = [Dec (context_at ea) ea key])).
Proof.
  intros Hid Hin. rewrite (extra_cmt_changed_multiple_script ea line_idx cmt w Hid Hin).
  destruct (played_trace
    ([Say DEBUG "extra_cmt_changed: Processing event with previous comment"] ++
     presence_steps ea line_idx cmt E_PREV (E_PREV + MAX_ITEM_LINES) "__extra_prefix__" ++
     presence_steps ea line_idx cmt E_NEXT (E_NEXT + MAX_ITEM_LINES) "__extra_suffix__") w)
    as (added & T & C & _).
  eexists _, added. split; [reflexivity|]. split; [exact T|].
  split; [rewrite played_ledger, C; reflexivity|]. rewrite C. clear T C.
  pose proof (prefix_not_suffix line_idx) as Hdisj.
  unfold presence_steps. fold (is_prefix line_idx) (is_suffix line_idx).
  split; [|split].
  - intros [H1 H2].
    destruct (is_prefix line_idx), (is_suffix line_idx), (sup_get ea line_idx) as [row|],
      cmt as [c|]; try reflexivity;
      first [ exfalso; apply (is_Some_None (A := string)); apply H1; eexists; reflexivity
            | exfalso; apply (is_Some_None (A := string)); apply H2; eexists; reflexivity ].
  - intros -> ->. reflexivity.
  - intros key [[Hp ->]|[Hs ->]].
    + rewrite Hp in *. cbn [andb] in Hdisj. rewrite Hdisj. split.
      * intros -> [c ->]. reflexivity.
      * intros [row ->] ->. reflexivity.
    + rewrite Hs in *. destruct (is_prefix line_idx); [discriminate|]. split.
      * intros -> [c ->]. reflexivity.
      * intros [row ->] ->. reflexivity.
Qed.

End extra_rows.

(** ** Functions that are made, removed and resized *)

Section function_scope.
Context {host : Idaapi} {sdk : Sdk}.

(** The tags of a run of addresses: every address with every key. *)
Definition range_tags (l r : Z) : list (Z * string) :=
  flat_map (λ ea, pair ea <$> tag_keys ea) (address_iterate l r).

Definition add_func (pfn : Z) : M unit :=
  for_each (function_chunks pfn) (λ '(l, r),
    for_each (address_iterate l (address_prev r)) (λ ea,
      for_each (tag_keys ea) (λ k,
        call (Dec Globals ea k) ;;;
        call (Inc (Contents pfn) ea k) ;;;
        log DEBUG "add_func: Exchanging reference count"))).

Definition del_func (pfn : Z) : M unit :=
  for_each (function_chunks pfn) (λ '(l, r),
    for_each (address_iterate l (address_prev r)) (λ ea,
      for_each (tag_keys ea) (λ k,
        call (Dec (Contents pfn) ea k) ;;;
        call (Inc Globals ea k) ;;;
        log DEBUG "del_func: Exchanging reference count"))) ;;;
  for_each (elements (dom (function_tag pfn))) (λ k,
    call (Dec Globals pfn k) ;;;
    log DEBUG "del_func: Removing (global) tag from function").

(** [pfn] is the start of the function. *)
Definition set_func_start (pfn : Z) (new_start : Z) : M unit :=
  if bool_decide (pfn > new_start) then
    for_each (address_iterate new_start (address_prev pfn)) (λ ea,
      for_each (tag_keys ea) (λ k,
        call (Dec (Contents pfn) ea k) ;;;
        call (Inc Globals ea k) ;;;
        log DEBUG "set_func_start: Exchanging reference count"))
  else if bool_decide (pfn < new_start) then
    for_each (address_iterate pfn (address_prev new_start)) (λ ea,
      for_each (tag_keys ea) (λ k,
        call (Dec Globals ea k) ;;;
        call (Inc (Contents pfn) ea k) ;;;
        log DEBUG "set_func_start: Exchanging reference count"))
  else ret tt.

(** [pfn] is the start and the end of the function. *)
Definition set_func_end (pfn : Z * Z) (new_end : Z) : M unit :=
  if bool_decide (new_end > pfn.2) then
    for_each (address_iterate pfn.2 (address_prev new_end)) (λ ea,
      for_each (tag_keys ea) (λ k,
        call (Dec Globals ea k) ;;;
        call (Inc (Contents pfn.1) ea k) ;;;
        log DEBUG "set_func_end: Exchanging reference count"))
  else if bool_decide (new_end < pfn.2) then
    for_each (address_iterate new_end (address_prev pfn.2)) (λ ea,
      for_each (tag_keys ea) (λ k,
        call (Dec (Contents pfn.1) ea k) ;;;
        call (Inc Globals ea k) ;;;
        log DEBUG "set_func_end: Exchanging reference count"))
  else ret tt.

(** [func_tail_removed]: the addresses of the contents of the function that
    the host no longer has in the function are taken for the chunk that
    was removed. *)
Definition func_tail_removed (pfn : Z) (ea : Z) : M unit :=
  L <- get_ledger ;;;
  let listable := elements (known_addresses L pfn) in
  let missing := filter (λ item, get_func item ≠ Some pfn) listable in
  match missing with
  | [] => ret tt
  | item :: rest =>
      for_each (address_iterate (fold_left Z.min rest item) (fold_left Z.max rest item)) (λ ea,
        for_each (tag_keys ea) (λ k,
          call (Dec (Contents pfn) ea k) ;;;
          call (Inc Globals ea k) ;;;
          log DEBUG "func_tail_removed: Exchanging reference count"))
  end.

(** The loops over the tags of a function and of a run of addresses, as
    scripts. *)
Lemma range_loop_script (body : Z → string → M unit) (f : Z * string → list step) l r w :
  (∀ ea k w, body ea k w = run_script (f (ea, k)) w) →
  for_each (address_iterate l r) (λ ea, for_each (tag_keys ea) (body ea)) w =
  run_script (flat_map f (range_tags l r)) w.
Proof.
  intros Hbody. unfold range_tags. rewrite <- flat_map_pairs.
  apply for_each_script. intros ea w'. apply for_each_script. intros k w''. apply Hbody.
Qed.

Lemma chunks_loop_script (body : Z → string → M unit) (f : Z * string → list step) fn w :
  (∀ ea k w, body ea k w = run_script (f (ea, k)) w) →
  for_each (function_chunks fn) (λ '(l, r),
    for_each (address_iterate l (address_prev r)) (λ ea,
      for_each (tag_keys ea) (body ea))) w =
  run_script (flat_map f (function_tags fn)) w.
Proof.
  intros Hbody. unfold function_tags.
  rewrite (for_each_script _ _
    (λ c : Z * Z, flat_map f (range_tags c.1 (address_prev c.2)))).
  - f_equal. induction (function_chunks fn) as [|c cs IH]; [reflexivity|].
    simpl. rewrite flat_map_app, IH. reflexivity.
  - intros [l r] w'. apply range_loop_script. exact Hbody.
Qed.

Definition demote_steps (pfn : Z) (msg : string) (p : Z * string) : list step :=
  [Do (Dec Globals p.1 p.2); Do (Inc (Contents pfn) p.1 p.2); Say DEBUG msg].

Definition promote_steps (pfn : Z) (msg : string) (p : Z * string) : list step :=
  [Do (Dec (Contents pfn) p.1 p.2); Do (Inc Globals p.1 p.2); Say DEBUG msg].

Lemma ops_of_demote_steps pfn msg ps :
  ops_of (flat_map (demote_steps pfn msg) ps) = flat_map (demote_calls pfn) ps.
Proof. rewrite ops_of_flat_map. reflexivity. Qed.

Lemma ops_of_promote_steps pfn msg ps :
  ops_of (flat_map (promote_steps pfn msg) ps) = flat_map (promote_calls pfn) ps.
Proof. rewrite ops_of_flat_map. reflexivity. Qed.

Lemma add_func_script pfn w :
  add_func pfn w =
  run_script (flat_map (demote_steps pfn "add_func: Exchanging reference count")
                (function_tags pfn)) w.
Proof. unfold add_func. apply chunks_loop_script. intros ea k w'. reflexivity. Qed.

Definition function_tag_steps (pfn : Z) : list step :=
  flat_map (λ k, [Do (Dec Globals pfn k);
                  Say DEBUG "del_func: Removing (global) tag from function"])
    (elements (dom (function_tag pfn))).

Lemma del_func_script pfn w :
  del_func pfn w =
  run_script (flat_map (promote_steps pfn "del_func: Exchanging reference count")
                (function_tags pfn) ++ function_tag_steps pfn) w.
Proof.
  unfold del_func. rewrite run_script_app. unfold bind.
  rewrite (chunks_loop_script _ (promote_steps pfn "del_func: Exchanging reference count"))
    by (intros ea k w'; reflexivity).
  destruct (run_script _ w) as [[] w1|e w1]; [|reflexivity].
  unfold function_tag_steps. apply for_each_script. intros k w'. reflexivity.
Qed.

End function_scope.

(** ** Counting what whole functions and runs of addresses carry *)

Definition carries (ps : list (Z * string)) (key : string) : nat :=
  hits (λ p : Z * string, bool_decide (p.2 = key)) ps.

Definition keys_of (ps : list (Z * string)) (ea : Z) : nat :=
  hits (λ p : Z * string, bool_decide (p.1 = ea)) ps.

Definition tally_calls (pfn : Z) (p : Z * string) : list op := [Inc (Contents pfn) p.1 p.2].
Definition untally_calls (pfn : Z) (p : Z * string) : list op := [Dec (Contents pfn) p.1 p.2].

Ltac count_groups :=
  let E := fresh "E" in
  intros ? ?; simpl;
  match goal with
  | |- context [bool_decide ?P] =>
      destruct (bool_decide P) eqn:E;
      [apply bool_decide_eq_true in E | apply bool_decide_eq_false in E]
  | _ => idtac
  end;
  repeat match goal with
    | |- context [decide ?P] => destruct (decide P)
    end;
  first [reflexivity | exfalso; intuition congruence].

Lemma tally_tag_count pfn ps L ns key :
  tag_count (apply_ops (flat_map (tally_calls pfn) ps) L) ns key =
  if decide (ns = Contents pfn) then (tag_count L ns key + carries ps key)%nat
  else tag_count L ns key.
Proof.
  rewrite tag_count_apply_ops. unfold carries.
  destruct (decide (ns = Contents pfn)) as [->|Hne].
  - rewrite <- iter_S. apply fold_groups. count_groups.
  - rewrite (fold_groups _ _ (λ _, false) id); [apply iter_id|]. count_groups.
Qed.

Lemma untally_tag_count pfn ps L ns key :
  tag_count (apply_ops (flat_map (untally_calls pfn) ps) L) ns key =
  if decide (ns = Contents pfn) then (tag_count L ns key - carries ps key)%nat
  else tag_count L ns key.
Proof.
  rewrite tag_count_apply_ops. unfold carries.
  destruct (decide (ns = Contents pfn)) as [->|Hne].
  - rewrite <- iter_pred. apply fold_groups. count_groups.
  - rewrite (fold_groups _ _ (λ _, false) id); [apply iter_id|]. count_groups.
Qed.

Lemma tally_ref_count pfn ps L ns ea :
  ref_count (apply_ops (flat_map (tally_calls pfn) ps) L) ns ea =
  if decide (ns = Contents pfn) then (ref_count L ns ea + keys_of ps ea)%nat
  else ref_count L ns ea.
Proof.
  rewrite ref_count_apply_ops. unfold keys_of.
  destruct (decide (ns = Contents pfn)) as [->|Hne].
  - rewrite <- iter_S. apply fold_groups. count_groups.
  - rewrite (fold_groups _ _ (λ _, false) id); [apply iter_id|]. count_groups.
Qed.

Lemma untally_ref_count pfn ps L ns ea :
  ref_count (apply_ops (flat_map (untally_calls pfn) ps) L) ns ea =
  if decide (ns = Contents pfn) then (ref_count L ns ea - keys_of ps ea)%nat
  else ref_count L ns ea.
Proof.
  rewrite ref_count_apply_ops. unfold keys_of.
  destruct (decide (ns = Contents pfn)) as [->|Hne].
  - rewrite <- iter_pred. apply fold_groups. count_groups.
  - rewrite (fold_groups _ _ (λ _, false) id); [apply iter_id|]. count_groups.
Qed.

(** Tags that go from the globals into the contents of a function and
    back, when the globals counted them. *)
Lemma demote_then_promote_counts pfn ps L :
  (∀ key, (carries ps key ≤ globals_count L key)%nat) →
  (∀ ea, (keys_of ps ea ≤ globals_refs L ea)%nat) →
  let L' := apply_ops (flat_map (promote_calls pfn) ps)
              (apply_ops (flat_map (demote_calls pfn) ps) L) in
  (∀ ns key, tag_count L' ns key = tag_count L ns key) ∧
  (∀ ns ea, ref_count L' ns ea = ref_count L ns ea).
Proof.
  intros Hkeys Hrefs L'. unfold L'. split.
  - intros ns key. rewrite promote_tag_count, demote_tag_count. destruct ns as [|fn].
    + specialize (Hkeys key). unfold carries in Hkeys. simpl. lia.
    + destruct (decide (fn = pfn)); [lia | reflexivity].
  - intros ns ea. rewrite promote_ref_count, demote_ref_count. destruct ns as [|fn].
    + specialize (Hrefs ea). unfold keys_of in Hrefs. simpl. lia.
    + destruct (decide (fn = pfn)); [lia | reflexivity].
Qed.

Lemma tag_count_same_after ops L L' :
  (∀ ns key, tag_count L' ns key = tag_count L ns key) →
  ∀ ns key, tag_count (apply_ops ops L') ns key = tag_count (apply_ops ops L) ns key.
Proof. intros E ns key. rewrite !tag_count_apply_ops, E. reflexivity. Qed.

Lemma ref_count_same_after ops L L' :
  (∀ ns ea, ref_count L' ns ea = ref_count L ns ea) →
  ∀ ns ea, ref_count (apply_ops ops L') ns ea = ref_count (apply_ops ops L) ns ea.
Proof. intros E ns ea. rewrite !ref_count_apply_ops, E. reflexivity. Qed.

Section function_scope_properties.
Context {host : Idaapi} {sdk : Sdk}.

Lemma ops_of_function_tag_steps pfn :
  ops_of (function_tag_steps pfn) = Dec Globals pfn <$> elements (dom (function_tag pfn)).
Proof.
  unfold function_tag_steps. rewrite ops_of_flat_map.
  induction (elements (dom (function_tag pfn))) as [|k ks IH]; [reflexivity|].
  cbn [flat_map]. rewrite IH. reflexivity.
Qed.

(** A function that is made and removed again, when the globals counted
    the tags of its addresses to begin with: [del_func] takes back every
    exchange that [add_func] made, and then takes the tags of the function
    itself from the globals, so that every count is what these decrements
    alone make of it; for a function without tags of its own, every count
    is what it was. *)
Theorem add_func_then_del_func pfn w :
  (∀ key, (carries (function_tags pfn) key ≤ globals_count (ledger w) key)%nat) →
  (∀ ea, (keys_of (function_tags pfn) ea ≤ globals_refs (ledger w) ea)%nat) →
  ∃ w1 w2,
    add_func pfn w = Return tt w1 ∧
    del_func pfn w1 = Return tt w2 ∧
    let own := Dec Globals pfn <$> elements (dom (function_tag pfn)) in
    (∀ ns key, tag_count (ledger w2) ns key = tag_count (apply_ops own (ledger w)) ns key) ∧
    (∀ ns ea, ref_count (ledger w2) ns ea = ref_count (apply_ops own (ledger w)) ns ea) ∧
    (function_tag pfn = ∅ →
       (∀ ns key, tag_count (ledger w2) ns key = tag_count (ledger w) ns key) ∧
       (∀ ns ea, ref_count (ledger w2) ns ea = ref_count (ledger w) ns ea)).
Proof.
  intros Hkeys Hrefs.
  set (s1 := flat_map (demote_steps pfn "add_func: Exchanging reference count")
               (function_tags pfn)).
  set (s2 := flat_map (promote_steps pfn "del_func: Exchanging reference count")
               (function_tags pfn) ++ function_tag_steps pfn).
  exists (played s1 w), (played s2 (played s1 w)).
  split; [rewrite add_func_script; apply run_script_returns|].
  split; [rewrite del_func_script; apply run_script_returns|].
  destruct (demote_then_promote_counts pfn (function_tags pfn) (ledger w) Hkeys Hrefs)
    as [Ht Hr].
  assert (L2 : ledger (played s2 (played s1 w)) =
               apply_ops (Dec Globals pfn <$> elements (dom (function_tag pfn)))
                 (apply_ops (flat_map (promote_calls pfn) (function_tags pfn))
                    (apply_ops (flat_map (demote_calls pfn) (function_tags pfn)) (ledger w)))).
  { rewrite !played_ledger. unfold s1, s2.
    rewrite ops_of_app, apply_ops_app, ops_of_promote_steps, ops_of_demote_steps,
      ops_of_function_tag_steps. reflexivity. }
  cbv zeta. rewrite L2.
  split; [apply tag_count_same_after, Ht|]. split; [apply ref_count_same_after, Hr|].
  intros Hnone. rewrite Hnone, dom_empty_L, elements_empty. split; [exact Ht | exact Hr].
Qed.

Lemma set_func_end_grows s e n w :
  e < n →
  set_func_end (s, e) n w =
  run_script (flat_map (demote_steps s "set_func_end: Exchanging reference count")
                (range_tags e (address_prev n))) w.
Proof.
  intros Hlt. unfold set_func_end. cbn [fst snd].
  rewrite bool_decide_eq_true_2 by lia.
  apply range_loop_script. intros ea k w'. reflexivity.
Qed.

Lemma set_func_end_shrinks s e n w :
  n < e →
  set_func_end (s, e) n w =
  run_script (flat_map (promote_steps s "set_func_end: Exchanging reference count")
                (range_tags n (address_prev e))) w.
Proof.
  intros Hlt. unfold set_func_end. cbn [fst snd].
  rewrite bool_decide_eq_false_2 by lia. rewrite bool_decide_eq_true_2 by lia.
  apply range_loop_script. intros ea k w'. reflexivity.
Qed.

(** The end of a function that is moved up and then back: the tags of the
    addresses in between go from the globals into the contents of the
    function and back, and every count is what it was, when the globals
    counted these tags to begin with.  An end that is set to what it is
    makes no call and logs nothing, and so does a start. *)
Theorem set_func_end_there_and_back s e n w :
  (e < n →
   (∀ key, (carries (range_tags e (address_prev n)) key ≤ globals_count (ledger w) key)%nat) →
   (∀ ea, (keys_of (range_tags e (address_prev n)) ea ≤ globals_refs (ledger w) ea)%nat) →
   ∃ w1 w2,
     set_func_end (s, e) n w = Return tt w1 ∧
     set_func_end (s, n) e w1 = Return tt w2 ∧
     (∀ key, contents_count (ledger w1) s key =
             (contents_count (ledger w) s key + carries (range_tags e (address_prev n)) key)%nat) ∧
     (∀ ns key, tag_count (ledger w2) ns key = tag_count (ledger w) ns key) ∧
     (∀ ns ea, ref_count (ledger w2) ns ea = ref_count (ledger w) ns ea)) ∧
  set_func_end (s, e) e w = Return tt w ∧
  set_func_start s s w = Return tt w.
Proof.
  split; [|split].
  - intros Hlt Hkeys Hrefs.
    set (ps := range_tags e (address_prev n)) in *.
    set (s1 := flat_map (demote_steps s "set_func_end: Exchanging reference count") ps).
    set (s2 := flat_map (promote_steps s "set_func_end: Exchanging reference count") ps).
    exists (played s1 w), (played s2 (played s1 w)).
    split; [rewrite set_func_end_grows by exact Hlt; apply run_script_returns|].
    split; [rewrite set_func_end_shrinks by exact Hlt; apply run_script_returns|].
    rewrite !played_ledger. unfold s1, s2.
    rewrite ops_of_promote_steps, ops_of_demote_steps.
    split.
    + intros key. pose proof (demote_tag_count s ps (ledger w) (Contents s) key) as D.
      simpl in D. rewrite decide_True in D by reflexivity. exact D.
    + apply (demote_then_promote_counts s ps (ledger w) Hkeys Hrefs).
  - unfold set_func_end. cbn [fst snd]. rewrite !bool_decide_eq_false_2 by lia. reflexivity.
  - unfold set_func_start. rewrite !bool_decide_eq_false_2 by lia. reflexivity.
Qed.

End function_scope_properties.

Lemma fold_left_min_spec (rest : list Z) (item : Z) :
  fold_left Z.min rest item ∈ item :: rest ∧
  ∀ x, x ∈ item :: rest → fold_left Z.min rest item ≤ x.
Proof.
  revert item. induction rest as [|y rest IH]; intros item.
  - simpl. split; [left|]. intros x Hx. apply list_elem_of_singleton in Hx as ->. lia.
  - cbn [fold_left]. destruct (IH (Z.min item y)) as [Hin Hle]. split.
    + apply elem_of_cons in Hin as [Hin|Hin].
      * rewrite Hin. destruct (Z.min_spec item y) as [[_ ->]|[_ ->]]; [left | right; left].
      * right. right. exact Hin.
    + intros x Hx. pose proof (Hle (Z.min item y) (list_elem_of_here _ _)) as Hm.
      apply elem_of_cons in Hx as [Hx|Hx]; [lia|].
      apply elem_of_cons in Hx as [Hx|Hx]; [lia|].
      apply Hle. right. exact Hx.
Qed.

Lemma fold_left_max_spec (rest : list Z) (item : Z) :
  fold_left Z.max rest item ∈ item :: rest ∧
  ∀ x, x ∈ item :: rest → x ≤ fold_left Z.max rest item.
Proof.
  revert item. induction rest as [|y rest IH]; intros item.
  - simpl. split; [left|]. intros x Hx. apply list_elem_of_singleton in Hx as ->. lia.
  - cbn [fold_left]. destruct (IH (Z.max item y)) as [Hin Hle]. split.
    + apply elem_of_cons in Hin as [Hin|Hin].
      * rewrite Hin. destruct (Z.max_spec item y) as [[_ ->]|[_ ->]]; [right; left | left].
      * right. right. exact Hin.
    + intros x Hx. pose proof (Hle (Z.max item y) (list_elem_of_here _ _)) as Hm.
      apply elem_of_cons in Hx as [Hx|Hx]; [lia|].
      apply elem_of_cons in Hx as [Hx|Hx]; [lia|].
      apply Hle. right. exact Hx.
Qed.

Lemma elem_of_range_tags {host : Idaapi} l r a k :
  (a, k) ∈ range_tags l r ↔ a ∈ address_iterate l r ∧ k ∈ dom (database_tag a).
Proof.
  unfold range_tags. rewrite list_elem_of_In, in_flat_map. split.
  - intros (ea & Hea & Hk).
    apply list_elem_of_In, list_elem_of_fmap in Hk as (k' & Hk & Hin). simplify_eq.
    split; [apply list_elem_of_In; exact Hea|].
    unfold tag_keys in Hin. apply elem_of_elements in Hin. exact Hin.
  - intros [Hea Hk]. exists a. split; [apply list_elem_of_In; exact Hea|].
    apply list_elem_of_In, list_elem_of_fmap. exists k. split; [reflexivity|].
    unfold tag_keys. apply elem_of_elements. exact Hk.
Qed.

Lemma elem_of_promote_calls pfn ps c :
  c ∈ flat_map (promote_calls pfn) ps ↔
  ∃ a k, (a, k) ∈ ps ∧ (c = Dec (Contents pfn) a k ∨ c = Inc Globals a k).
Proof.
  rewrite list_elem_of_In, in_flat_map. split.
  - intros ([a k] & Hp & Hc). exists a, k. split; [apply list_elem_of_In; exact Hp|].
    simpl in Hc. destruct Hc as [<-|[<-|[]]]; [left | right]; reflexivity.
  - intros (a & k & Hp & Hc). exists (a, k). split; [apply list_elem_of_In; exact Hp|].
    simpl. destruct Hc as [->| ->]; [left | right; left]; reflexivity.
Qed.

Section tails_removed.
Context {host : Idaapi} {sdk : Sdk}.

(** An address of the contents of the function that the host does not
    have in the function any more. *)
Definition gone (L : Ledger) (pfn a : Z) : Prop :=
  a ∈ known_addresses L pfn ∧ get_func a ≠ Some pfn.

(** [func_tail_removed] returns.  When every address of the contents of
    the function is still in the function it does nothing.  Otherwise it
    walks from the lowest to the highest of the addresses that are gone,
    and for every tag of every address on the way, gone or not, it
    decrements the contents of the function once and then increments the
    globals once; these are its calls, in the order of the walk, and it
    makes no other. *)
Theorem func_tail_removed_promotes_what_is_gone pfn ea w :
  ∃ w' added,
    func_tail_removed pfn ea w = Return tt w' ∧
    trace w' = trace w ++ added ∧
    ledger w' = apply_ops (calls added) (ledger w) ∧
    ((∀ a, ¬ gone (ledger w) pfn a) → w' = w) ∧
    (∀ lo hi, gone (ledger w) pfn lo → gone (ledger w) pfn hi →
              (∀ m, gone (ledger w) pfn m → lo ≤ m ≤ hi) →
              calls added =
                flat_map (λ a,
                    flat_map (λ k, [Dec (Contents pfn) a k; Inc Globals a k])
                      (elements (dom (database_tag a))))
                  (address_iterate lo hi) ∧
              ∀ c, c ∈ calls added ↔
                   ∃ a k, a ∈ address_iterate lo hi ∧ k ∈ dom (database_tag a) ∧
                          (c = Dec (Contents pfn) a k ∨ c = Inc Globals a k)).
Proof.
  unfold func_tail_removed.
  rewrite (bind_Return get_ledger _ w (ledger w) w eq_refl). cbv zeta.
  set (missing := filter (λ item, get_func item ≠ Some pfn)
                    (elements (known_addresses (ledger w) pfn))).
  assert (Hmissing : ∀ a, a ∈ missing ↔ gone (ledger w) pfn a).
  { intros a. unfold missing, gone. rewrite list_elem_of_filter, elem_of_elements. tauto. }
  destruct missing as [|item rest] eqn:Em.
  - exists w, []. split; [reflexivity|]. split; [rewrite app_nil_r; reflexivity|].
    split; [reflexivity|]. split; [reflexivity|].
    intros lo hi Hlo. apply Hmissing in Hlo. apply elem_of_nil in Hlo. destruct Hlo.
  - destruct (fold_left_min_spec rest item) as [Hmin_in Hmin].
    destruct (fold_left_max_spec rest item) as [Hmax_in Hmax].
    set (lo := fold_left Z.min rest item) in *. set (hi := fold_left Z.max rest item) in *.
    set (s := flat_map (promote_steps pfn "func_tail_removed: Exchanging reference count")
                (range_tags lo hi)).
    destruct (played_trace s w) as (added & T & C & _).
    exists (played s w), added.
    split.
    { rewrite <- run_script_returns. apply range_loop_script. intros a k w'. reflexivity. }
    split; [exact T|]. split; [rewrite played_ledger, C; reflexivity|].
    split.
    { intros Hnone. exfalso. apply (Hnone item), Hmissing. left. }
    intros lo' hi' Hlo Hhi Hall.
    assert (lo' = lo).
    { apply Hmissing in Hlo. apply Hmin in Hlo.
      apply Hmissing in Hmin_in. apply Hall in Hmin_in. lia. }
    assert (hi' = hi).
    { apply Hmissing in Hhi. apply Hmax in Hhi.
      apply Hmissing in Hmax_in. apply Hall in Hmax_in. lia. }
    subst lo' hi'. rewrite C. unfold s. rewrite ops_of_promote_steps.
    split.
    { unfold range_tags. rewrite <- (flat_map_pairs (promote_calls pfn)). reflexivity. }
    intros c. rewrite elem_of_promote_calls.
    split.
    + intros (a & k & Hp & Hc). apply elem_of_range_tags in Hp as [Ha Hk].
      exists a, k. split; [exact Ha|]. split; [exact Hk | exact Hc].
    + intros (a & k & Ha & Hk & Hc). exists a, k.
      split; [apply elem_of_range_tags; split; assumption | exact Hc].
Qed.

End tails_removed.

Section shared_tails.
Context {host : Idaapi}.

Lemma func_tail_appended_shared pfn bounds w :
  (1 < length (chunk_owners (fst bounds)))%nat →
  ∃ script, func_tail_appended pfn bounds w = Return tt (played script w) ∧
            ops_of script = flat_map (tally_calls pfn) (tail_tags bounds).
Proof.
  intros Hmany. unfold func_tail_appended.
  rewrite bool_decide_eq_true_2 by exact Hmany.
  set (warn := absent_owner_warning pfn bounds
    "func_tail_appended: function was not found in the owners of chunk").
  set (body := λ p : Z * string,
         [Do (Inc (Contents pfn) p.1 p.2);
          Say DEBUG "func_tail_appended: Adding reference for tag"]).
  exists (warn ++ flat_map body (tail_tags bounds)). split.
  - rewrite <- run_script_returns, run_script_app. unfold bind.
    assert (E : ∀ w, when (bool_decide (pfn ∉ chunk_owners bounds.1))
                  (log WARNING "func_tail_appended: function was not found in the owners of chunk") w
                = run_script warn w).
    { intros w'. unfold warn, absent_owner_warning. destruct (bool_decide _); reflexivity. }
    rewrite E, run_script_returns. unfold tail_tags. rewrite <- flat_map_pairs.
    apply for_each_script. intros ea w'. apply for_each_script. intros k w''. reflexivity.
  - rewrite ops_of_app. unfold warn, absent_owner_warning.
    destruct (bool_decide _); simpl; rewrite ops_of_flat_map; reflexivity.
Qed.

Lemma removing_func_tail_shared pfn bounds w :
  (1 < length (chunk_owners (fst bounds)))%nat →
  ∃ script, removing_func_tail pfn bounds w = Return tt (played script w) ∧
            ops_of script = flat_map (untally_calls pfn) (tail_tags bounds).
Proof.
  intros Hmany. unfold removing_func_tail.
  rewrite bool_decide_eq_true_2 by exact Hmany.
  set (warn := absent_owner_warning pfn bounds
    "removing_func_tail: function was not found in the owners of chunk").
  set (body := λ p : Z * string,
         [Do (Dec (Contents pfn) p.1 p.2);
          Say DEBUG "removing_func_tail: Decreasing reference for tag"]).
  exists (warn ++ flat_map body (tail_tags bounds)). split.
  - rewrite <- run_script_returns, run_script_app. unfold bind.
    assert (E : ∀ w, when (bool_decide (pfn ∉ chunk_owners bounds.1))
                  (log WARNING "removing_func_tail: function was not found in the owners of chunk") w
                = run_script warn w).
    { intros w'. unfold warn, absent_owner_warning. destruct (bool_decide _); reflexivity. }
    rewrite E, run_script_returns. unfold tail_tags. rewrite <- flat_map_pairs.
    apply for_each_script. intros ea w'. apply for_each_script. intros k w''. reflexivity.
  - rewrite ops_of_app. unfold warn, absent_owner_warning.
    destruct (bool_decide _); simpl; rewrite ops_of_flat_map; reflexivity.
Qed.

(** A tail that has more than one owner is not exchanged with the globals:
    attaching it to a function adds its tags to the contents of that
    function and leaves every other count alone, and detaching it again
    brings every count of the ledger back to what it was, whatever the
    ledger held. *)
Theorem shared_tail_attach_then_detach pfn bounds w :
  (1 < length (chunk_owners (fst bounds)))%nat →
  ∃ w1 w2,
    func_tail_appended pfn bounds w = Return tt w1 ∧
    removing_func_tail pfn bounds w1 = Return tt w2 ∧
    (∀ ns key, tag_count (ledger w1) ns key =
               if decide (ns = Contents pfn)
               then (tag_count (ledger w) ns key + carries (tail_tags bounds) key)%nat
               else tag_count (ledger w) ns key) ∧
    (∀ ns key, tag_count (ledger w2) ns key = tag_count (ledger w) ns key) ∧
    (∀ ns ea, ref_count (ledger w2) ns ea = ref_count (ledger w) ns ea).
Proof.
  intros Hmany.
  destruct (func_tail_appended_shared pfn bounds w Hmany) as (s1 & E1 & O1).
  destruct (removing_func_tail_shared pfn bounds (played s1 w) Hmany) as (s2 & E2 & O2).
  exists (played s1 w), (played s2 (played s1 w)).
  split; [exact E1|]. split; [exact E2|].
  rewrite !played_ledger, O1, O2. split; [|split].
  - intros ns key. apply tally_tag_count.
  - intros ns key. rewrite untally_tag_count, tally_tag_count.
    destruct (decide (ns = Contents pfn)); [lia | reflexivity].
  - intros ns ea. rewrite untally_ref_count, tally_ref_count.
    destruct (decide (ns = Contents pfn)); [lia | reflexivity].
Qed.

End shared_tails.

(** ** The correlator of type information *)

Section typeinfo_facts.
Context {host : Idaapi} {codec : Codec}.

(** The type information that [typeinfo.changing] finds at the address. *)
Definition original_type (ea : Z) : string * string := default ("", "") (database_type ea).

Definition typeinfo_removed (ea : Z) : list step :=
  if any2 (original_type ea) then [Do (Dec Globals ea "__typeinfo__")] else [].

Definition typeinfo_added (ea : Z) (expected tidata : string * string) : list step :=
  (if bool_decide ((ea, expected) ≠ (ea, tidata))
   then [Say WARNING "The ti_changed event has a different address and type information"]
   else []) ++
  (if any2 tidata
   then [Do (Inc Globals ea "__typeinfo__");
         Say DEBUG "Updated the type information at address"]
   else [Say DEBUG "Removed the type information from address"]).

Lemma typeinfo_updater_first ea new w :
  typeinfo_updater U_first (P_changing_ti ea (original_type ea) new) w =
  Return (Yielded (U_typeinfo ea (original_type ea) new)) (played (typeinfo_removed ea) w).
Proof.
  unfold typeinfo_updater, typeinfo_removed.
  destruct (any2 (original_type ea)); reflexivity.
Qed.

Lemma typeinfo_updater_second ea original expected tidata w :
  typeinfo_updater (U_typeinfo ea original expected) (P_ti_changed ea tidata) w =
  Return Returned (played (typeinfo_added ea expected tidata) w).
Proof.
  unfold typeinfo_updater, typeinfo_added.
  destruct (decide ((ea, expected) = (ea, tidata))) as [Heq|Hne].
  - assert (expected = tidata) by congruence. subst expected.
    rewrite !(bool_decide_eq_false_2 ((ea, tidata) ≠ (ea, tidata))) by (intros H; apply H; reflexivity).
    rewrite (bool_decide_eq_false_2 (ea ≠ ea)) by (intros H; apply H; reflexivity).
    rewrite (bool_decide_eq_false_2 (tidata ≠ tidata)) by (intros H; apply H; reflexivity).
    cbv beta iota delta [bind ret]. destruct (any2 tidata); reflexivity.
  - rewrite !(bool_decide_eq_true_2 ((ea, expected) ≠ (ea, tidata))) by exact Hne.
    cbv beta iota delta [bind ret log]. destruct (any2 tidata); reflexivity.
Qed.

Lemma consumer_send_changing_ti id ea0 ea new w :
  heap w !! id = Some (Coroutine typeinfo ea0 (C_feed U_first)) →
  consumer_send id (P_changing_ti ea (original_type ea) new) w =
  Return tt (set_heap (<[id := Coroutine typeinfo ea0
                                 (C_feed (U_typeinfo ea (original_type ea) new))]> (heap w))
               (played (typeinfo_removed ea) w)).
Proof.
  intros Hh. unfold consumer_send, bind at 1, heap_get at 1. rewrite Hh.
  cbn [co_state co_cls co_ea updater_send]. rewrite typeinfo_updater_first.
  unfold heap_set. rewrite played_heap, Hh. reflexivity.
Qed.

Lemma consumer_send_ti_changed id ea0 ea original expected tidata w :
  heap w !! id = Some (Coroutine typeinfo ea0 (C_feed (U_typeinfo ea original expected))) →
  consumer_send id (P_ti_changed ea tidata) w =
  Return tt (set_heap (<[id := Coroutine typeinfo ea0 C_drain]> (heap w))
               (played (typeinfo_added ea expected tidata) w)).
Proof.
  intros Hh. unfold consumer_send, bind at 1, heap_get at 1. rewrite Hh.
  cbn [co_state co_cls co_ea updater_send]. rewrite typeinfo_updater_second.
  unfold heap_set. rewrite played_heap, Hh. reflexivity.
Qed.

Lemma typeinfo_changing_spec ea new_type new_fname w :
  wf w → State w = Some ready → is_identifier ea = false → address_within ea = true →
  let promised := (default "" new_type, default "" new_fname) in
  ∃ w1, typeinfo_changing ea new_type new_fname w = Return tt w1 ∧
        State w1 = State w ∧
        ledger w1 = apply_ops (ops_of (typeinfo_removed ea)) (ledger w) ∧
        states w1 = <[(typeinfo, ea) := length (heap w)]> (states w) ∧
        heap w1 = match states w !! (typeinfo, ea) with
                  | Some stale => <[stale := Coroutine typeinfo ea C_closed]> (heap w)
                  | None => heap w
                  end ++ [Coroutine typeinfo ea (C_feed (U_typeinfo ea (original_type ea) promised))] ∧
        ∃ added, trace w1 = trace w ++ added ∧ calls added = ops_of (typeinfo_removed ea).
Proof.
  intros W Hs Hid Hin promised.
  set (w0 := emit (Log DEBUG "Received typeinfo.changing") w).
  assert (E0 : typeinfo_changing ea new_type new_fname w =
               (event <- new typeinfo ea ;;;
                disable_hooks typeinfo_hooks ;;;
                try_finally
                  (try_except (consumer_send event (P_changing_ti ea (original_type ea) promised))
                     StopIteration
                     (log FATAL "Abandoning type information due to unexpected termination of event handler"))
                  (enable_hooks typeinfo_hooks)) w0).
  { unfold typeinfo_changing, bind at 1, is_ready.
    rewrite bool_decide_eq_true_2 by exact Hs. cbn [negb]. rewrite Hid.
    unfold within. rewrite Hin. unfold ret at 1. cbv beta iota.
    unfold bind at 1, log at 1. fold w0. unfold original_type, promised.
    destruct (default ("", "") (database_type ea)) as [old_type old_fname]. reflexivity. }
  rewrite E0. clear E0.
  assert (W0 : wf w0) by (apply (wf_same w); [reflexivity | reflexivity | exact W]).
  destruct (new_spec typeinfo ea w0 W0) as (w1 & E1 & D1 & S1 & H1).
  rewrite (bind_Return _ _ _ _ _ E1).
  change (heap w0) with (heap w) in *. change (states w0) with (states w) in *.
  destruct D1 as (DS & DL & DC & DF & DD & a1 & T1 & C1 & Q1).
  rewrite (bind_Return _ _ _ _ _ (disable_hooks_spec typeinfo_hooks w1)).
  set (w2 := set_disabled (hooks_off typeinfo_hooks (disabled w1)) w1).
  assert (Lb : length (match states w !! (typeinfo, ea) with
                       | Some stale => <[stale := Coroutine typeinfo ea C_closed]> (heap w)
                       | None => heap w
                       end) = length (heap w)).
  { destruct (states w !! (typeinfo, ea)); [apply length_insert | reflexivity]. }
  assert (Hfresh : heap w2 !! length (heap w) = Some (Coroutine typeinfo ea (C_feed U_first))).
  { simpl. rewrite H1, lookup_app_r by lia. rewrite Lb, Nat.sub_diag. reflexivity. }
  unfold try_finally, try_except.
  rewrite (consumer_send_changing_ti _ ea ea promised w2 Hfresh).
  rewrite enable_hooks_spec.
  eexists. split; [reflexivity|].
  cbn [State ledger states heap trace set_heap set_disabled].
  rewrite ?played_State, ?played_ledger, ?played_states, ?played_heap.
  unfold w2. cbn [State ledger states heap trace set_disabled].
  split; [exact DS|]. split; [rewrite DL; reflexivity|]. split; [exact S1|].
  split.
  { rewrite H1, insert_app_r_alt by lia. rewrite Lb, Nat.sub_diag. reflexivity. }
  match goal with |- context [trace (played ?s ?w0)] =>
    destruct (played_trace s w0) as (a2 & T2 & C2 & _) end.
  exists ([Log DEBUG "Received typeinfo.changing"] ++ a1 ++ a2).
  rewrite T2. cbn [trace set_disabled]. rewrite T1. unfold w0. cbn [trace emit].
  rewrite <- !app_assoc. split; [reflexivity|].
  rewrite !calls_app, C1, C2. reflexivity.
Qed.

Lemma typeinfo_changed_spec ea type fnames id original expected w :
  State w = Some ready → is_identifier ea = false → address_within ea = true →
  states w !! (typeinfo, ea) = Some id →
  heap w !! id = Some (Coroutine typeinfo ea (C_feed (U_typeinfo ea original expected))) →
  let tidata := (default "" type, default "" fnames) in
  ∃ w', typeinfo_changed ea type fnames w = Return tt w' ∧
        State w' = State w ∧
        ledger w' = apply_ops (ops_of (typeinfo_added ea expected tidata)) (ledger w) ∧
        states w' = delete (typeinfo, ea) (states w) ∧
        heap w' = <[id := Coroutine typeinfo ea C_closed]> (heap w) ∧
        ∃ added, trace w' = trace w ++ added ∧
                 calls added = ops_of (typeinfo_added ea expected tidata).
Proof.
  intros Hs Hid Hin Hst Hh tidata.
  set (w0 := emit (Log DEBUG "Received typeinfo.changed event") w).
  assert (E0 : typeinfo_changed ea type fnames w =
               (event <- resume typeinfo ea ;;;
                disable_hooks typeinfo_hooks ;;;
                try_finally
                  (try_except (consumer_send event (P_ti_changed ea tidata))
                     StopIteration
                     (log FATAL "Abandoning update of type information due to unexpected termination of event handler"))
                  (enable_hooks typeinfo_hooks) ;;;
                consumer_close event) w0).
  { unfold typeinfo_changed, bind at 1, is_ready.
    rewrite bool_decide_eq_true_2 by exact Hs. cbn [negb]. rewrite Hid.
    unfold within. rewrite Hin. unfold ret at 1. cbv beta iota.
    unfold bind at 1, log at 1. reflexivity. }
  rewrite E0. clear E0.
  assert (Er : resume typeinfo ea w0 = Return id w0).
  { unfold resume. change (states w0) with (states w). rewrite Hst. reflexivity. }
  rewrite (bind_Return _ _ _ _ _ Er).
  rewrite (bind_Return _ _ _ _ _ (disable_hooks_spec typeinfo_hooks w0)).
  set (w1 := set_disabled (hooks_off typeinfo_hooks (disabled w0)) w0).
  assert (Hh1 : heap w1 !! id =
                Some (Coroutine typeinfo ea (C_feed (U_typeinfo ea original expected))))
    by exact Hh.
  unfold bind at 1, try_finally, try_except.
  rewrite (consumer_send_ti_changed id ea ea original expected tidata w1 Hh1).
  rewrite enable_hooks_spec.
  erewrite consumer_close_drained.
  - eexists. split; [reflexivity|].
    cbn [State ledger states heap trace set_heap set_disabled set_states].
    rewrite ?played_State, ?played_ledger, ?played_states, ?played_heap.
    unfold w1, w0. cbn [State ledger states heap trace set_disabled emit].
    split; [reflexivity|]. split; [reflexivity|]. split; [reflexivity|].
    split; [apply list_insert_insert_eq|].
    match goal with |- context [trace (played ?s ?w0)] =>
      destruct (played_trace s w0) as (a2 & T2 & C2 & _) end.
    exists ([Log DEBUG "Received typeinfo.changed event"] ++ a2).
    rewrite T2. cbn [trace set_disabled emit]. rewrite <- !app_assoc.
    split; [reflexivity|]. rewrite calls_app, C2. reflexivity.
  - cbn [heap set_disabled set_heap]. rewrite ?played_heap.
    apply list_lookup_insert_eq. eapply lookup_lt_Some. exact Hh.
  - cbn [states set_disabled set_heap]. rewrite ?played_states. exact Hst.
Qed.

End typeinfo_facts.

Section typeinfo_property.
Context {host : Idaapi} {codec : Codec}.

Lemma ops_of_typeinfo_removed ea :
  ops_of (typeinfo_removed ea) =
  if any2 (original_type ea) then [Dec Globals ea "__typeinfo__"] else [].
Proof. unfold typeinfo_removed. destruct (any2 _); reflexivity. Qed.

Lemma ops_of_typeinfo_added ea expected tidata :
  ops_of (typeinfo_added ea expected tidata) =
  if any2 tidata then [Inc Globals ea "__typeinfo__"] else [].
Proof.
  unfold typeinfo_added. rewrite ops_of_app.
  destruct (bool_decide _), (any2 tidata); reflexivity.
Qed.

(** A change of type information at an address of a ready database, from
    the changing to the changed notification: the tag [__typeinfo__] is
    decremented in the globals when the address had type information, and
    incremented when the changed notification reports some, whatever the
    changing notification had announced; no other call is made and no state
    is left pending.  So the count of the tag goes up by one when a type is
    applied, down by one when it is removed, and stays when a type is
    replaced, unless it was zero: then it becomes one. *)
Theorem typeinfo_change_counts_the_reported_type ea new_type new_fname type fnames w :
  wf w → State w = Some ready → is_identifier ea = false → address_within ea = true →
  let tidata := (default "" type, default "" fnames) in
  ∃ w1 w2 added,
    typeinfo_changing ea new_type new_fname w = Return tt w1 ∧
    typeinfo_changed ea type fnames w1 = Return tt w2 ∧
    trace w2 = trace w ++ added ∧
    calls added =
      (if any2 (original_type ea) then [Dec Globals ea "__typeinfo__"] else []) ++
      (if any2 tidata then [Inc Globals ea "__typeinfo__"] else []) ∧
    ledger w2 = apply_ops (calls added) (ledger w) ∧
    states w2 !! (typeinfo, ea) = None ∧
    globals_count (ledger w2) "__typeinfo__" =
      match any2 (original_type ea), any2 tidata with
      | true, true => S (pred (globals_count (ledger w) "__typeinfo__"))
      | true, false => pred (globals_count (ledger w) "__typeinfo__")
      | false, true => S (globals_count (ledger w) "__typeinfo__")
      | false, false => globals_count (ledger w) "__typeinfo__"
      end.
Proof.
  intros W Hs Hid Hin tidata.
  destruct (typeinfo_changing_spec ea new_type new_fname w W Hs Hid Hin)
    as (w1 & E1 & S1 & L1 & St1 & H1 & a1 & T1 & C1).
  assert (Lb : length (match states w !! (typeinfo, ea) with
                       | Some stale => <[stale := Coroutine typeinfo ea C_closed]> (heap w)
                       | None => heap w
                       end) = length (heap w)).
  { destruct (states w !! (typeinfo, ea)); [apply length_insert | reflexivity]. }
  destruct (typeinfo_changed_spec ea type fnames (length (heap w)) (original_type ea)
              (default "" new_type, default "" new_fname) w1)
    as (w2 & E2 & S2 & L2 & St2 & H2 & a2 & T2 & C2); try assumption.
  { congruence. }
  { rewrite St1. apply lookup_insert_eq. }
  { rewrite H1, lookup_app_r by lia. rewrite Lb, Nat.sub_diag. reflexivity. }
  fold tidata in L2, C2.
  rewrite ops_of_typeinfo_removed in L1, C1. rewrite ops_of_typeinfo_added in L2, C2.
  exists w1, w2, (a1 ++ a2). split; [exact E1|]. split; [exact E2|].
  split; [rewrite T2, T1, app_assoc; reflexivity|].
  split; [rewrite calls_app, C1, C2; reflexivity|].
  split; [rewrite calls_app, C1, C2, apply_ops_app, <- L1; exact L2|].
  split; [rewrite St2; apply lookup_delete_eq|].
  rewrite L2, L1.
  change (globals_count ?L "__typeinfo__") with (tag_count L Globals "__typeinfo__").
  destruct (any2 (original_type ea)), (any2 tidata);
    rewrite ?apply_ops_one; cbn [apply_ops fold_left];
    rewrite ?tag_count_apply_op; unfold tag_delta;
    rewrite ?decide_True by (split; reflexivity); reflexivity.
Qed.

End typeinfo_property.

(** ** The build, run again *)

Lemma known_addresses_apply_op o L fn :
  known_addresses (apply_op o L) fn =
  match o with
  | Inc (Contents f) a _ =>
      if decide (f = fn) then {[a]} ∪ known_addresses L fn else known_addresses L fn
  | Dec Globals _ _ | Inc Globals _ _ | SetAddress Globals _ _ => known_addresses L fn
  | _ => known_addresses (apply_op o L) fn
  end.
Proof.
  destruct o as [[|f] a k|[|f] a k|[|f] a n]; try reflexivity.
  unfold known_addresses. simpl. unfold contents_inc.
  rewrite contents_read_insert. destruct (decide (f = fn)); [|reflexivity].
  unfold blob_addresses at 1. cbn [b_address default id]. unfold tally_inc.
  subst f. rewrite dom_insert_L. reflexivity.
Qed.

(** Calls of the kinds that the build makes. *)
Definition build_call (c : op) : Prop :=
  (∃ a k, c = Dec Globals a k) ∨ (∃ f a k, c = Inc (Contents f) a k).

Lemma known_addresses_grow ops L fn ea :
  (∀ c, c ∈ ops → build_call c) →
  ea ∈ known_addresses L fn ∨ (∃ k, Inc (Contents fn) ea k ∈ ops) →
  ea ∈ known_addresses (apply_ops ops L) fn.
Proof.
  revert L. induction ops as [|o ops IH]; intros L Hb Hea.
  - destruct Hea as [Hea|[k Hk]]; [exact Hea|]. apply elem_of_nil in Hk. destruct Hk.
  - change (apply_ops (o :: ops) L) with (apply_ops ops (apply_op o L)).
    apply IH; [intros c Hc; apply Hb; right; exact Hc|].
    destruct Hea as [Hea|[k Hk]].
    + left. rewrite known_addresses_apply_op.
      destruct (Hb o (list_elem_of_here _ _)) as [(a & k & ->)|(f & a & k & ->)]; [exact Hea|].
      destruct (decide (f = fn)); [apply elem_of_union; right; exact Hea | exact Hea].
    + apply elem_of_cons in Hk as [<-|Hk]; [|right; exists k; exact Hk].
      left. rewrite known_addresses_apply_op, decide_True by reflexivity.
      apply elem_of_union. left. apply elem_of_singleton. reflexivity.
Qed.

Section build_again.
Context {host : Idaapi}.

Lemma build_script_ops globals fns L c :
  NoDup fns →
  c ∈ ops_of (build_script globals fns L) ↔
  ∃ fn ea key, fn ∈ fns ∧ (fn ∉ import_names) ∧ (ea, key) ∈ function_tags fn ∧
               ((c = Dec Globals ea key ∧ ea ∈ globals) ∨
                (c = Inc (Contents fn) ea key ∧ ea ∉ known_addresses L fn)).
Proof.
  intros Hnd. rewrite (build_script_calls _ _ _ Hnd), list_elem_of_In, in_flat_map. split.
  - intros (fn & Hfn & Hc). destruct (bool_decide (fn ∈ import_names)) eqn:E; [destruct Hc|].
    apply bool_decide_eq_false in E.
    apply list_elem_of_In, function_script_calls in Hc as (ea & key & Hp & Hc).
    exists fn, ea, key. split; [apply list_elem_of_In; exact Hfn|]. tauto.
  - intros (fn & ea & key & Hfn & Himp & Hp & Hc). exists fn.
    split; [apply list_elem_of_In; exact Hfn|].
    rewrite bool_decide_eq_false_2 by exact Himp.
    apply list_elem_of_In, function_script_calls. exists ea, key. tauto.
Qed.

(** When the build is run a second time it adds nothing to the contents of
    any function: every address that it walks is by then among the
    addresses of the contents, so that the only calls it makes are
    decrements in the globals, for the addresses that are still there. *)
Theorem second_build_leaves_the_contents w :
  NoDup database_functions →
  ∃ w1 w2 added,
    process_functions w = Return tt w1 ∧
    process_functions w1 = Return tt w2 ∧
    trace w2 = trace w1 ++ added ∧
    ledger w2 = apply_ops (calls added) (ledger w1) ∧
    (∀ c, c ∈ calls added →
          ∃ ea key, c = Dec Globals ea key ∧ ea ∈ dom (netnode_alt (ledger w1))) ∧
    (∀ fn, contents_read (ledger w2) fn = contents_read (ledger w1) fn).
Proof.
  intros Hnd.
  set (s1 := build_script (dom (netnode_alt (ledger w))) database_functions (ledger w)
             ++ [Say INFO "Successfully built tag-cache"]).
  set (w1 := played s1 w).
  set (s2 := build_script (dom (netnode_alt (ledger w1))) database_functions (ledger w1)
             ++ [Say INFO "Successfully built tag-cache"]).
  destruct (played_trace s2 w1) as (added & T & C & _).
  exists w1, (played s2 w1), added.
  split; [apply process_functions_script|]. split; [apply process_functions_script|].
  split; [exact T|]. split; [rewrite C; apply played_ledger|].
  assert (O1 : ops_of s1 =
               ops_of (build_script (dom (netnode_alt (ledger w))) database_functions (ledger w))).
  { unfold s1. rewrite ops_of_app. simpl. apply app_nil_r. }
  assert (O2 : ops_of s2 =
               ops_of (build_script (dom (netnode_alt (ledger w1))) database_functions
                         (ledger w1))).
  { unfold s2. rewrite ops_of_app. simpl. apply app_nil_r. }
  assert (L1 : ledger w1 = apply_ops (ops_of s1) (ledger w)) by apply played_ledger.
  assert (Hdecs : ∀ c, c ∈ calls added →
                       ∃ ea key, c = Dec Globals ea key ∧ ea ∈ dom (netnode_alt (ledger w1))).
  { intros c Hc. rewrite C, O2 in Hc.
    apply (build_script_ops _ _ _ _ Hnd) in Hc
      as (fn & ea & key & Hfn & Himp & Hp & [[-> Hg]|[-> Hk]]).
    - exists ea, key. split; [reflexivity | exact Hg].
    - exfalso. apply Hk. rewrite L1. apply known_addresses_grow.
      + intros c Hc. rewrite O1 in Hc.
        apply (build_script_ops _ _ _ _ Hnd) in Hc
          as (fn' & ea' & key' & _ & _ & _ & [[-> _]|[-> _]]).
        * left. eexists _, _. reflexivity.
        * right. eexists _, _, _. reflexivity.
      + destruct (decide (ea ∈ known_addresses (ledger w) fn)) as [Hin|Hnin]; [left; exact Hin|].
        right. exists key. rewrite O1. apply (build_script_ops _ _ _ _ Hnd).
        exists fn, ea, key. split; [exact Hfn|]. split; [exact Himp|].
        split; [exact Hp|]. right. split; [reflexivity | exact Hnin]. }
  split; [exact Hdecs|].
  intros fn. rewrite played_ledger, <- C. apply contents_read_apply_ops.
  intros o Ho. destruct (Hdecs o Ho) as (ea & key & -> & _). discriminate.
Qed.

End build_again.

(** ** More on relocation *)

Section relocation_more.
Context {host : Idaapi}.
Hypothesis store_works : ∀ k, netnode_fails k = false.

(** [__relocate_globals], run on the globals of the old range as
    [segm_moved] lists them, when the new range does not overlap the old
    one: every entry of the old range is removed and stored with its count
    at its address moved; an entry that was stored at such an address is
    overwritten, the other entries of the new range and of the rest of the
    ledger stay, and so do the counts of the tag names and the contents. *)
Theorem relocate_globals_moves_and_overwrites old new size w :
  (new + size ≤ old ∨ old + size ≤ new) →
  ∃ w', relocate_globals old new size
          (segment_globals old size (netnode_alt (ledger w))) w = Return tt w' ∧
        netnode_hash (ledger w') = netnode_hash (ledger w) ∧
        netnode_sup (ledger w') = netnode_sup (ledger w) ∧
        ∀ k, netnode_alt (ledger w') !! k =
             if decide (new ≤ k < new + size)
             then match netnode_alt (ledger w) !! (k - new + old) with
                  | Some c => Some c
                  | None => netnode_alt (ledger w) !! k
                  end
             else if decide (old ≤ k < old + size) then None
             else netnode_alt (ledger w) !! k.
Proof.
  intros Hdisj.
  destruct (relocate_globals_ledger store_works old new size
              (segment_globals old size (netnode_alt (ledger w))) w) as (w' & E & L).
  exists w'. split; [exact E|]. rewrite L. cbn [netnode_hash netnode_sup netnode_alt].
  split; [reflexivity|]. split; [reflexivity|]. intros k.
  set (m := netnode_alt (ledger w)).
  rewrite fold_globals_lookup.
  - rewrite segment_globals_lookup.
    destruct (decide (new ≤ k < new + size)) as [Ht|Ht].
    + rewrite decide_True by lia.
      destruct (m !! (k - new + old)) as [c|]; [reflexivity|].
      rewrite decide_False; [reflexivity|].
      rewrite segment_globals_keys. intros [_ Hr]. lia.
    + rewrite decide_False by lia.
      destruct (decide (old ≤ k < old + size)) as [Hs|Hs].
      * destruct (decide (k ∈ (segment_globals old size m).*1)) as [Hin|Hnin]; [reflexivity|].
        rewrite segment_globals_keys in Hnin.
        destruct (m !! k) as [c|] eqn:Hm; [|reflexivity].
        exfalso. apply Hnin. split; [eexists; reflexivity | exact Hs].
      * rewrite decide_False; [reflexivity|].
        rewrite segment_globals_keys. tauto.
  - apply NoDup_segment_globals.
  - intros ea Hin Hin'. apply segment_globals_keys in Hin as [_ Hr], Hin' as [_ Hr']. lia.
Qed.

End relocation_more.

(** The contents that stay where they are although no function was moved
    with them: the host has a chunk that is not a tail and starts at the
    address moved. *)
Definition stray_kept {host : Idaapi} (old new ea : Z) : bool :=
  match get_fchunk (ea - old + new) with
  | Some (false, start) => bool_decide (start = ea - old + new)
  | _ => false
  end.

Lemma fold_functions_index_keep old new l (sup : gmap Z blob) (index : gset Z) k :
  k ∈ index → k - old + new ∉ l →
  k ∈ (fold_left (function_step old new) l (sup, index)).2.
Proof.
  revert sup index. induction l as [|fn l IH]; intros sup index Hk Hl; [exact Hk|].
  cbn [fold_left]. unfold function_step at 2. cbn [fst snd].
  assert (Hne : k ≠ fn - new + old).
  { intros Heq. apply Hl. replace (k - old + new) with fn by lia. left. }
  assert (Hl' : k - old + new ∉ l) by (intros Hin; apply Hl; right; exact Hin).
  destruct (sup !! (fn - new + old)); apply IH; try assumption.
  apply elem_of_difference. split; [exact Hk|]. rewrite elem_of_singleton. exact Hne.
Qed.

Section relocation_strays.
Context {host : Idaapi}.
Hypothesis store_works : ∀ k, netnode_fails k = false.

Lemma relocate_import_spec old new ea index w :
  ea - new + old ∈ index →
  ∃ w', relocate_import old new ea index w = Return (index ∖ {[ea - new + old]}) w' ∧
        ledger w' = with_sup (ledger w) (delete (ea - new + old) (netnode_sup (ledger w))).
Proof.
  intros Hin. unfold relocate_import, bind, log, contents_write. rewrite store_works.
  rewrite bool_decide_eq_true_2 by exact Hin.
  eexists. split; [reflexivity|]. reflexivity.
Qed.

Lemma relocate_imports_loop old new l index w :
  NoDup l → (∀ ea, ea ∈ l → ea - new + old ∈ index) →
  ∃ index' w',
    fold_each l index (relocate_import old new) w = Return index' w' ∧
    (∀ k, k ∈ index' ↔ k ∈ index ∧ k - old + new ∉ l) ∧
    netnode_hash (ledger w') = netnode_hash (ledger w) ∧
    netnode_alt (ledger w') = netnode_alt (ledger w) ∧
    (∀ k, netnode_sup (ledger w') !! k =
          if decide (k - old + new ∈ l) then None else netnode_sup (ledger w) !! k).
Proof.
  revert index w. induction l as [|ea l IH]; intros index w Hnd Hin.
  - exists index, w. split; [reflexivity|]. split.
    { intros k. split; [intros Hk; split; [exact Hk | apply not_elem_of_nil] | tauto]. }
    split; [reflexivity|]. split; [reflexivity|]. intros k.
    rewrite decide_False by apply not_elem_of_nil. reflexivity.
  - apply NoDup_cons in Hnd as [Hea Hnd].
    destruct (relocate_import_spec old new ea index w) as (w1 & E1 & L1);
      [apply Hin; left|].
    destruct (IH (index ∖ {[ea - new + old]}) w1 Hnd) as (index' & w' & E & Hidx & Hh & Ha & Hs).
    { intros ea' Hea'. apply elem_of_difference. split; [apply Hin; right; exact Hea'|].
      rewrite elem_of_singleton. intros Heq. apply Hea.
      replace ea with ea' by lia. exact Hea'. }
    exists index', w'. cbn [fold_each]. rewrite (bind_Return _ _ _ _ _ E1).
    split; [exact E|]. rewrite L1 in Hh, Ha, Hs.
    cbn [with_sup netnode_hash netnode_alt netnode_sup] in Hh, Ha, Hs.
    split; [|split; [exact Hh|split; [exact Ha|]]].
    + intros k. rewrite Hidx, elem_of_difference, elem_of_singleton, not_elem_of_cons.
      split; [intros [[? ?] ?]; repeat split; try assumption; lia
             |intros [? [? ?]]; repeat split; try assumption; lia].
    + intros k. rewrite Hs.
      destruct (decide (k - old + new ∈ l)) as [Hl|Hl].
      * rewrite decide_True by (right; exact Hl). reflexivity.
      * destruct (decide (k = ea - new + old)) as [->|Hne].
        -- rewrite decide_True by (apply elem_of_cons; left; lia). apply lookup_delete_eq.
        -- rewrite decide_False
             by (intros Hc; apply elem_of_cons in Hc as [Hc|Hc]; [lia | contradiction]).
           apply lookup_delete_ne. congruence.
Qed.

Lemma relocate_stray_spec old new ea w :
  ∃ w', relocate_stray old new ea w = Return tt w' ∧
        ledger w' = if stray_kept old new ea then ledger w
                    else with_sup (ledger w) (delete ea (netnode_sup (ledger w))).
Proof.
  unfold relocate_stray, stray_kept.
  destruct (get_fchunk (ea - old + new)) as [[[] start]|];
    try (unfold bind, log, ret, contents_write; rewrite store_works;
         eexists; split; reflexivity).
  destruct (decide (start = ea - old + new)) as [Heq|Hne].
  - rewrite bool_decide_eq_false_2 by (intros H; apply H; exact Heq).
    rewrite bool_decide_eq_true_2 by exact Heq.
    unfold bind, log, ret. eexists. split; reflexivity.
  - rewrite bool_decide_eq_true_2 by exact Hne.
    rewrite bool_decide_eq_false_2 by exact Hne.
    unfold bind, log, ret, contents_write. rewrite store_works.
    eexists. split; reflexivity.
Qed.

Lemma relocate_strays_loop old new l w :
  ∃ w', for_each l (relocate_stray old new) w = Return tt w' ∧
        netnode_hash (ledger w') = netnode_hash (ledger w) ∧
        netnode_alt (ledger w') = netnode_alt (ledger w) ∧
        (∀ k, netnode_sup (ledger w') !! k =
              if decide (k ∈ l ∧ stray_kept old new k = false) then None
              else netnode_sup (ledger w) !! k).
Proof.
  revert w. induction l as [|ea l IH]; intros w.
  - exists w. split; [reflexivity|]. split; [reflexivity|]. split; [reflexivity|].
    intros k. rewrite decide_False; [reflexivity|]. intros [Hk _].
    apply elem_of_nil in Hk. exact Hk.
  - destruct (relocate_stray_spec old new ea w) as (w1 & E1 & L1).
    destruct (IH w1) as (w' & E & Hh & Ha & Hs).
    exists w'. cbn [for_each]. rewrite (bind_Return _ _ _ _ _ E1). split; [exact E|].
    rewrite L1 in Hh, Ha, Hs.
    split; [destruct (stray_kept old new ea); exact Hh|].
    split; [destruct (stray_kept old new ea); exact Ha|].
    intros k. rewrite Hs.
    destruct (decide (k ∈ l ∧ stray_kept old new k = false)) as [[Hl Hk]|Hn].
    + rewrite decide_True by (split; [right; exact Hl | exact Hk]). reflexivity.
    + destruct (decide (k = ea)) as [->|Hne].
      * destruct (stray_kept old new ea) eqn:K.
        -- rewrite decide_False by (intros [_ ?]; discriminate). reflexivity.
        -- rewrite decide_True by (split; [left | reflexivity]).
           cbn [with_sup netnode_sup]. apply lookup_delete_eq.
      * rewrite decide_False.
        2:{ intros [Hc Hk]. apply elem_of_cons in Hc as [Hc|Hc]; [contradiction|].
            apply Hn. split; assumption. }
        destruct (stray_kept old new ea); [reflexivity|].
        cbn [with_sup netnode_sup]. apply lookup_delete_ne. congruence.
Qed.

End relocation_strays.

Section relocation_general.
Context {host : Idaapi}.
Hypothesis store_works : ∀ k, netnode_fails k = false.

(** [__relocate_function] for netnodes that the host has not moved, when
    the new range does not overlap the old one and holds no contents, and
    the functions that it is given are in the new range.  It returns, and
    leaves the globals alone.  The contents of each function are stored
    for the function with every address moved, and erased at the old
    address.  What is left in the old range are strays: they are erased,
    those of imports included, unless the host has a chunk that is not a
    tail starting at the address moved; such contents stay at the old
    address.  Contents outside of the two ranges stay. *)
Theorem relocate_function_moves_contents_and_clears_strays old new size l w :
  (new + size ≤ old ∨ old + size ≤ new) →
  (∀ fn, fn ∈ l → new ≤ fn < new + size) →
  (∀ ea, new ≤ ea < new + size → netnode_sup (ledger w) !! ea = None) →
  ∃ w', relocate_function old new size l false w = Return tt w' ∧
        netnode_hash (ledger w') = netnode_hash (ledger w) ∧
        netnode_alt (ledger w') = netnode_alt (ledger w) ∧
        ∀ k, netnode_sup (ledger w') !! k =
             if decide (new ≤ k < new + size) then
               if decide (k ∈ l)
               then rekey old new <$> netnode_sup (ledger w) !! (k - new + old)
               else None
             else if decide (old ≤ k < old + size) then
               if decide (k - old + new ∈ l) then None
               else if decide (k - old + new ∈ import_names) then None
               else if stray_kept old new k then netnode_sup (ledger w) !! k
               else None
             else netnode_sup (ledger w) !! k.
Proof.
  intros Hdisj Hin Hfree. unfold relocate_function.
  unfold bind at 1, get_ledger at 1.
  set (sup := netnode_sup (ledger w)) in *.
  set (index0 := filter (λ ea, old ≤ ea < old + size) (dom sup) : gset Z).
  assert (Hindex0 : ∀ k, k ∈ index0 ↔ old ≤ k < old + size ∧ is_Some (sup !! k)).
  { intros k. unfold index0. rewrite elem_of_filter, elem_of_dom. reflexivity. }
  destruct (relocate_contents_loop store_works old new l index0 w) as (w1 & E1 & L1).
  rewrite (bind_Return _ _ _ _ _ E1). fold sup in L1.
  set (index1 := (fold_left (function_step old new) l (sup, index0)).2) in *.
  set (sup1 := (fold_left (function_step old new) l (sup, index0)).1) in *.
  assert (Hindex1 : ∀ k, k ∈ index1 ↔ k ∈ index0 ∧ k - old + new ∉ l).
  { intros k. split.
    - apply fold_functions_index. intros x Hx. apply Hindex0 in Hx as [_ Hx].
      apply elem_of_dom. exact Hx.
    - intros [H0 Hl]. apply fold_functions_index_keep; assumption. }
  assert (Hsup1 : ∀ k, sup1 !! k =
                       if decide (k ∈ l)
                       then match sup !! (k - new + old) with
                            | Some b => Some (rekey old new b)
                            | None => sup !! k
                            end
                       else if decide (k - old + new ∈ l) then None else sup !! k).
  { intros k. apply (fold_functions_lookup old new size); assumption. }
  cbv zeta.
  set (l2 := elements (set_map (λ ea : Z, ea - old + new) index1 ∩ list_to_set import_names
                       : gset Z)).
  assert (Hl2 : ∀ ea, ea ∈ l2 ↔ ea - new + old ∈ index1 ∧ ea ∈ import_names).
  { intros ea. unfold l2.
    rewrite elem_of_elements, elem_of_intersection, elem_of_map, elem_of_list_to_set.
    split.
    - intros [(x & -> & Hx) Hi]. split; [|exact Hi].
      replace (x - old + new - new + old) with x by lia. exact Hx.
    - intros [Hx Hi]. split; [|exact Hi]. exists (ea - new + old). split; [lia | exact Hx]. }
  destruct (relocate_imports_loop store_works old new l2 index1 w1)
    as (index2 & w2 & E2 & Hindex2 & Hh2 & Ha2 & Hs2).
  { apply NoDup_elements. }
  { intros ea Hea. apply Hl2 in Hea as [Hea _]. exact Hea. }
  rewrite (bind_Return _ _ _ _ _ E2).
  destruct (relocate_strays_loop store_works old new (elements index2) w2)
    as (w3 & E3 & Hh3 & Ha3 & Hs3).
  exists w3. split; [exact E3|].
  rewrite L1 in Hh2, Ha2, Hs2. cbn [with_sup netnode_hash netnode_alt netnode_sup] in Hh2, Ha2, Hs2.
  split; [congruence|]. split; [congruence|].
  intros k. rewrite Hs3, Hs2, Hsup1.
  assert (Hstray : k ∈ elements index2 ↔
                   (old ≤ k < old + size ∧ is_Some (sup !! k)) ∧ (k - old + new ∉ l) ∧
                   ¬ (k - old + new ∈ import_names)).
  { rewrite elem_of_elements, Hindex2, Hl2, Hindex1, Hindex0.
    replace (k - old + new - new + old) with k by lia.
    rewrite Hindex1, Hindex0. tauto. }
  assert (Himp : k - old + new ∈ l2 ↔
                 (old ≤ k < old + size ∧ is_Some (sup !! k)) ∧ (k - old + new ∉ l) ∧
                 k - old + new ∈ import_names).
  { rewrite Hl2. replace (k - old + new - new + old) with k by lia.
    rewrite Hindex1, Hindex0. tauto. }
  destruct (decide (new ≤ k < new + size)) as [Ht|Ht].
  - (* the new range *)
    rewrite decide_False by (rewrite Hstray; intros [[[? _] _] _]; lia).
    rewrite decide_False by (rewrite Himp; intros [[? _] _]; lia).
    destruct (decide (k ∈ l)) as [Hk|Hk].
    + destruct (sup !! (k - new + old)) as [b|]; [reflexivity|]. apply Hfree, Ht.
    + rewrite decide_False by (intros Hc; apply Hin in Hc; lia). apply Hfree, Ht.
  - destruct (decide (old ≤ k < old + size)) as [Ho|Ho].
    + (* the old range *)
      rewrite (decide_False (P := k ∈ l)) by (intros Hc; apply Hin in Hc; lia).
      destruct (decide (k - old + new ∈ l)) as [Hl|Hl].
      * destruct (decide (k ∈ elements index2 ∧ _)); [reflexivity|].
        destruct (decide (k - old + new ∈ l2)); reflexivity.
      * destruct (sup !! k) as [b|] eqn:Eb.
        -- assert (Hsome : is_Some (Some b)) by (eexists; reflexivity).
           destruct (decide (k - old + new ∈ import_names)) as [Hi|Hi].
           ++ rewrite (decide_True (P := k - old + new ∈ l2)) by (rewrite Himp; tauto).
              destruct (decide (k ∈ elements index2 ∧ _)); reflexivity.
           ++ rewrite (decide_False (P := k - old + new ∈ l2)) by (rewrite Himp; tauto).
              destruct (stray_kept old new k) eqn:K.
              ** rewrite decide_False by (intros [_ ?]; discriminate). reflexivity.
              ** rewrite decide_True by (split; [rewrite Hstray; tauto | reflexivity]).
                 reflexivity.
        -- assert (Hnone : ¬ is_Some (@None blob)) by apply is_Some_None.
           rewrite decide_False by (rewrite Hstray; tauto).
           rewrite (decide_False (P := k - old + new ∈ l2)) by (rewrite Himp; tauto).
           destruct (decide (k - old + new ∈ import_names)); [reflexivity|].
           destruct (stray_kept old new k); reflexivity.
    + (* the rest *)
      rewrite decide_False by (rewrite Hstray; tauto).
      rewrite (decide_False (P := k - old + new ∈ l2)) by (rewrite Himp; tauto).
      rewrite (decide_False (P := k ∈ l)) by (intros Hc; apply Hin in Hc; lia).
      rewrite decide_False by (intros Hc; apply Hin in Hc; lia). reflexivity.
Qed.

End relocation_general.

(** * The properties at work

    A host of version 7 whose database has the function of [tail_host]: the
    address 0x510 has one row of extra comment in front of it and no name. *)
Definition rows_sdk : Sdk :=
  {| AU_FINAL := 200;
     FF_LABL := 0x8000;
     FF_NAME := 0x4000;
     E_PREV := 1000;
     E_NEXT := 2000;
     COLOR_DEFAULT := 0xffffffff;
     get_full_flags := λ _, 0;
     sup_get := λ ea row, if bool_decide (ea = 0x510 ∧ row = 1000)
                          then Some "first line" else None;
     function_tag := λ _, ∅;
     version_lt_7_3 := false |}.

(** The same host once the address 0x510 has a name of the user. *)
Definition named_sdk : Sdk :=
  {| AU_FINAL := 200;
     FF_LABL := 0x8000;
     FF_NAME := 0x4000;
     E_PREV := 1000;
     E_NEXT := 2000;
     COLOR_DEFAULT := 0xffffffff;
     get_full_flags := λ ea, if bool_decide (ea = 0x510) then 0x4000 else 0;
     sup_get := λ ea row, if bool_decide (ea = 0x510 ∧ row = 1000)
                          then Some "first line" else None;
     function_tag := λ _, ∅;
     version_lt_7_3 := false |}.


Lemma extra_comment_set_again_is_counted_again_witness :
  ∃ w', (for_each ["one"; "two"]
           (λ c, @extra_cmt_changed tail_host rows_sdk 0x510 1000 (Some c)) ;;;
         @extra_cmt_changed tail_host rows_sdk 0x510 1000 None) ready_world = Return tt w' ∧
        tag_count (ledger w') (Contents 0x500) "__extra_prefix__" = 1%nat ∧
        ref_count (ledger w') (Contents 0x500) 0x510 = 1%nat.
Proof.
  apply (@extra_comment_set_again_is_counted_again tail_host rows_sdk 0x510 ["one"; "two"]
           ready_world); [reflexivity | reflexivity | cbn; lia].
Defined.

Lemma color_applied_again_is_counted_again_witness :
  ∃ w', (for_each [0x11; 0x22] (@item_color_changed tail_host rows_sdk 0x510) ;;;
         @item_color_changed tail_host rows_sdk 0x510 0xffffffff) ready_world = Return tt w' ∧
        tag_count (ledger w') (Contents 0x500) "__color__" = 1%nat ∧
        ref_count (ledger w') (Contents 0x500) 0x510 = 1%nat.
Proof.
  destruct (@color_applied_again_is_counted_again tail_host rows_sdk 0x510 [0x11; 0x22]
              ready_world) as [_ H].
  destruct H as (w' & E & T & R & _);
    [reflexivity | repeat constructor; cbn; lia |].
  exists w'. split; [exact E|]. split; [exact T | exact R].
Defined.

Lemma naming_then_removing_restores_counts_witness :
  ∃ w1 w2,
    @rename tail_host rows_sdk 0x510 "start" ready_world = Return tt w1 ∧
    @rename tail_host named_sdk 0x510 "" w1 = Return tt w2 ∧
    ledger w1 ≠ ledger ready_world ∧
    (∀ ns key, tag_count (ledger w2) ns key = tag_count (ledger ready_world) ns key) ∧
    (∀ ns ea', ref_count (ledger w2) ns ea' = ref_count (ledger ready_world) ns ea').
Proof.
  apply (naming_then_removing_restores_counts tail_host rows_sdk named_sdk 0x510 "start"
           ready_world); [discriminate | reflexivity | reflexivity | reflexivity].
Defined.

Lemma Fcount_is_the_first_missing_row_witness :
  @Fcount rows_sdk 0x510 1000 ready_world = Return (Some 1) ready_world.
Proof.
  destruct (@Fcount_is_the_first_missing_row rows_sdk 0x510 1000 ready_world) as [H _].
  apply (H 1).
  - change (0 ≤ 1 < 1000). lia.
  - intros i Hi. replace i with 0 by lia. eexists. reflexivity.
  - reflexivity.
Defined.

Lemma changed_multiple_counts_a_line_that_appears_or_goes_witness :
  ∃ w' added,
    @extra_cmt_changed_multiple tail_host rows_sdk 0x510 1000 None ready_world
      = Return tt w' ∧
    calls added = [Dec (Contents 0x500) 0x510 "__extra_prefix__"] ∧
    ledger w' = apply_ops (calls added) (ledger ready_world).
Proof.
  destruct (@changed_multiple_counts_a_line_that_appears_or_goes tail_host rows_sdk 0x510 1000
              None ready_world eq_refl eq_refl) as (w' & added & E & _ & L & _ & _ & P).
  exists w', added. split; [exact E|]. split; [|exact L].
  apply (P "__extra_prefix__"); [left; split; reflexivity | eexists; reflexivity | reflexivity].
Defined.

(** The globals count the two tags of the function of [tail_host], at
    0x510 and at 0x600. *)
Definition scattered_world : World :=
  MkWorld (Some ready)
    (globals_inc 0x510 "name1" (globals_inc 0x600 "name1" empty_ledger)) ∅ ∅ ∅ [] ∅ [].

(** The host of [tail_host] when the tail at 0x600 is owned by a second
    function as well. *)
Definition shared_host : Idaapi :=
  {| get_func := λ ea, if in_range 0x500 0x520 ea || in_range 0x600 0x610 ea
                       then Some 0x500 else None;
     seg_is_xtrn := λ _, false;
     flags_is_data := λ _, false;
     is_identifier := λ ea, bool_decide (0xff00000000000000 ≤ ea);
     address_within := λ ea, bool_decide (0x400 ≤ ea < 0x1000);
     version_lt_7_0 := false;
     set_cmt_raises := λ _ _, false;
     database_type := λ _, None;
     database_type_data := λ _, ("", "");
     database_functions := [0x500; 0x700];
     function_chunks := λ fn, if bool_decide (fn = 0x500)
                              then [(0x500, 0x520); (0x600, 0x610)]
                              else if bool_decide (fn = 0x700)
                              then [(0x700, 0x720); (0x600, 0x610)] else [];
     address_prev := λ ea, ea - 1;
     address_iterate := λ l r, if bool_decide (l = 0x500) then [0x500; 0x510]
                               else if bool_decide (l = 0x600) then [0x600] else [];
     bounds_iterate := λ b, if bool_decide (b.1 = 0x600) then [0x600] else [];
     database_tag := λ ea, if bool_decide (ea = 0x510) || bool_decide (ea = 0x600)
                           then {["name1" := "value1"]} else ∅;
     import_names := [];
     chunk_owners := λ ea, if bool_decide (ea = 0x600) then [0x500; 0x700] else [];
     get_fchunk := λ _, None;
     netnode_fails := λ _, false |}.

Lemma add_func_then_del_func_witness :
  ∃ w1 w2,
    @add_func tail_host 0x500 scattered_world = Return tt w1 ∧
    @del_func tail_host rows_sdk 0x500 w1 = Return tt w2 ∧
    (∀ ns key, tag_count (ledger w2) ns key = tag_count (ledger scattered_world) ns key) ∧
    (∀ ns ea, ref_count (ledger w2) ns ea = ref_count (ledger scattered_world) ns ea).
Proof.
  destruct (@add_func_then_del_func tail_host rows_sdk 0x500 scattered_world)
    as (w1 & w2 & E1 & E2 & _ & _ & H).
  - intros key. change (@function_tags tail_host 0x500)
      with [(0x510, "name1"); (0x600, "name1")].
    unfold carries. rewrite !hits_cons. cbn [fst snd].
    destruct (decide ("name1" = key)) as [<-|Hk].
    + rewrite !bool_decide_eq_true_2 by reflexivity. vm_compute. lia.
    + rewrite !bool_decide_eq_false_2 by exact Hk. cbn. lia.
  - intros ea. change (@function_tags tail_host 0x500)
      with [(0x510, "name1"); (0x600, "name1")].
    unfold keys_of. rewrite !hits_cons. cbn [fst snd].
    destruct (decide (0x510 = ea)) as [<-|H1]; [vm_compute; lia|].
    destruct (decide (0x600 = ea)) as [<-|H2]; [vm_compute; lia|].
    rewrite !bool_decide_eq_false_2 by assumption. cbn. lia.
  - exists w1, w2. split; [exact E1|]. split; [exact E2|]. apply H. reflexivity.
Defined.

Lemma set_func_end_there_and_back_witness :
  ∃ w1 w2,
    @set_func_end tail_host (0x500, 0x600) 0x610 counted_world = Return tt w1 ∧
    @set_func_end tail_host (0x500, 0x610) 0x600 w1 = Return tt w2 ∧
    contents_count (ledger w1) 0x500 "name1" = 1%nat ∧
    (∀ ns key, tag_count (ledger w2) ns key = tag_count (ledger counted_world) ns key) ∧
    (∀ ns ea, ref_count (ledger w2) ns ea = ref_count (ledger counted_world) ns ea).
Proof.
  destruct (@set_func_end_there_and_back tail_host 0x500 0x600 0x610 counted_world)
    as [H _].
  destruct H as (w1 & w2 & E1 & E2 & C & T & R).
  - lia.
  - intros key. change (@range_tags tail_host 0x600 (@address_prev tail_host 0x610))
      with [(0x600, "name1")].
    unfold carries. rewrite !hits_cons. cbn [fst snd].
    destruct (decide ("name1" = key)) as [<-|Hk].
    + rewrite !bool_decide_eq_true_2 by reflexivity. vm_compute. lia.
    + rewrite !bool_decide_eq_false_2 by exact Hk. cbn. lia.
  - intros ea. change (@range_tags tail_host 0x600 (@address_prev tail_host 0x610))
      with [(0x600, "name1")].
    unfold keys_of. rewrite !hits_cons. cbn [fst snd].
    destruct (decide (0x600 = ea)) as [<-|H2]; [vm_compute; lia|].
    rewrite !bool_decide_eq_false_2 by assumption. cbn. lia.
  - exists w1, w2. split; [exact E1|]. split; [exact E2|].
    split; [rewrite C; reflexivity|]. split; [exact T | exact R].
Defined.

(** The host of [tail_host] once the tail at 0x600 has left the function
    at 0x500. *)
Definition detached_host : Idaapi :=
  {| get_func := λ ea, if in_range 0x500 0x520 ea then Some 0x500 else None;
     seg_is_xtrn := λ _, false;
     flags_is_data := λ _, false;
     is_identifier := λ ea, bool_decide (0xff00000000000000 ≤ ea);
     address_within := λ ea, bool_decide (0x400 ≤ ea < 0x1000);
     version_lt_7_0 := false;
     set_cmt_raises := λ _ _, false;
     database_type := λ _, None;
     database_type_data := λ _, ("", "");
     database_functions := [0x500];
     function_chunks := λ fn, if bool_decide (fn = 0x500) then [(0x500, 0x520)] else [];
     address_prev := λ ea, ea - 1;
     address_iterate := λ l r, if bool_decide (l = 0x500) then [0x500; 0x510]
                               else if bool_decide (l = 0x600) then [0x600] else [];
     bounds_iterate := λ b, if bool_decide (b.1 = 0x600) then [0x600] else [];
     database_tag := λ ea, if bool_decide (ea = 0x510) || bool_decide (ea = 0x600)
                           then {["name1" := "value1"]} else ∅;
     import_names := [];
     chunk_owners := λ _, [];
     get_fchunk := λ _, None;
     netnode_fails := λ _, false |}.

(** The contents of the function 0x500 still count the tag of the tail. *)
Definition detached_world : World :=
  MkWorld (Some ready) (contents_inc 0x500 0x600 "name1" empty_ledger) ∅ ∅ ∅ [] ∅ [].

Lemma func_tail_removed_promotes_what_is_gone_witness :
  ∃ w' added,
    @func_tail_removed detached_host 0x500 0x600 detached_world = Return tt w' ∧
    calls added = [Dec (Contents 0x500) 0x600 "name1"; Inc Globals 0x600 "name1"] ∧
    ledger w' = apply_ops (calls added) (ledger detached_world) ∧
    contents_count (ledger w') 0x500 "name1" = 0%nat ∧
    globals_count (ledger w') "name1" = 1%nat.
Proof.
  destruct (@func_tail_removed_promotes_what_is_gone detached_host 0x500 0x600 detached_world)
    as (w' & added & E & _ & L & _ & H).
  assert (K : @known_addresses (ledger detached_world) 0x500 = {[0x600]})
    by (vm_compute; reflexivity).
  destruct (H 0x600 0x600) as [C _].
  - split; [rewrite K; apply elem_of_singleton; reflexivity | discriminate].
  - split; [rewrite K; apply elem_of_singleton; reflexivity | discriminate].
  - intros m [Hm _]. rewrite K in Hm. apply elem_of_singleton in Hm. lia.
  - assert (C' : calls added = [Dec (Contents 0x500) 0x600 "name1"; Inc Globals 0x600 "name1"])
      by (rewrite C; vm_compute; reflexivity).
    exists w', added. split; [exact E|]. split; [exact C'|]. split; [exact L|].
    rewrite L, C'. split; vm_compute; reflexivity.
Defined.

Lemma shared_tail_attach_then_detach_witness :
  ∃ w1 w2,
    @func_tail_appended shared_host 0x500 (0x600, 0x610) ready_world = Return tt w1 ∧
    @removing_func_tail shared_host 0x500 (0x600, 0x610) w1 = Return tt w2 ∧
    contents_count (ledger w1) 0x500 "name1" = 1%nat ∧
    globals_count (ledger w1) "name1" = 0%nat ∧
    (∀ ns key, tag_count (ledger w2) ns key = tag_count (ledger ready_world) ns key) ∧
    (∀ ns ea, ref_count (ledger w2) ns ea = ref_count (ledger ready_world) ns ea).
Proof.
  destruct (@shared_tail_attach_then_detach shared_host 0x500 (0x600, 0x610) ready_world)
    as (w1 & w2 & E1 & E2 & C & T & R).
  - change (1 < 2)%nat. lia.
  - exists w1, w2. split; [exact E1|]. split; [exact E2|].
    split; [exact (C (Contents 0x500) "name1")|].
    split; [exact (C Globals "name1")|]. split; [exact T | exact R].
Defined.

Lemma typeinfo_change_counts_the_reported_type_witness :
  ∃ w1 w2 added,
    @typeinfo_changing flat_host line_codec 0x401000 (Some "int") None ready_world
      = Return tt w1 ∧
    @typeinfo_changed flat_host line_codec 0x401000 (Some "int") None w1 = Return tt w2 ∧
    calls added = [Inc Globals 0x401000 "__typeinfo__"] ∧
    ledger w2 = apply_ops (calls added) (ledger ready_world) ∧
    globals_count (ledger w2) "__typeinfo__" = 1%nat.
Proof.
  destruct (@typeinfo_change_counts_the_reported_type flat_host line_codec 0x401000
              (Some "int") None (Some "int") None ready_world
              wf_ready_world eq_refl eq_refl eq_refl)
    as (w1 & w2 & added & E1 & E2 & _ & C & L & _ & G).
  exists w1, w2, added. split; [exact E1|]. split; [exact E2|].
  split; [exact C|]. split; [exact L | exact G].
Defined.

Lemma second_build_leaves_the_contents_witness :
  ∃ w1 w2,
    @process_functions tail_host scattered_world = Return tt w1 ∧
    @process_functions tail_host w1 = Return tt w2 ∧
    (∀ fn, contents_read (ledger w2) fn = contents_read (ledger w1) fn).
Proof.
  destruct (@second_build_leaves_the_contents tail_host scattered_world)
    as (w1 & w2 & added & E1 & E2 & _ & _ & _ & C).
  - apply NoDup_singleton.
  - exists w1, w2. split; [exact E1|]. split; [exact E2 | exact C].
Defined.

Lemma relocate_globals_moves_and_overwrites_witness :
  ∃ w', @relocate_globals moved_host 0x10000 0x20000 0x1000
          (segment_globals 0x10000 0x1000 (netnode_alt (ledger segment_world)))
          segment_world = Return tt w' ∧
        netnode_alt (ledger w') !! 0x20100 = Some 3%nat ∧
        netnode_alt (ledger w') !! 0x10100 = None.
Proof.
  destruct (@relocate_globals_moves_and_overwrites moved_host (λ _, eq_refl)
              0x10000 0x20000 0x1000 segment_world) as (w' & E & _ & _ & A); [lia|].
  exists w'. split; [exact E|].
  split; [rewrite (A 0x20100) | rewrite (A 0x10100)]; reflexivity.
Defined.

Lemma relocate_function_moves_contents_and_clears_strays_witness :
  ∃ w', @relocate_function moved_host 0x10000 0x20000 0x1000 [0x20200] false segment_world
          = Return tt w' ∧
        netnode_sup (ledger w') !! 0x20200 =
          Some (Blob {[ "name1" := 1%nat ]} (Some {[ 0x20204 := 1%nat ]})) ∧
        netnode_sup (ledger w') !! 0x10200 = None.
Proof.
  destruct (@relocate_function_moves_contents_and_clears_strays moved_host (λ _, eq_refl)
              0x10000 0x20000 0x1000 [0x20200] segment_world) as (w' & E & _ & _ & A).
  - lia.
  - intros fn Hfn. apply list_elem_of_singleton in Hfn. lia.
  - intros ea Hea. unfold segment_world, segment_ledger. cbn [ledger netnode_sup].
    apply lookup_singleton_ne. lia.
  - exists w'. split; [exact E|].
    split; [rewrite (A 0x20200) | rewrite (A 0x10200)]; vm_compute; reflexivity.
Defined.

(** ** The hook of the newer hosts for segments that move *)

(** An entry of [info]: [_from], [to] and [size]. *)
Record segm_move_info_t := SegmMove { m_from : Z; m_to : Z; m_size : Z }.

Section relocate_hook.
Context {host : Idaapi} {sdk : Sdk}.

(** [relocate]: the functions and the globals are listed once, before the
    segments are walked. *)
Definition relocate (info : list segm_move_info_t) : M unit :=
  L <- get_ledger ;;;
  let functions := merge_sort Z.le database_functions in
  let globals := merge_sort pair_le (map_to_list (netnode_alt L)) in
  if bool_decide (length info = 0%nat) then
    log WARNING "relocate: Ignoring request to relocate segments"
  else
    log INFO "relocate: Relocating tagcache for segments" ;;;
    for_each info (λ si,
      relocate_function (m_from si) (m_to si) (m_size si)
        (filter (λ ea, m_to si ≤ ea < m_to si + m_size si) functions) version_lt_7_3 ;;;
      relocate_globals (m_from si) (m_to si) (m_size si)
        (filter (λ p : Z * nat, m_from si ≤ p.1 < m_from si + m_size si) globals)).

End relocate_hook.

(** Sorting and then filtering a list gives what filtering and then
    sorting it gives. *)
Lemma StronglySorted_filter {A} (R : relation A) (P : A → Prop) `{!∀ x, Decision (P x)} l :
  StronglySorted R l → StronglySorted R (filter P l).
Proof.
  induction 1 as [|x l Hl IH Hx]; [constructor|].
  rewrite filter_cons. destruct (decide (P x)); [|exact IH].
  constructor; [exact IH|]. apply Forall_forall. intros y Hy.
  apply list_elem_of_filter in Hy as [_ Hy]. rewrite Forall_forall in Hx. apply Hx, Hy.
Qed.

Lemma filter_merge_sort {A} (R : relation A) `{!∀ x y, Decision (R x y)}
    `{!Transitive R} `{!Total R} `{!AntiSymm (=) R}
    (P : A → Prop) `{!∀ x, Decision (P x)} l :
  filter P (merge_sort R l) = merge_sort R (filter P l).
Proof.
  apply (StronglySorted_unique R).
  - apply StronglySorted_filter, StronglySorted_merge_sort; assumption.
  - apply StronglySorted_merge_sort; assumption.
  - rewrite !merge_sort_Permutation. reflexivity.
Qed.

#[local] Instance pair_le_trans : Transitive pair_le.
Proof. intros [a x] [b y] [c z]. unfold pair_le. simpl. lia. Qed.

#[local] Instance pair_le_total : Total pair_le.
Proof. intros [a x] [b y]. unfold pair_le. simpl. lia. Qed.

#[local] Instance pair_le_antisymm : AntiSymm (=) pair_le.
Proof.
  intros [a x] [b y]. unfold pair_le. simpl. intros H1 H2.
  f_equal; lia.
Qed.

(** ** Handlers that do not read what was logged *)

Definition set_trace (tr : list event) (w : World) : World :=
  MkWorld (State w) (ledger w) (comments w) (func_comments w) (disabled w) (heap w) (states w) tr.

(** The result of a run, with an earlier trace put in front of its own. *)
Definition retrace {A} (tr : list event) (r : Result A) : Result A :=
  match r with
  | Return a w => Return a (set_trace (tr ++ trace w) w)
  | Raise e w => Raise e (set_trace (tr ++ trace w) w)
  end.

(** A computation is blind when it does to a world what it does to the
    same world with an empty trace, its events coming after those of the
    world. *)
Definition blind {A} (c : M A) : Prop :=
  ∀ tr w, c (set_trace tr w) = retrace tr (c (set_trace [] w)).

Lemma set_trace_trace w : set_trace (trace w) w = w.
Proof. destruct w. reflexivity. Qed.

Lemma retrace_retrace {A} tr1 tr2 (r : Result A) :
  retrace tr1 (retrace tr2 r) = retrace (tr1 ++ tr2) r.
Proof. destruct r; simpl; rewrite app_assoc; reflexivity. Qed.

Lemma blind_at {A} (c : M A) w : blind c → c w = retrace (trace w) (c (set_trace [] w)).
Proof. intros H. rewrite <- (H (trace w) w), set_trace_trace. reflexivity. Qed.

Lemma blind_ret {A} (a : A) : blind (ret a).
Proof. intros tr w. unfold ret. simpl. rewrite app_nil_r. reflexivity. Qed.

Lemma blind_raise {A} e : blind (@raise A e).
Proof. intros tr w. unfold raise. simpl. rewrite app_nil_r. reflexivity. Qed.

Lemma blind_log l msg : blind (log l msg).
Proof. intros tr w. reflexivity. Qed.

Lemma blind_bind {A B} (c : M A) (k : A → M B) :
  blind c → (∀ a, blind (k a)) → blind (bind c k).
Proof.
  intros Hc Hk tr w. unfold bind. rewrite (Hc tr w).
  destruct (c (set_trace [] w)) as [a w1|e w1]; simpl; [|reflexivity].
  rewrite (Hk a (tr ++ trace w1) w1). rewrite (blind_at (k a) w1 (Hk a)).
  rewrite retrace_retrace. reflexivity.
Qed.

Lemma blind_when b c : blind c → blind (when b c).
Proof. intros H. destruct b; [exact H | apply blind_ret]. Qed.

Lemma blind_for_each {A} (l : list A) body : (∀ x, blind (body x)) → blind (for_each l body).
Proof.
  intros H. induction l as [|x l IH]; [apply blind_ret|].
  cbn [for_each]. apply blind_bind; [apply H | intros _; exact IH].
Qed.

Lemma blind_fold_each {A S} (l : list A) (s : S) body :
  (∀ x s, blind (body x s)) → blind (fold_each l s body).
Proof.
  intros H. revert s. induction l as [|x l IH]; intros s; [apply blind_ret|].
  cbn [fold_each]. apply blind_bind; [apply H | intros s'; apply IH].
Qed.

Section blind_relocation.
Context {host : Idaapi}.

Lemma blind_get_ledger : blind get_ledger.
Proof. intros tr w. unfold get_ledger. simpl. rewrite app_nil_r. reflexivity. Qed.

Lemma blind_contents_read_raw key : blind (contents_read_raw key).
Proof. intros tr w. unfold contents_read_raw. simpl. rewrite app_nil_r. reflexivity. Qed.

Lemma blind_contents_write key value : blind (contents_write key value).
Proof.
  intros tr w. unfold contents_write.
  destruct (netnode_fails key); simpl; rewrite app_nil_r; reflexivity.
Qed.

Lemma blind_alt_remove ea : blind (alt_remove ea).
Proof.
  intros tr w. unfold alt_remove.
  destruct (netnode_fails ea); simpl; rewrite app_nil_r; reflexivity.
Qed.

Lemma blind_alt_set ea n : blind (alt_set ea n).
Proof.
  intros tr w. unfold alt_set.
  destruct (netnode_fails ea); simpl; rewrite app_nil_r; reflexivity.
Qed.

Ltac blind_steps :=
  repeat first
    [ apply blind_bind; [|intros ?]
    | apply blind_when
    | apply blind_log
    | apply blind_ret
    | apply blind_raise
    | apply blind_get_ledger
    | apply blind_contents_read_raw
    | apply blind_contents_write
    | apply blind_alt_remove
    | apply blind_alt_set ].

Lemma blind_relocate_contents old new moved fn index :
  blind (relocate_contents old new moved fn index).
Proof.
  unfold relocate_contents. cbv zeta. apply blind_bind; [apply blind_contents_read_raw|].
  intros [state|]; blind_steps.
Qed.

Lemma blind_relocate_import old new ea index : blind (relocate_import old new ea index).
Proof.
  unfold relocate_import. cbv zeta. blind_steps.
  destruct (bool_decide _); blind_steps.
Qed.

Lemma blind_relocate_stray old new ea : blind (relocate_stray old new ea).
Proof.
  unfold relocate_stray. cbv zeta. apply blind_bind.
  - destruct (get_fchunk _) as [[[] start]|]; [| |]; blind_steps.
    destruct (bool_decide _); blind_steps.
  - intros []; blind_steps.
Qed.

Lemma blind_relocate_function old new size l moved :
  blind (relocate_function old new size l moved).
Proof.
  unfold relocate_function. apply blind_bind; [apply blind_get_ledger|]. intros L0. cbv zeta.
  apply blind_bind; [apply blind_fold_each; intros; apply blind_relocate_contents|].
  intros index1.
  apply blind_bind; [apply blind_fold_each; intros; apply blind_relocate_import|].
  intros index2. apply blind_for_each. intros ea. apply blind_relocate_stray.
Qed.

Lemma blind_relocate_globals old new size l : blind (relocate_globals old new size l).
Proof.
  unfold relocate_globals. apply blind_for_each. intros [ea count]. cbv zeta. blind_steps.
Qed.

End blind_relocation.

Section relocate_property.
Context {host : Idaapi} {sdk : Sdk}.

Lemma bind_ret_tt (c : M unit) w : (c ;;; ret tt) w = c w.
Proof. unfold bind, ret. destruct (c w) as [[] w'|e w']; reflexivity. Qed.

Lemma ledger_retrace {A} tr (r : Result A) : ledger (world_of (retrace tr r)) = ledger (world_of r).
Proof. destruct r; reflexivity. Qed.

(** [relocate], given one segment, does what [segm_moved] does for that
    segment when it is told that the netnodes were moved on a host older
    than 7.3, and that they were not on a newer one: the two hooks end
    alike, returning or raising, with the same ledger, and after their
    first line, which differs, they log the same.  Given no segment,
    [relocate] logs a warning and does nothing else. *)
Theorem relocate_of_one_segment_is_segm_moved old new size w :
  (∃ r : Result unit,
     relocate [SegmMove old new size] w =
       retrace (trace w ++ [Log INFO "relocate: Relocating tagcache for segments"]) r ∧
     segm_moved old new size (negb version_lt_7_3) w =
       retrace (trace w ++ [Log INFO "segm_moved: Relocating tagcache for segment"]) r) ∧
  ledger (world_of (relocate [SegmMove old new size] w)) =
    ledger (world_of (segm_moved old new size (negb version_lt_7_3) w)) ∧
  relocate [] w =
    Return tt (emit (Log WARNING "relocate: Ignoring request to relocate segments") w).
Proof.
  set (body := relocate_function old new size
                 (merge_sort Z.le (filter (λ ea, new ≤ ea < new + size) database_functions))
                 version_lt_7_3 ;;;
               relocate_globals old new size
                 (merge_sort pair_le
                    (filter (λ p : Z * nat, old ≤ p.1 < old + size)
                       (map_to_list (netnode_alt (ledger w)))))).
  assert (Hbody : blind body).
  { apply blind_bind; [apply blind_relocate_function|].
    intros _. apply blind_relocate_globals. }
  assert (Hr : relocate [SegmMove old new size] w =
               retrace (trace w ++ [Log INFO "relocate: Relocating tagcache for segments"])
                 (body (set_trace [] w))).
  { unfold relocate. unfold bind at 1, get_ledger at 1. cbv zeta.
    rewrite bool_decide_eq_false_2 by discriminate.
    unfold bind at 1, log at 1. cbn [for_each m_from m_to m_size].
    rewrite bind_ret_tt.
    rewrite (filter_merge_sort Z.le), (filter_merge_sort pair_le). fold body.
    exact (Hbody (trace w ++ [Log INFO "relocate: Relocating tagcache for segments"]) w). }
  assert (Hs : segm_moved old new size (negb version_lt_7_3) w =
               retrace (trace w ++ [Log INFO "segm_moved: Relocating tagcache for segment"])
                 (body (set_trace [] w))).
  { unfold segm_moved. cbv zeta. unfold bind at 1, get_ledger at 1.
    unfold bind at 1, log at 1. rewrite negb_involutive. fold body.
    exact (Hbody (trace w ++ [Log INFO "segm_moved: Relocating tagcache for segment"]) w). }
  split; [exists (body (set_trace [] w)); split; assumption|].
  split; [rewrite Hr, Hs, !ledger_retrace; reflexivity|].
  reflexivity.
Qed.

End relocate_property.
